(** * Ketryx data extractor: field, value and relation inference

    A shallow embedding of [src/ketryx_data_extractor.py] and the
    properties of its inference engine.

    Conventions of the embedding.
    - A Python [str] is a [string]; an [ascii] stands for the code point of
      the same number (U+0000 .. U+00FF).
    - A field value is a JSON scalar ([value]): [None], a [bool], an [int]
      or a [str].  Floats, lists and objects as field values are outside
      the model.
    - The fill rate is a binary64 float, kept as the rational number that
      it denotes; division and multiplication round to the nearest float,
      ties to even.
    - A Python [dict] is an association list in insertion order with
      pairwise distinct keys ([od]).
    - [x.get(k)] on a JSON object yields [None] both for an absent key and
      for a [null] entry; the two are not told apart below ([VNone]).
    - Labels, type hints, relation names and totals have the types the
      record source promises ([str], [int]); elements of JSON arrays that
      the code tests with [isinstance(_, dict)] may be non-objects
      ([NonDict]).
    - A raised exception is an explicit result ([Raise]). *)

From Stdlib Require Import List String Ascii Bool Arith ZArith QArith Lia.
From Stdlib Require Import Qround Qpower Lqa.
From Stdlib Require Import Permutation Sorted DecimalString.
Import ListNotations.
Local Close Scope Q_scope.
Local Open Scope string_scope.
Local Open Scope list_scope.
Local Open Scope nat_scope.

(* ================================================================= *)
(** ** Python primitives *)

Module Py.

(** *** Exceptions *)

Inductive exn : Type := TypeError | AttributeError.

Inductive res (A : Type) : Type :=
| Ok (a : A)
| Raise (e : exn).
Arguments Ok {A} a.
Arguments Raise {A} e.

Definition bind {A B} (m : res A) (k : A -> res B) : res B :=
  match m with
  | Ok a => k a
  | Raise e => Raise e
  end.

(** *** Strings *)

(** [s.replace(old, new)] for one-character [old] and [new]. *)
Fixpoint replace (old new : ascii) (s : string) : string :=
  match s with
  | EmptyString => EmptyString
  | String c s' =>
      String (if Ascii.eqb c old then new else c) (replace old new s')
  end.

(** [c.lower()] on U+0000 .. U+00FF: A-Z, and the upper-case letters
    U+00C0 .. U+00DE except the multiplication sign U+00D7. *)
Definition lower_char (c : ascii) : ascii :=
  let n := nat_of_ascii c in
  if ((65 <=? n) && (n <=? 90))
     || ((192 <=? n) && (n <=? 222) && negb (n =? 215))
  then ascii_of_nat (n + 32) else c.

Fixpoint lower (s : string) : string :=
  match s with
  | EmptyString => EmptyString
  | String c s' => String (lower_char c) (lower s')
  end.

(** Letters of U+0000 .. U+00FF (general categories Lu, Ll, Lo). *)
Definition isalpha_char (c : ascii) : bool :=
  let n := nat_of_ascii c in
  ((65 <=? n) && (n <=? 90)) || ((97 <=? n) && (n <=? 122))
  || (n =? 170) || (n =? 181) || (n =? 186)
  || ((192 <=? n) && (n <=? 214)) || ((216 <=? n) && (n <=? 246))
  || ((248 <=? n) && (n <=? 255)).

Fixpoint all_chars (p : ascii -> bool) (s : string) : bool :=
  match s with
  | EmptyString => true
  | String c s' => p c && all_chars p s'
  end.

(** [s.isalpha()]: at least one character, and all of them letters. *)
Definition isalpha (s : string) : bool :=
  match s with
  | EmptyString => false
  | _ => all_chars isalpha_char s
  end.

(** [sub in s]. *)
Fixpoint contains (sub s : string) : bool :=
  match s with
  | EmptyString => String.prefix sub EmptyString
  | String _ s' => String.prefix sub s || contains sub s'
  end.

(** [s[:n]]. *)
Fixpoint take (n : nat) (s : string) : string :=
  match n, s with
  | S n', String c s' => String c (take n' s')
  | _, _ => EmptyString
  end.

(** [s.split(sep)[0]] for a one-character [sep]. *)
Fixpoint split_head (sep : ascii) (s : string) : string :=
  match s with
  | EmptyString => EmptyString
  | String c s' =>
      if Ascii.eqb c sep then EmptyString else String c (split_head sep s')
  end.

(** [str(n)] for an [int]. *)
Definition str_of_int (n : Z) : string :=
  NilEmpty.string_of_int (Z.to_int n).

(** *** JSON scalars *)

Inductive value : Type :=
| VNone
| VBool (b : bool)
| VInt (n : Z)
| VStr (s : string).

(** [bool(v)]. *)
Definition truthy (v : value) : bool :=
  match v with
  | VNone => false
  | VBool b => b
  | VInt n => negb (n =? 0)%Z
  | VStr s => negb (String.eqb s "")
  end.

(** [v is None]. *)
Definition is_none (v : value) : bool :=
  match v with VNone => true | _ => false end.

(** [isinstance(v, str)]. *)
Definition is_str (v : value) : bool :=
  match v with VStr _ => true | _ => false end.

(** A [bool] is an [int] in Python: [True == 1], [False == 0]. *)
Definition as_int (v : value) : option Z :=
  match v with
  | VBool b => Some (if b then 1 else 0)%Z
  | VInt n => Some n
  | _ => None
  end.

(** [a == b]. *)
Definition eqb (a b : value) : bool :=
  match a, b with
  | VNone, VNone => true
  | VStr s, VStr t => String.eqb s t
  | _, _ =>
      match as_int a, as_int b with
      | Some m, Some n => (m =? n)%Z
      | _, _ => false
      end
  end.

(** [str(v)]. *)
Definition str (v : value) : string :=
  match v with
  | VNone => "None"
  | VBool true => "True"
  | VBool false => "False"
  | VInt n => str_of_int n
  | VStr s => s
  end.

(** [x in l] for a list: the first element equal to [x] decides. *)
Definition in_list (x : value) (l : list value) : bool :=
  existsb (eqb x) l.

(** *** Sorting *)

Section Sorted.
Context {A : Type} (le : A -> A -> bool).

(** [sorted] is stable; on a total preorder every stable sort returns
    the same list, here the one of insertion from the right. *)
Fixpoint insert (x : A) (l : list A) : list A :=
  match l with
  | [] => [x]
  | y :: l' => if le x y then x :: l else y :: insert x l'
  end.

Fixpoint sorted (l : list A) : list A :=
  match l with
  | [] => []
  | x :: l' => insert x (sorted l')
  end.
End Sorted.

(** [sorted(l, key=key, reverse=True)] for integer keys: descending by
    key, elements with equal keys in their original order. *)
Definition sorted_by_key_desc {A} (key : A -> Z) (l : list A) : list A :=
  sorted (fun a b => (key b <=? key a)%Z) l.

(** [a < b] raises [TypeError] unless both are strings or both are
    numbers; [None] is not ordered at all. *)
Definition value_le (a b : value) : bool :=
  match a, b with
  | VStr s, VStr t => String.leb s t
  | _, _ =>
      match as_int a, as_int b with
      | Some m, Some n => (m <=? n)%Z
      | _, _ => false
      end
  end.

Definition all_str (l : list value) : bool := forallb is_str l.

Definition all_num (l : list value) : bool :=
  forallb (fun v => match as_int v with Some _ => true | None => false end) l.

(** [sorted(l)] on scalars.  With two or more elements of which two are
    not comparable, some comparison of the sort raises. *)
Definition sorted_values (l : list value) : res (list value) :=
  match l with
  | [] | [_] => Ok l
  | _ => if all_str l || all_num l then Ok (sorted value_le l)
         else Raise TypeError
  end.

(** *** Ordered dictionaries *)

Section Od.
Context {V : Type}.

Definition od : Type := list (string * V).

Fixpoint get (k : string) (d : od) : option V :=
  match d with
  | [] => None
  | (k', v) :: d' => if String.eqb k' k then Some v else get k d'
  end.

(** [d[k] = v]: in place for a key already there, at the end for a
    new one. *)
Fixpoint set (k : string) (v : V) (d : od) : od :=
  match d with
  | [] => [(k, v)]
  | (k', v') :: d' =>
      if String.eqb k' k then (k', v) :: d' else (k', v') :: set k v d'
  end.

(** [del d[k]] (for a key that is there). *)
Fixpoint del (k : string) (d : od) : od :=
  match d with
  | [] => []
  | (k', v') :: d' => if String.eqb k' k then d' else (k', v') :: del k d'
  end.

(** [d[k]] of a [defaultdict] with default [dflt], followed by the
    update [f] of the entry. *)
Definition update (dflt : V) (k : string) (f : V -> V) (d : od) : od :=
  match get k d with
  | Some v => set k (f v) d
  | None => set k (f dflt) d
  end.

Definition keys (d : od) : list string := map fst d.
Definition values (d : od) : list V := map snd d.

Fixpoint nodupb (l : list string) : bool :=
  match l with
  | [] => true
  | k :: l' => negb (existsb (String.eqb k) l') && nodupb l'
  end.

(** The keys of a dictionary are pairwise distinct. *)
Definition wf (d : od) : bool := nodupb (keys d).
End Od.
Arguments od V : clear implicits.

(** [list(dict.fromkeys(l))]: the distinct members of [l], each at the
    place of its first occurrence. *)
Definition fromkeys (l : list string) : list string :=
  keys (fold_left (fun d k => set k tt d) l []).

End Py.

Notation "x <- m ;; k" := (Py.bind m (fun x => k))
  (at level 61, m at next level, right associativity).

Import Py.

(* ================================================================= *)
(** ** Configuration *)

Definition MAX_SAMPLE_VALUES : nat := 5.
Definition MAX_UNIQUE_VALUES : nat := 25.
Definition MAX_SAMPLE_RECORDS : nat := 3.
Definition MAX_STRING_LENGTH : nat := 100.

Definition RICH_TEXT_FIELD_PATTERNS : list string :=
  [ "description"; "rationale"; "notes"; "content"; "details"; "summary";
    "comment"; "justification"; "analysis"; "resolution"; "root_cause";
    "impact"; "mitigation"; "verification"; "acceptance_criteria" ].

(* ================================================================= *)
(** ** Field names *)

(** [_normalize_field_name]: spaces -> underscores. *)
Definition _normalize_field_name (name : string) : string :=
  replace " " "_" name.

(* ================================================================= *)
(** ** Input: records as the record source delivers them *)

(** An element of a JSON array on which the code tests
    [isinstance(_, dict)]. *)
Inductive item (A : Type) : Type :=
| Dict (a : A)
| NonDict.
Arguments Dict {A} a.
Arguments NonDict {A}.

(** A field entry [{label, value, type}]; [None] for an absent key.  A
    label and a type hint that are present are strings.  A label that is
    JSON [null] is outside this type: the loops that compare or test the
    label read it like an absent one, but [_build_sample_records]
    normalizes the label before it tests it and raises on [null]. *)
Record field_obj : Type := mk_field_obj {
  fo_label : option string;
  fo_value : value;
  fo_type : option string
}.

(** A relation entry; only its ["type"] is read. *)
Record relation_obj : Type := mk_relation_obj {
  rel_type : option string
}.

Record record : Type := mk_record {
  r_title : value;
  r_revision : value;
  r_isControlled : value;
  r_createdAt : value;
  r_fields : list (item field_obj);
  r_relations : list (item relation_obj)
}.

(** [record.get(field_name)] for the attributes at the record root. *)
Definition record_get (r : record) (field_name : string) : value :=
  if String.eqb field_name "title" then r_title r
  else if String.eqb field_name "revision" then r_revision r
  else if String.eqb field_name "isControlled" then r_isControlled r
  else if String.eqb field_name "createdAt" then r_createdAt r
  else VNone.

(** [field_obj.get("label", "")] and [field_obj.get("type", "string")]. *)
Definition label_or_empty (f : field_obj) : string :=
  match fo_label f with Some l => l | None => "" end.

Definition type_or_string (f : field_obj) : string :=
  match fo_type f with Some t => t | None => "string" end.

(** [field_obj.get("label") == label]. *)
Definition label_is (f : field_obj) (label : string) : bool :=
  match fo_label f with Some l => String.eqb l label | None => false end.

(* ================================================================= *)
(** ** Output documents *)

#[local] Set Warnings "-register-all".
Inductive json : Type :=
| JNull
| JBool (b : bool)
| JInt (n : Z)
| JStr (s : string)
| JList (l : list json)
| JObj (l : list (string * json)).

Definition json_of_value (v : value) : json :=
  match v with
  | VNone => JNull
  | VBool b => JBool b
  | VInt n => JInt n
  | VStr s => JStr s
  end.

Definition json_of_strings (l : list string) : json := JList (map JStr l).

Definition json_of_str_dict (d : od string) : json :=
  JObj (map (fun kv => (fst kv, JStr (snd kv))) d).

(* ================================================================= *)
(** ** Floats (binary64)

    A float is kept as the rational number that it denotes.  The floats
    met here are quotients of two list lengths and their products with
    100: positive (or zero) and far from both ends of the exponent range,
    so that neither subnormal numbers nor infinities are modelled. *)

(** The nearest integer, a tie going to the even one. *)
Definition round_half_even (x : Q) : Z :=
  let n := Qnum x in
  let d := Zpos (Qden x) in
  let q := (n / d)%Z in
  let r := (n mod d)%Z in
  match (2 * r ?= d)%Z with
  | Lt => q
  | Gt => (q + 1)%Z
  | Eq => if Z.even q then q else (q + 1)%Z
  end.

(** [floor(log2 x)], for [x >= 2^-1074]. *)
Definition binade (x : Q) : Z :=
  (Z.log2 (Qfloor (x * inject_Z (2 ^ 1074))) - 1074)%Z.

(** Rounding to the nearest float, ties to even: 53 significant bits. *)
Definition round64 (x : Q) : Q :=
  let e := (binade x - 52)%Z in
  (inject_Z (round_half_even (x * 2 ^ (- e))) * 2 ^ e)%Q.

(** [a / b] on two [int]s, and [x * y] on two floats: the exact result,
    rounded. *)
Definition int_truediv (a b : Z) : Q := round64 (inject_Z a / inject_Z b).

Definition float_mul (x y : Q) : Q := round64 (x * y).

(** [f"{x:.0f}"]: the decimal digits of the nearest integer. *)
Definition format_0f (x : Q) : string := str_of_int (round_half_even x).

(* ================================================================= *)
(** ** Data classes *)

Record FieldInfo : Type := mk_FieldInfo {
  fi_name : string;
  normalizedName : string;
  fi_label : string;
  dataType : string;
  isCustomField : bool;
  access : od string;
  description : string;
  uniqueValues : list string;
  exampleValues : list string;
  fillRate : Q
}.

Definition is_nil {A} (l : list A) : bool :=
  match l with [] => true | _ => false end.

Definition FieldInfo_to_dict (f : FieldInfo) : od json :=
  let result := [ ("label", JStr (fi_label f));
                  ("dataType", JStr (dataType f));
                  ("access", json_of_str_dict (access f)) ] in
  let result :=
    if isCustomField f then set "isCustomField" (JBool true) result
    else result in
  let result :=
    if negb (is_nil (uniqueValues f))
    then set "uniqueValues" (json_of_strings (uniqueValues f)) result
    else if negb (is_nil (exampleValues f))
    then set "exampleValues" (json_of_strings (exampleValues f)) result
    else result in
  if negb (Qle_bool 100 (fillRate f))
  then set "fillRate" (JStr (format_0f (fillRate f) ++ "%")%string) result
  else result.

Record RelationTypeInfo : Type := mk_RelationTypeInfo {
  relationType : string;
  fromTypes : list string;
  toTypes : list string;
  rt_count : Z;
  accessPattern : string
}.

Record ItemTypeInfo : Type := mk_ItemTypeInfo {
  it_name : string;
  kqlQuery : string;
  shortName : string;
  it_count : Z;
  statuses : list value;
  fields : od FieldInfo;
  sampleRecords : list (od string);
  outgoingRelations : list (od string);
  incomingRelations : list (od string)
}.

Definition ItemTypeInfo_to_dict (t : ItemTypeInfo) : od json :=
  let result :=
    [ ("kqlQuery", JStr (kqlQuery t));
      ("count", JInt (it_count t));
      ("fields",
       JObj (map (fun kv => (fst kv, JObj (FieldInfo_to_dict (snd kv))))
                 (fields t)));
      ("sampleRecords", JList (map json_of_str_dict (sampleRecords t))) ] in
  let result :=
    if negb (String.eqb (shortName t) "")
    then set "shortName" (JStr (shortName t)) result else result in
  let result :=
    if negb (is_nil (statuses t))
    then set "statuses" (JList (map json_of_value (statuses t))) result
    else result in
  let result :=
    if negb (is_nil (outgoingRelations t))
    then set "outgoingRelations"
             (JList (map json_of_str_dict (outgoingRelations t))) result
    else result in
  if negb (is_nil (incomingRelations t))
  then set "incomingRelations"
           (JList (map json_of_str_dict (incomingRelations t))) result
  else result.

(* ================================================================= *)
(** ** Field classification *)

Definition html_indicators : list string :=
  [ "<p>"; "<ul>"; "<ol>"; "<li>"; "<strong>"; "<em>"; "<br"; "<div>";
    "<span>" ].

(** The test on one observed value in [_is_rich_text_field]. *)
Definition rich_value (v : value) : bool :=
  match v with
  | VStr s =>
      existsb (fun tag => contains tag s) html_indicators
      || (500 <? String.length s)
  | _ => false
  end.

(** The test on the field name in [_is_rich_text_field]. *)
Definition rich_name (field_name : string) : bool :=
  let lower_name := replace "_" " " (lower field_name) in
  existsb (fun pattern => contains pattern lower_name)
          RICH_TEXT_FIELD_PATTERNS.

Definition _is_rich_text_field (field_name : string) (values : list value)
  : bool :=
  if rich_name field_name then true
  else existsb rich_value (firstn 10 values).

Definition _compute_access_paths (field_name : string) (is_custom : bool)
    (data_type : string) : od string :=
  let normalized := _normalize_field_name field_name in
  if is_custom then
    if String.eqb data_type "richText" then
      [ ("plain", ("fieldValue." ++ normalized)%string);
        ("rich", ("~~fieldContent." ++ normalized)%string) ]
    else [ ("plain", ("fieldValue." ++ normalized)%string) ]
  else
    if String.eqb data_type "richText" then
      [ ("plain", field_name); ("rich", ("~~" ++ field_name)%string) ]
    else [ ("plain", field_name) ].

(** The string kept for one observed value in [_compute_value_samples]. *)
Definition truncate_value (v : value) : string :=
  match v with
  | VStr s => take MAX_STRING_LENGTH s
  | _ => str v
  end.

Definition _compute_value_samples (values : list value) (data_type : string)
  : list string * list string :=
  if is_nil values then ([], [])
  else if String.eqb data_type "richText" then ([], [])
  else
    let truncated := map truncate_value values in
    let unique := fromkeys truncated in
    if List.length unique <=? MAX_UNIQUE_VALUES
    then (sorted String.leb unique, [])
    else ([], firstn MAX_SAMPLE_VALUES unique).

(* ================================================================= *)
(** ** The extractor *)

(** The answer of [query_records]: [None] for a failed call. *)
Record response : Type := mk_response {
  resp_records : option (list (item record));
  resp_total : option Z
}.

Record extractor : Type := mk_extractor {
  item_types : od ItemTypeInfo;
  relation_types : od RelationTypeInfo;
  all_records_by_type : od (list (item record))
}.

(** The type entry that [_discover_types_from_items] creates. *)
Definition new_ItemTypeInfo (name kql : string) : ItemTypeInfo :=
  mk_ItemTypeInfo name kql "" 0%Z [] [] [] [] [].

(** *** [_fetch_records_by_type] *)

(** The loop over the field entries of one record; [shortName] is
    [type_info.shortName], the result its value when the loop is left. *)
Fixpoint short_name_of_fields (fs : list (item field_obj))
    (shortName : string) : string :=
  match fs with
  | [] => shortName
  | NonDict :: fs' => short_name_of_fields fs' shortName
  | Dict field_obj :: fs' =>
      if label_is field_obj "ID" then
        let doc_id := fo_value field_obj in
        if truthy doc_id && contains "-" (str doc_id) then
          let prefix := split_head "-" (str doc_id) in
          if isalpha prefix
             && (1 <=? String.length prefix) && (String.length prefix <=? 6)
          then prefix
          else short_name_of_fields fs' shortName
        else short_name_of_fields fs' shortName
      else short_name_of_fields fs' shortName
  end.

(** The loop over [records[:20]]. *)
Fixpoint short_name_of_records (records : list (item record))
    (shortName : string) : string :=
  match records with
  | [] => shortName
  | NonDict :: rs => short_name_of_records rs shortName
  | Dict r :: rs =>
      let shortName := short_name_of_fields (r_fields r) shortName in
      if negb (String.eqb shortName "") then shortName
      else short_name_of_records rs shortName
  end.

Definition with_count_shortName (t : ItemTypeInfo) (count : Z)
    (short : string) : ItemTypeInfo :=
  mk_ItemTypeInfo (it_name t) (kqlQuery t) short count (statuses t)
    (fields t) (sampleRecords t) (outgoingRelations t) (incomingRelations t).

Section Fetch.
(** [client.query_records(project_id, kql, version_id=None,
    max_results=1000)] as a function of the query. *)
Variable query_records : string -> option response.

(** One round of the loop over [item_types.items()]; the state is the
    extractor and [types_to_remove].  A response that is an empty JSON
    object has no records either and ends in the same branch. *)
Definition fetch_type (acc : extractor * list string)
    (entry : string * ItemTypeInfo) : extractor * list string :=
  let (st, types_to_remove) := acc in
  let (type_name, type_info) := entry in
  match query_records (kqlQuery type_info) with
  | None => (st, types_to_remove ++ [type_name])
  | Some records_response =>
      let records :=
        match resp_records records_response with
        | Some l => l | None => [] end in
      let total :=
        match resp_total records_response with
        | Some t => t | None => Z.of_nat (List.length records) end in
      if negb (is_nil records) then
        let short :=
          short_name_of_records (firstn 20 records) (shortName type_info) in
        (mk_extractor
           (set type_name (with_count_shortName type_info total short)
                (item_types st))
           (relation_types st)
           (set type_name records (all_records_by_type st)),
         types_to_remove)
      else (st, types_to_remove ++ [type_name])
  end.

Definition _fetch_records_by_type (st : extractor) : extractor :=
  let (st', types_to_remove) :=
    fold_left fetch_type (item_types st) (st, []) in
  mk_extractor
    (fold_left (fun d type_name => del type_name d) types_to_remove
               (item_types st'))
    (relation_types st')
    (all_records_by_type st').
End Fetch.

(** *** [_analyze_all_fields] *)

(** One entry of [field_data]. *)
Record field_acc : Type := mk_field_acc {
  fa_values : list value;
  fa_types : list string;
  fa_isCustom : bool;
  fa_label : string
}.

Definition field_acc_default : field_acc := mk_field_acc [] [] true "".

Definition mem (x : string) (l : list string) : bool :=
  existsb (String.eqb x) l.

(** [s.add(x)] on a set of strings. *)
Definition set_add (x : string) (l : list string) : list string :=
  if mem x l then l else l ++ [x].

Definition upd : string -> (field_acc -> field_acc) -> od field_acc
                -> od field_acc :=
  update field_acc_default.

Definition standard_fields : list string :=
  [ "title"; "revision"; "isControlled"; "createdAt" ].

(** [value is not None and value != ""]. *)
Definition present (v : value) : bool :=
  negb (is_none v) && negb (eqb v (VStr "")).

Definition observe_standard (r : record) (field_data : od field_acc)
  : od field_acc :=
  fold_left
    (fun fd field_name =>
       let value := record_get r field_name in
       if present value then
         upd field_name
             (fun a => mk_field_acc (fa_values a ++ [value]) (fa_types a)
                                    false field_name) fd
       else fd)
    standard_fields field_data.

Definition observe_custom (r : record) (field_data : od field_acc)
  : od field_acc :=
  fold_left
    (fun fd field_obj =>
       match field_obj with
       | NonDict => fd
       | Dict f =>
           let label := label_or_empty f in
           let value := fo_value f in
           let field_type := type_or_string f in
           if negb (String.eqb label "") && present value then
             let normalized := _normalize_field_name label in
             upd normalized
                 (fun a => mk_field_acc (fa_values a ++ [value])
                                        (set_add field_type (fa_types a))
                                        true label) fd
           else fd
       end)
    (r_fields r) field_data.

(** The loop over the records that fills [field_data]. *)
Definition collect_field_data (records : list (item record))
  : od field_acc :=
  fold_left
    (fun fd record =>
       match record with
       | NonDict => fd
       | Dict r => observe_custom r (observe_standard r fd)
       end)
    records [].

(** The data type cascade. *)
Definition resolve_data_type (field_key : string) (data : field_acc)
  : string :=
  let types := fa_types data in
  if _is_rich_text_field field_key (fa_values data) then "richText"
  else if mem "number" types then "number"
  else if mem "date" types || mem "datetime" types then "datetime"
  else if mem "boolean" types then "boolean"
  else "string".

(** [len(values) / len(records) * 100 if records else 0]. *)
Definition fill_rate (n_values n_records : nat) : Q :=
  if n_records =? 0 then 0%Q
  else float_mul (int_truediv (Z.of_nat n_values) (Z.of_nat n_records))
                 (inject_Z 100).

Definition field_info_of (records : list (item record))
    (field_key : string) (data : field_acc) : FieldInfo :=
  let is_custom := fa_isCustom data in
  let label := fa_label data in
  let values := fa_values data in
  let data_type := resolve_data_type field_key data in
  let access := _compute_access_paths field_key is_custom data_type in
  let (unique_values, example_values) :=
    _compute_value_samples values data_type in
  let fill_rate := fill_rate (List.length values) (List.length records) in
  mk_FieldInfo field_key (_normalize_field_name field_key) label data_type
    is_custom access EmptyString unique_values example_values fill_rate.

(** The loop over [field_data.items()] that fills [type_info.fields]. *)
Definition build_fields (records : list (item record))
    (field_data : od field_acc) (fields0 : od FieldInfo) : od FieldInfo :=
  fold_left
    (fun fs (entry : string * field_acc) =>
       let (field_key, data) := entry in
       if is_nil (fa_values data) then fs
       else set field_key (field_info_of records field_key data) fs)
    field_data fields0.

(** The statuses of one record, appended to [statuses]. *)
Definition statuses_of_record (r : record) (statuses : list value)
  : list value :=
  fold_left
    (fun sts field_obj =>
       match field_obj with
       | NonDict => sts
       | Dict f =>
           if label_is f "Status" then
             let status := fo_value f in
             if truthy status && negb (in_list status sts)
             then sts ++ [status] else sts
           else sts
       end)
    (r_fields r) statuses.

(** The status loop calls [record.get] on every record, also on one that
    is not an object. *)
Fixpoint extract_statuses (records : list (item record))
    (statuses : list value) : res (list value) :=
  match records with
  | [] => Ok statuses
  | NonDict :: _ => Raise AttributeError
  | Dict r :: rs => extract_statuses rs (statuses_of_record r statuses)
  end.

(** *** [_build_sample_records] *)

Definition _truncate (text : string) (max_len : nat) : string :=
  if String.length text <=? max_len then text
  else (take (max_len - 3) text ++ "...")%string.

(** The loop over the field entries of one record, with [custom_count]
    and [sample] as its state. *)
Fixpoint sample_custom (fs : list (item field_obj)) (fields : od FieldInfo)
    (custom_count : nat) (sample : od string) : od string :=
  match fs with
  | [] => sample
  | field_obj :: fs' =>
      if 4 <=? custom_count then sample
      else
        match field_obj with
        | NonDict => sample_custom fs' fields custom_count sample
        | Dict f =>
            let label := label_or_empty f in
            let value := fo_value f in
            let normalized := _normalize_field_name label in
            let rich :=
              match get normalized fields with
              | Some info => String.eqb (dataType info) "richText"
              | None => false
              end in
            if rich then sample_custom fs' fields custom_count sample
            else if negb (String.eqb label "") && truthy value
                    && negb (eqb value (VStr ""))
            then sample_custom fs' fields (custom_count + 1)
                   (set normalized (_truncate (str value) 60) sample)
            else sample_custom fs' fields custom_count sample
        end
  end.

Definition sample_of_record (r : record) (fields : od FieldInfo)
  : od string :=
  let sample :=
    if truthy (r_title r) then [("title", _truncate (str (r_title r)) 80)]
    else [] in
  sample_custom (r_fields r) fields 0 sample.

Definition _build_sample_records (records : list (item record))
    (fields : od FieldInfo) : list (od string) :=
  fold_left
    (fun samples record =>
       match record with
       | NonDict => samples
       | Dict r =>
           let sample := sample_of_record r fields in
           if negb (is_nil sample) then samples ++ [sample] else samples
       end)
    (firstn MAX_SAMPLE_RECORDS records) [].

(** The body of the loop of [_analyze_all_fields] for one type. *)
Definition analyze_type (type_info : ItemTypeInfo)
    (records : list (item record)) : res ItemTypeInfo :=
  let field_data := collect_field_data records in
  let fields := build_fields records field_data (fields type_info) in
  sts <- extract_statuses records (statuses type_info) ;;
  sts <- sorted_values sts ;;
  Ok (mk_ItemTypeInfo (it_name type_info) (kqlQuery type_info)
        (shortName type_info) (it_count type_info) sts fields
        (_build_sample_records records fields)
        (outgoingRelations type_info) (incomingRelations type_info)).

Fixpoint analyze_types (l : od (list (item record)))
    (item_types : od ItemTypeInfo) : res (od ItemTypeInfo) :=
  match l with
  | [] => Ok item_types
  | (type_name, records) :: l' =>
      if is_nil records then analyze_types l' item_types
      else
        match get type_name item_types with
        | None => analyze_types l' item_types
        | Some type_info =>
            type_info' <- analyze_type type_info records ;;
            analyze_types l' (set type_name type_info' item_types)
        end
  end.

Definition _analyze_all_fields (st : extractor) : res extractor :=
  its <- analyze_types (all_records_by_type st) (item_types st) ;;
  Ok (mk_extractor its (relation_types st) (all_records_by_type st)).

(** *** [_analyze_relations] *)

(** One entry of [relation_data]. *)
Record relation_acc : Type := mk_relation_acc {
  ra_fromTypes : list string;
  ra_toTypes : list string;
  ra_count : Z
}.

Definition relation_acc_default : relation_acc := mk_relation_acc [] [] 0%Z.

(** [relation.get("type", "UNKNOWN")]. *)
Definition type_or_unknown (rel : relation_obj) : string :=
  match rel_type rel with Some t => t | None => "UNKNOWN" end.

Definition tally_relation (type_name : string)
    (relation_data : od relation_acc) (relation : item relation_obj)
  : od relation_acc :=
  match relation with
  | NonDict => relation_data
  | Dict rel =>
      update relation_acc_default (type_or_unknown rel)
        (fun a => mk_relation_acc (ra_fromTypes a ++ [type_name])
                                  (ra_toTypes a) (ra_count a + 1)%Z)
        relation_data
  end.

Definition tally_record (type_name : string)
    (relation_data : od relation_acc) (record : item record)
  : od relation_acc :=
  match record with
  | NonDict => relation_data
  | Dict r => fold_left (tally_relation type_name) (r_relations r)
                        relation_data
  end.

Definition tally_type (relation_data : od relation_acc)
    (entry : string * list (item record)) : od relation_acc :=
  fold_left (tally_record (fst entry)) (snd entry) relation_data.

Definition access_pattern_of (rel_type : string) : string :=
  ("relations | where('type', '" ++ rel_type ++ "')")%string.

Definition relation_info_of (entry : string * relation_acc)
  : RelationTypeInfo :=
  mk_RelationTypeInfo (fst entry) (ra_fromTypes (snd entry))
    (ra_toTypes (snd entry)) (ra_count (snd entry))
    (access_pattern_of (fst entry)).

Definition outgoing_of (type_name : string)
    (relation_types : od RelationTypeInfo) : list (od string) :=
  flat_map
    (fun entry : string * RelationTypeInfo =>
       if mem type_name (fromTypes (snd entry))
       then [ [ ("relation", fst entry);
                ("accessPattern", access_pattern_of (fst entry)) ] ]
       else [])
    relation_types.

Definition with_outgoing (t : ItemTypeInfo) (outgoing : list (od string))
  : ItemTypeInfo :=
  mk_ItemTypeInfo (it_name t) (kqlQuery t) (shortName t) (it_count t)
    (statuses t) (fields t) (sampleRecords t) outgoing
    (incomingRelations t).

Definition _analyze_relations (st : extractor) : extractor :=
  let relation_data := fold_left tally_type (all_records_by_type st) [] in
  let relation_types :=
    fold_left (fun d entry => set (fst entry) (relation_info_of entry) d)
              relation_data (relation_types st) in
  let item_types :=
    map (fun entry : string * ItemTypeInfo =>
           (fst entry,
            with_outgoing (snd entry)
                          (outgoing_of (fst entry) relation_types)))
        (item_types st) in
  mk_extractor item_types relation_types (all_records_by_type st).

(** *** [_build_output] *)

(** [list(set(l))]; the order in which a set is listed is not fixed by
    the language, the first occurrences are taken here. *)
Definition RelationTypeInfo_to_dict (r : RelationTypeInfo) : od json :=
  [ ("relationType", JStr (relationType r));
    ("fromTypes", json_of_strings (fromkeys (fromTypes r)));
    ("toTypes", json_of_strings (fromkeys (toTypes r)));
    ("count", JInt (rt_count r));
    ("accessPattern", JStr (accessPattern r)) ].

Definition sum_Z (l : list Z) : Z := fold_left Z.add l 0%Z.

(** The parts of the output document that are computed from the records:
    ["summary"], ["itemTypes"] and ["relationTypes"]. *)
Record output : Type := mk_output {
  totalItems : Z;
  itemTypeCount : nat;
  totalRelations : Z;
  itemTypes : od json;
  relationTypes : list (od json)
}.

Definition sorted_types (st : extractor) : od ItemTypeInfo :=
  sorted_by_key_desc (fun x : string * ItemTypeInfo => it_count (snd x))
                     (item_types st).

Definition sorted_relations (st : extractor) : list RelationTypeInfo :=
  sorted_by_key_desc rt_count (values (relation_types st)).

Definition _build_output (st : extractor) : output :=
  mk_output
    (sum_Z (map it_count (values (item_types st))))
    (List.length (item_types st))
    (sum_Z (map rt_count (values (relation_types st))))
    (fold_left
       (fun d (x : string * ItemTypeInfo) =>
          set (fst x) (JObj (ItemTypeInfo_to_dict (snd x))) d)
       (sorted_types st) [])
    (map RelationTypeInfo_to_dict (firstn 20 (sorted_relations st))).

(** *** [extract], from the discovered types on

    The ["project"], ["version"] and ["allVersions"] entries of the
    document are read off the project and the list of versions, not off
    the records, and are not part of [output]; building them raises on
    a version that is not an object and on a project description that
    is not a string. *)

Definition extract (query_records : string -> option response)
    (st : extractor) : res output :=
  let st := _fetch_records_by_type query_records st in
  st <- _analyze_all_fields st ;;
  Ok (_build_output (_analyze_relations st)).

(** The quotation mark. *)
Definition dquote : string := String (ascii_of_nat 34) EmptyString.

(** The extractor after [_discover_types_from_items], the discovered
    type names in the order in which the set lists them. *)
Definition discovered (type_names : list string) : extractor :=
  mk_extractor
    (fold_left
       (fun d type_name =>
          if String.eqb type_name "" || String.eqb type_name "Unknown"
          then d
          else
            let kql :=
              if contains " " type_name
              then ("type:" ++ dquote ++ type_name ++ dquote)%string
              else ("type:" ++ type_name)%string in
            set type_name (new_ItemTypeInfo type_name kql) d)
       type_names [])
    [] [].


(* ================================================================= *)
(** ** Versions *)

(** A version object; [None] for an absent key.  ["id"] is read with
    [v["id"]] when a version is selected and with [v.get("id")] when the
    current version is looked up. *)
Record version : Type := mk_version {
  ver_id : option value;
  ver_name : value;
  ver_isReleased : value
}.

(** The exceptions of the version selection. *)
Inductive version_exn : Type := VAttributeError | VKeyError.

Inductive vres (A : Type) : Type :=
| VOk (a : A)
| VRaise (e : version_exn).
Arguments VOk {A} a.
Arguments VRaise {A} e.

(** The loop of [[v for v in versions if v.get("isReleased")]] calls
    [get] on every element. *)
Fixpoint version_objects (versions : list (item version))
  : vres (list version) :=
  match versions with
  | [] => VOk []
  | NonDict :: _ => VRaise VAttributeError
  | Dict v :: vs =>
      match version_objects vs with
      | VOk l => VOk (v :: l)
      | VRaise e => VRaise e
      end
  end.

Definition is_released (v : version) : bool := truthy (ver_isReleased v).

(** [v["id"]]. *)
Definition id_of (v : version) : vres value :=
  match ver_id v with
  | Some i => VOk i
  | None => VRaise VKeyError
  end.

(** The version id after the auto-selection of [extract]:
    [self.version_id] is the id given on the command line, or [None]. *)
Definition select_version (version_id : value)
    (versions : list (item version)) : vres value :=
  if negb (truthy version_id) && negb (is_nil versions) then
    match version_objects versions with
    | VRaise e => VRaise e
    | VOk [] => VOk version_id
    | VOk (v :: vs) =>
        match filter is_released (v :: vs) with
        | r :: rs => id_of (last rs r)
        | [] => id_of (last vs v)
        end
    end
  else VOk version_id.

(** [v.get("id")]. *)
Definition get_id (v : version) : value :=
  match ver_id v with Some i => i | None => VNone end.

(** [next((v for v in versions if v.get("id") == version_id), None)]. *)
Fixpoint current_version (version_id : value)
    (versions : list (item version)) : vres (option version) :=
  match versions with
  | [] => VOk None
  | NonDict :: _ => VRaise VAttributeError
  | Dict v :: vs =>
      if eqb (get_id v) version_id then VOk (Some v)
      else current_version version_id vs
  end.

(* ================================================================= *)
(** ** [_discover_types_from_items]: the sampling *)

(** An item; only its ["id"] is read. *)
Record item_obj : Type := mk_item_obj {
  io_id : value
}.

(** A record of an item; only its ["type"] is read. *)
Record item_record : Type := mk_item_record {
  ir_type : option string
}.

(** [record.get("type", "")]. *)
Definition type_or_empty (r : item_record) : string :=
  match ir_type r with Some t => t | None => "" end.

Section Discover.
(** [client.get_item_records(project_id, item_id)] as a function of the
    item id: the ["records"] of the answer, [None] for a failed call or
    an empty answer. *)
Variable get_item_records : value -> option (list (item item_record)).

(** The loop over the records of one item. *)
Definition types_of_records (records : list (item item_record))
    (discovered_types : list string) : list string :=
  fold_left
    (fun s record =>
       match record with
       | NonDict => s
       | Dict r =>
           let type_name := type_or_empty r in
           if negb (String.eqb type_name "") then set_add type_name s
           else s
       end)
    records discovered_types.

(** One round of the loop over [items[:50]]. *)
Definition sample_item (discovered_types : list string)
    (it : item item_obj) : list string :=
  match it with
  | NonDict => discovered_types
  | Dict i =>
      let item_id := io_id i in
      if negb (truthy item_id) then discovered_types
      else
        match get_item_records item_id with
        | None => discovered_types
        | Some records => types_of_records records discovered_types
        end
  end.

(** The set [discovered_types] when the sampling loop is left, its
    elements in the order in which they were added. *)
Definition discovered_types (items : list (item item_obj)) : list string :=
  fold_left sample_item (firstn 50 items) [].
End Discover.

(* ================================================================= *)
(** ** Reference definitions

    What the specification says in its own words, to compare the
    extractor with. *)

(** Deduplication that keeps the place of the first occurrence. *)
Fixpoint dedup_first_seen (l : list string) : list string :=
  match l with
  | [] => []
  | x :: l' =>
      x :: filter (fun y => negb (String.eqb y x)) (dedup_first_seen l')
  end.

(** [a] stands before [b] in [l]. *)
Definition before {A : Type} (a b : A) (l : list A) : Prop :=
  exists l1 l2 l3, l = l1 ++ a :: l2 ++ b :: l3.

(** In the scan [l], [a] is met when [b] has not been met yet. *)
Definition first_seen_before (a b : string) (l : list string) : Prop :=
  a <> b /\ exists l1 l2, l = l1 ++ a :: l2 /\ ~ In b l1.

Definition str_le (s t : string) : Prop := String.leb s t = true.

(** The string that stands for an observed value in a value domain:
    a string cut to 100 characters, anything else stringified. *)
Definition canonical (v : value) : string :=
  match v with
  | VStr s => take 100 s
  | _ => str v
  end.

(** A string under 500 characters with none of the HTML markers. *)
Definition plain_short (v : value) : bool :=
  match v with
  | VStr s =>
      (String.length s <? 500)
      && forallb (fun tag => negb (contains tag s)) html_indicators
  | _ => false
  end.

(** The observations of the field with key [k]: what one record
    contributes, first from its root attributes, then from its field
    entries in their order; and what the records of a type contribute, in
    the order of the records. *)
Definition standard_obs (k : string) (r : record) : list value :=
  flat_map
    (fun field_name =>
       if String.eqb field_name k && present (record_get r field_name)
       then [record_get r field_name] else [])
    standard_fields.

(** A field entry that is observed under key [k]. *)
Definition observed_under (k : string) (f : field_obj) : bool :=
  negb (String.eqb (label_or_empty f) EmptyString)
  && present (fo_value f)
  && String.eqb (_normalize_field_name (label_or_empty f)) k.

Definition custom_obs (k : string) (r : record) : list value :=
  flat_map
    (fun field_obj =>
       match field_obj with
       | Dict f => if observed_under k f then [fo_value f] else []
       | NonDict => []
       end)
    (r_fields r).

Definition record_obs (k : string) (record : item record) : list value :=
  match record with
  | Dict r => standard_obs k r ++ custom_obs k r
  | NonDict => []
  end.

Definition observations (k : string) (records : list (item record))
  : list value :=
  flat_map (record_obs k) records.

(** The declared type hints seen for key [k]. *)
Definition record_hints (k : string) (record : item record) : list string :=
  match record with
  | Dict r =>
      flat_map
        (fun field_obj =>
           match field_obj with
           | Dict f => if observed_under k f then [type_or_string f] else []
           | NonDict => []
           end)
        (r_fields r)
  | NonDict => []
  end.

Definition hints (k : string) (records : list (item record)) : list string :=
  flat_map (record_hints k) records.

(** The values and the type hints that [field_data] holds for key [k]. *)
Definition vals_of (k : string) (fd : od field_acc) : list value :=
  match get k fd with Some a => fa_values a | None => [] end.

Definition types_of (k : string) (fd : od field_acc) : list string :=
  match get k fd with Some a => fa_types a | None => [] end.

(** Every entry of [field_data] holds at least one value. *)
Definition all_observed (fd : od field_acc) : Prop :=
  forall k a, get k fd = Some a -> fa_values a <> [].

(** The loop that fills [field_data], from any [field_data] on. *)
Definition collect_from (records : list (item record)) (fd : od field_acc)
  : od field_acc :=
  fold_left
    (fun fd record =>
       match record with
       | NonDict => fd
       | Dict r => observe_custom r (observe_standard r fd)
       end)
    records fd.

(** The field with key [k] is present on the record. *)
Definition present_on (k : string) (record : item record) : bool :=
  negb (is_nil (record_obs k record)).

(** The fields that [_analyze_all_fields] infers for a type entry that
    has no fields yet. *)
Definition inferred_fields (records : list (item record)) : od FieldInfo :=
  build_fields records (collect_field_data records) [].

(** Two records with one field entry each, labeled "Remark": one value
    carries markup, the other does not. *)
Definition remark_record (text : string) : item record :=
  Dict (mk_record VNone VNone VNone VNone
          [Dict (mk_field_obj (Some "Remark") (VStr text) (Some "string"))]
          []).

Definition markup_first : list (item record) :=
  remark_record "<p>see log</p>" :: repeat (remark_record "ok") 10.

Definition markup_last : list (item record) :=
  repeat (remark_record "ok") 10 ++ [remark_record "<p>see log</p>"].

(** The data type inferred for key [k]. *)
Definition data_type_of (records : list (item record)) (k : string)
  : option string :=
  option_map dataType (get k (inferred_fields records)).

(** The priority list over the declared type hints, once rich text is
    excluded: number if any hint equals "number", datetime if any hint
    equals "date" or "datetime", boolean if any hint equals "boolean",
    string by default. *)
Definition any_hint (h : string) (hs : list string) : bool :=
  existsb (String.eqb h) hs.

Definition hinted_type (hs : list string) : string :=
  if any_hint "number" hs then "number"
  else if any_hint "date" hs || any_hint "datetime" hs then "datetime"
  else if any_hint "boolean" hs then "boolean"
  else "string".

(** *** Short prefix *)

(** The part of [s] before its first separator, when it has one. *)
Fixpoint prefix_before_separator (s : string) : option string :=
  match s with
  | EmptyString => None
  | String c s' =>
      if Ascii.eqb c "-" then Some EmptyString
      else option_map (String c) (prefix_before_separator s')
  end.

(** Alphabetic and between 1 and 6 characters long. *)
Definition accepted_prefix (p : string) : bool :=
  isalpha p && (1 <=? String.length p) && (String.length p <=? 6).

(** The values of the field entries labeled "ID", of one record and of
    the first 20 records, in the order of the scan. *)
Definition ids_of_fields (fs : list (item field_obj)) : list value :=
  flat_map
    (fun field_obj =>
       match field_obj with
       | Dict f => if label_is f "ID" then [fo_value f] else []
       | NonDict => []
       end)
    fs.

Definition id_values (records : list (item record)) : list value :=
  flat_map
    (fun record =>
       match record with
       | Dict r => ids_of_fields (r_fields r)
       | NonDict => []
       end)
    (firstn 20 records).

(** The first accepted prefix among the values, the empty string when
    there is none. *)
Fixpoint first_accepted (vs : list value) : string :=
  match vs with
  | [] => EmptyString
  | v :: vs' =>
      match prefix_before_separator (str v) with
      | Some p => if accepted_prefix p then p else first_accepted vs'
      | None => first_accepted vs'
      end
  end.

(** *** Full fetch *)

Section FetchSpec.
Variable query_records : string -> option response.

(** The records that the full fetch returns for a type; none for a
    failed call. *)
Definition fetched_records (t : ItemTypeInfo) : list (item record) :=
  match query_records (kqlQuery t) with
  | Some resp =>
      match resp_records resp with Some l => l | None => [] end
  | None => []
  end.

(** The total that the source reports, the number of records when it
    reports none. *)
Definition fetched_total (t : ItemTypeInfo) : Z :=
  match query_records (kqlQuery t) with
  | Some resp =>
      match resp_total resp with
      | Some n => n
      | None => Z.of_nat (List.length (fetched_records t))
      end
  | None => 0%Z
  end.

(** A type entry after its fetch. *)
Definition fetched_type (t : ItemTypeInfo) : ItemTypeInfo :=
  with_count_shortName t (fetched_total t)
    (short_name_of_records (firstn 20 (fetched_records t)) (shortName t)).

(** The types that stay, and their records. *)
Definition kept_types (l : od ItemTypeInfo) : od ItemTypeInfo :=
  flat_map
    (fun e : string * ItemTypeInfo =>
       if is_nil (fetched_records (snd e)) then []
       else [(fst e, fetched_type (snd e))])
    l.

(** The names that the loop puts on [types_to_remove], and the type
    map when the loop is left. *)
Definition dropped_names (l : od ItemTypeInfo) : list string :=
  flat_map
    (fun e : string * ItemTypeInfo =>
       if is_nil (fetched_records (snd e)) then [fst e] else [])
    l.

Definition refreshed (l : od ItemTypeInfo) : od ItemTypeInfo :=
  map (fun e : string * ItemTypeInfo =>
         if is_nil (fetched_records (snd e)) then e
         else (fst e, fetched_type (snd e)))
      l.

Definition kept_records (l : od ItemTypeInfo) : od (list (item record)) :=
  flat_map
    (fun e : string * ItemTypeInfo =>
       if is_nil (fetched_records (snd e)) then []
       else [(fst e, fetched_records (snd e))])
    l.
End FetchSpec.

(** The extractor without the type [name]. *)
Definition without_type (name : string) (st : extractor) : extractor :=
  mk_extractor (del name (item_types st)) (relation_types st)
               (all_records_by_type st).

(** *** A sample project *)

Definition entry (label : string) (v : value) (hint : string)
  : item field_obj :=
  Dict (mk_field_obj (Some label) v (Some hint)).

Definition relation (name : string) : item relation_obj :=
  Dict (mk_relation_obj (Some name)).

Definition requirement (title id status : string) (rels : list string)
  : item record :=
  Dict (mk_record (VStr title) VNone VNone VNone
          [ entry "ID" (VStr id) "string";
            entry "Status" (VStr status) "string" ]
          (map relation rels)).

(** Three requirements; the fetch of "Test Case" returns an empty list
    and the one of "Anomaly" fails. *)
Definition sample_query (kql : string) : option response :=
  if String.eqb kql "type:Requirement" then
    Some (mk_response
            (Some [ requirement "Login" "REQ-1" "Open" ["tests"; "refines"];
                    requirement "Logout" "REQ-2" "Open" ["refines"];
                    requirement "Audit" "REQ-3" "Closed" ["tests"] ])
            (Some 3%Z))
  else if String.eqb kql ("type:" ++ dquote ++ "Test Case" ++ dquote) then
    Some (mk_response (Some []) None)
  else None.

Definition sample_project : extractor :=
  discovered ["Requirement"; "Test Case"; "Anomaly"].

(** *** Relation catalog *)

(** The relation names in the order in which [_analyze_relations] meets
    them: type by type, record by record, entry by entry. *)
Definition entry_names (rel : item relation_obj) : list string :=
  match rel with
  | Dict o => [type_or_unknown o]
  | NonDict => []
  end.

Definition relation_names (r : record) : list string :=
  flat_map entry_names (r_relations r).

Definition record_relation_names (record : item record) : list string :=
  match record with
  | Dict r => relation_names r
  | NonDict => []
  end.

Definition relation_scan (recs : od (list (item record))) : list string :=
  flat_map (fun e => flat_map record_relation_names (snd e)) recs.

(** The number of times [x] occurs in [l]. *)
Definition occurrences (x : string) (l : list string) : Z :=
  Z.of_nat (count_occ string_dec l x).

(** The extractor before [_analyze_relations]: no relation type yet. *)
Definition analyzed (its : od ItemTypeInfo) (recs : od (list (item record)))
  : extractor :=
  mk_extractor its [] recs.

(** [dict.fromkeys] as a loop over the keys met so far. *)
Definition add_key (acc : list string) (k : string) : list string :=
  if mem k acc then acc else acc ++ [k].

Definition count_of (k : string) (d : od relation_acc) : Z :=
  match get k d with Some a => ra_count a | None => 0%Z end.

(** *** Fill rate *)

(** Two records of a type: the first carries the field "Tag" three
    times, the second not at all. *)
Definition tagged_thrice : list (item record) :=
  [ Dict (mk_record (VStr "first") VNone VNone VNone
            [ entry "Tag" (VStr "a") "string";
              entry "Tag" (VStr "b") "string";
              entry "Tag" (VStr "c") "string" ]
            []);
    Dict (mk_record (VStr "second") VNone VNone VNone [] []) ].

(** The float [n / m * 100]. *)
Definition percent (n m : Z) : Q :=
  float_mul (int_truediv n m) (inject_Z 100).

(** The largest float below 1. *)
Definition below_one : Q := (inject_Z (2 ^ 53 - 1) * 2 ^ (-53))%Q.

(** The rational number [n / m * 100], and two numbers that are within
    [eps] of each other. *)
Definition exact_rate (n m : Z) : Q :=
  (inject_Z n / inject_Z m * inject_Z 100)%Q.

Definition within (eps x y : Q) : Prop :=
  (x - y <= eps /\ y - x <= eps)%Q.

(** [p] is an integer nearest to [x]. *)
Definition nearest_integer (p : Z) (x : Q) : Prop :=
  (inject_Z p - (1 # 2) <= x /\ x <= inject_Z p + (1 # 2))%Q.

(** *** Statuses *)

(** The values of the field entries labeled "Status" of a record. *)
Definition status_values (r : record) : list value :=
  flat_map
    (fun field_obj =>
       match field_obj with
       | Dict f => if label_is f "Status" then [fo_value f] else []
       | NonDict => []
       end)
    (r_fields r).

(** *** Sample records *)

(** One record with a numeric field whose value is 0. *)
Definition pump_record (retries : Z) : item record :=
  Dict (mk_record (VStr "Pump") VNone VNone VNone
          [ entry "Retries" (VInt retries) "number" ] []).

(* ================================================================= *)
(** ** Further reference definitions *)

(** The entry of [field_data] for key [k] agrees with its key: the label
    normalizes to the key, and an entry that is not custom belongs to a
    root attribute. *)
Definition label_agrees (k : string) (a : field_acc) : Prop :=
  _normalize_field_name (fa_label a) = k
  /\ (fa_isCustom a = false -> In k standard_fields /\ fa_label a = k).

Definition labels_agree (fd : od field_acc) : Prop :=
  forall k a, get k fd = Some a -> label_agrees k a.

(** The five data types. *)
Definition data_types : list string :=
  [ "richText"; "number"; "datetime"; "boolean"; "string" ].

(** *** Records that the status loop accepts *)

(** [isinstance(x, dict)]. *)
Definition is_dict {A : Type} (x : item A) : bool :=
  match x with Dict _ => true | NonDict => false end.

(** A status value that is skipped (not true) or a string. *)
Definition status_ok (v : value) : bool := negb (truthy v) || is_str v.

(** All records are objects and all their statuses are strings or
    skipped. *)
Definition well_formed (records : list (item record)) : bool :=
  forallb
    (fun record =>
       match record with
       | Dict r => forallb status_ok (status_values r)
       | NonDict => false
       end)
    records.

(** The values of the field entries labeled "Status" of all records, in
    the order of the scan. *)
Definition all_status_values (records : list (item record)) : list value :=
  flat_map
    (fun record =>
       match record with
       | Dict r => status_values r
       | NonDict => []
       end)
    records.

(** One round of the status loop. *)
Definition add_status (sts : list value) (status : value) : list value :=
  if truthy status && negb (in_list status sts) then sts ++ [status]
  else sts.

(** The strings among the values that are not empty. *)
Definition status_strings (vs : list value) : list string :=
  flat_map
    (fun v =>
       match v with
       | VStr s => if String.eqb s EmptyString then [] else [s]
       | _ => []
       end)
    vs.

(** *** Discovered types *)

(** The query of a type: the name is quoted when it contains a space. *)
Definition kql_of (type_name : string) : string :=
  if contains " " type_name
  then ("type:" ++ dquote ++ type_name ++ dquote)%string
  else ("type:" ++ type_name)%string.

(** *** Counts *)

(** The count of every type, by name. *)
Definition type_counts (its : od ItemTypeInfo) : list (string * Z) :=
  map (fun e : string * ItemTypeInfo => (fst e, it_count (snd e))) its.

(** The types whose full fetch returns at least one record. *)
Definition with_records (q : string -> option response)
    (its : od ItemTypeInfo) : od ItemTypeInfo :=
  filter (fun e : string * ItemTypeInfo =>
            negb (is_nil (fetched_records q (snd e))))
         its.

(** Descending by count. *)
Definition count_ge (a b : string * ItemTypeInfo) : Prop :=
  (it_count (snd b) <= it_count (snd a))%Z.

(** *** Origins of a relation *)

(** The type name [tn], once for each of [names] that is [k]. *)
Definition srcs (k tn : string) (names : list string) : list string :=
  flat_map (fun name => if String.eqb name k then [tn] else []) names.

(** The names of the types on whose records a relation entry named [k]
    is met, once per entry, in the order of the scan. *)
Definition sources_of (k : string) (recs : od (list (item record)))
  : list string :=
  flat_map
    (fun e : string * list (item record) =>
       srcs k (fst e) (flat_map record_relation_names (snd e)))
    recs.

Definition from_of (k : string) (d : od relation_acc) : list string :=
  match get k d with Some a => ra_fromTypes a | None => [] end.

Definition to_of (k : string) (d : od relation_acc) : list string :=
  match get k d with Some a => ra_toTypes a | None => [] end.

(** The entry of a type in ["outgoingRelations"]. *)
Definition outgoing_entry (k : string) : od string :=
  [ ("relation", k); ("accessPattern", access_pattern_of k) ].

(** The relation names met on the records of type [n], each once, in
    the order of the catalog. *)
Definition relations_of (n : string) (recs : od (list (item record)))
  : list string :=
  filter (fun k => mem n (sources_of k recs))
         (dedup_first_seen (relation_scan recs)).

(** *** Sample records *)

(** The field [k] is known as rich text. *)
Definition rich_in (fields : od FieldInfo) (k : string) : bool :=
  match get k fields with
  | Some info => String.eqb (dataType info) "richText"
  | None => false
  end.

(** What holds of every sample: distinct keys, values of at most 80
    characters, and under a key other than "title" a value of at most
    60 characters of a field that is not rich text. *)
Definition sample_ok (fields : od FieldInfo) (sample : od string) : Prop :=
  NoDup (keys sample)
  /\ forall k v, In (k, v) sample ->
       String.length v <= 80
       /\ (k <> "title" ->
           String.length v <= 60
           /\ contains " " k = false
           /\ rich_in fields k = false).

(** *** Discovery *)

(** A type name that gets an entry. *)
Definition named (n : string) : bool :=
  negb (String.eqb n "" || String.eqb n "Unknown").

(** The record type [n] is met while sampling: on a record of one of the
    first 50 items, the item with an id and an answer. *)
Definition met (get_item_records : value -> option (list (item item_record)))
    (items : list (item item_obj)) (n : string) : Prop :=
  exists i records r,
    In (Dict i) (firstn 50 items)
    /\ truthy (io_id i) = true
    /\ get_item_records (io_id i) = Some records
    /\ In (Dict r) records
    /\ ir_type r = Some n.

(** *** Numbers as statuses *)

(** The number that a value counts as; 0 for what is not a number. *)
Definition num (v : value) : Z :=
  match as_int v with Some n => n | None => 0%Z end.

Definition is_num (v : value) : bool :=
  match as_int v with Some _ => true | None => false end.

Definition num_le (a b : value) : bool := (num a <=? num b)%Z.

(* ================================================================= *)
(** * Facts about the primitives *)

(** ** Ordered dictionaries *)

Section OdFacts.
Context {V : Type}.
Implicit Types (d : od V) (k : string) (v : V).

Lemma mem_In k l : mem k l = true <-> In k l.
Proof.
  unfold mem. rewrite existsb_exists. split.
  - intros (x & Hx & E). apply String.eqb_eq in E. now subst.
  - intros H. exists k. split; [assumption | apply String.eqb_refl].
Qed.

Lemma mem_false k l : mem k l = false <-> ~ In k l.
Proof.
  rewrite <- mem_In. destruct (mem k l); split; intros; congruence.
Qed.

Lemma get_set_same k v d : get k (set k v d) = Some v.
Proof.
  induction d as [|[k' v'] d IH]; simpl.
  - now rewrite String.eqb_refl.
  - destruct (String.eqb k' k) eqn:E; simpl; rewrite E; auto.
Qed.

Lemma get_set_other k k' v d :
  k <> k' -> get k' (set k v d) = get k' d.
Proof.
  intros N. induction d as [|[k0 v0] d IH]; simpl.
  - apply String.eqb_neq in N. now rewrite N.
  - destruct (String.eqb k0 k) eqn:E; simpl.
    + apply String.eqb_eq in E. subst k0.
      apply String.eqb_neq in N. now rewrite N.
    + now rewrite IH.
Qed.

Lemma get_None_keys k d : get k d = None <-> ~ In k (keys d).
Proof.
  induction d as [|[k0 v0] d IH]; simpl.
  - tauto.
  - destruct (String.eqb_spec k0 k).
    + split; [discriminate | intros H; exfalso; apply H; now left].
    + rewrite IH. tauto.
Qed.

Lemma get_Some_keys k v d : get k d = Some v -> In k (keys d).
Proof.
  intros H. destruct (in_dec string_dec k (keys d)) as [|N]; auto.
  apply get_None_keys in N. congruence.
Qed.

Lemma get_Some_keys_inv k d : In k (keys d) -> exists v, get k d = Some v.
Proof.
  intros H. destruct (get k d) as [v|] eqn:E; [eauto|].
  now apply get_None_keys in E.
Qed.

Lemma keys_set k v d :
  keys (set k v d) = if mem k (keys d) then keys d else keys d ++ [k].
Proof.
  induction d as [|[k0 v0] d IH]; simpl; [reflexivity|].
  rewrite (String.eqb_sym k k0).
  destruct (String.eqb k0 k) eqn:E; simpl; [reflexivity|].
  rewrite IH. now destruct (mem k (keys d)).
Qed.

Lemma keys_update dflt k f d :
  keys (update dflt k f d)
  = if mem k (keys d) then keys d else keys d ++ [k].
Proof. unfold update. destruct (get k d); apply keys_set. Qed.

Lemma get_update_same dflt k f d :
  get k (update dflt k f d)
  = Some (f (match get k d with Some v => v | None => dflt end)).
Proof. unfold update. destruct (get k d); apply get_set_same. Qed.

Lemma get_update_other dflt k k' f d :
  k <> k' -> get k' (update dflt k f d) = get k' d.
Proof.
  intros N. unfold update. destruct (get k d); now apply get_set_other.
Qed.

Lemma nodupb_NoDup l : nodupb l = true <-> NoDup l.
Proof.
  induction l as [|k l IH]; simpl.
  - split; [constructor | reflexivity].
  - rewrite andb_true_iff, negb_true_iff, IH.
    change (existsb (String.eqb k) l) with (mem k l).
    rewrite mem_false. split.
    + intros [? ?]. now constructor.
    + intros H. inversion H. tauto.
Qed.

Lemma wf_NoDup d : wf d = true <-> NoDup (keys d).
Proof. apply nodupb_NoDup. Qed.

End OdFacts.

(** ** [dict.fromkeys] *)

Lemma filter_filter_comm {A} (p q : A -> bool) l :
  filter p (filter q l) = filter q (filter p l).
Proof.
  induction l as [|x l IH]; simpl; [reflexivity|].
  destruct (p x) eqn:P, (q x) eqn:Q; simpl; rewrite ?P, ?Q, IH; reflexivity.
Qed.

Lemma filter_absorb {A} (p q : A -> bool) l :
  (forall x, p x = true -> q x = true) ->
  filter p (filter q l) = filter p l.
Proof.
  intros H. induction l as [|x l IH]; simpl; [reflexivity|].
  destruct (q x) eqn:Q; simpl.
  - now rewrite IH.
  - destruct (p x) eqn:P; [|assumption].
    apply H in P. congruence.
Qed.

Lemma dedup_filter (p : string -> bool) l :
  dedup_first_seen (filter p l) = filter p (dedup_first_seen l).
Proof.
  induction l as [|x l IH]; simpl; [reflexivity|].
  destruct (p x) eqn:P; simpl.
  - rewrite IH. f_equal. apply filter_filter_comm.
  - rewrite IH. symmetry. apply filter_absorb.
    intros y Py. apply negb_true_iff, String.eqb_neq. congruence.
Qed.

Lemma dedup_In x l : In x (dedup_first_seen l) <-> In x l.
Proof.
  induction l as [|y l IH]; simpl; [tauto|].
  rewrite filter_In, IH, negb_true_iff, String.eqb_neq.
  destruct (string_dec y x); [tauto|].
  split; [tauto|]. intros [|]; [tauto|]. right. split; congruence.
Qed.

Lemma dedup_NoDup l : NoDup (dedup_first_seen l).
Proof.
  induction l as [|y l IH]; simpl; constructor.
  - rewrite filter_In, negb_true_iff, String.eqb_neq. tauto.
  - now apply NoDup_filter.
Qed.

Lemma filter_notin_snoc (acc : list string) x l :
  filter (fun y => negb (mem y (acc ++ [x]))) l
  = filter (fun y => negb (String.eqb y x))
           (filter (fun y => negb (mem y acc)) l).
Proof.
  induction l as [|y l IH]; simpl; [reflexivity|].
  unfold mem at 1. rewrite existsb_app. simpl.
  fold (mem y acc). rewrite orb_false_r, negb_orb.
  destruct (mem y acc); simpl; [assumption|].
  now destruct (String.eqb y x); simpl; rewrite IH.
Qed.

Lemma fold_add_key l acc :
  fold_left add_key l acc
  = acc ++ dedup_first_seen (filter (fun x => negb (mem x acc)) l).
Proof.
  revert acc. induction l as [|x l IH]; intros acc; simpl.
  - now rewrite app_nil_r.
  - rewrite IH. unfold add_key. destruct (mem x acc) eqn:M; simpl.
    + reflexivity.
    + rewrite <- app_assoc. simpl. do 2 f_equal.
      rewrite <- dedup_filter. apply f_equal, filter_notin_snoc.
Qed.

(** The keys that a run of insertions leaves. *)
Lemma keys_fold_set_add {V} (f : string -> V) l (d : od V) :
  keys (fold_left (fun d k => set k (f k) d) l d)
  = fold_left add_key l (keys d).
Proof.
  revert d. induction l as [|x l IH]; intros d; simpl; [reflexivity|].
  now rewrite IH, keys_set.
Qed.

Lemma keys_fold_set {V} (f : string -> V) l (d : od V) :
  keys (fold_left (fun d k => set k (f k) d) l d)
  = keys d
    ++ dedup_first_seen (filter (fun x => negb (mem x (keys d))) l).
Proof. now rewrite keys_fold_set_add, fold_add_key. Qed.

Lemma filter_true {A} (l : list A) : filter (fun _ => true) l = l.
Proof. induction l; simpl; congruence. Qed.

Lemma fromkeys_dedup l : fromkeys l = dedup_first_seen l.
Proof.
  unfold fromkeys.
  rewrite (keys_fold_set (fun _ => tt)). simpl. now rewrite filter_true.
Qed.

(** ** Slices *)

Lemma In_firstn {A} (x : A) n l : In x (firstn n l) -> In x l.
Proof.
  intros H. rewrite <- (firstn_skipn n l). apply in_or_app. now left.
Qed.

(** ** [sorted] *)

Lemma before_cons {A} (a b c : A) l : before a b l -> before a b (c :: l).
Proof.
  intros (l1 & l2 & l3 & ->). now exists (c :: l1), l2, l3.
Qed.

Lemma before_head {A} (a b : A) l : In b l -> before a b (a :: l).
Proof.
  intros H. apply in_split in H as (l2 & l3 & ->). now exists [], l2, l3.
Qed.

Lemma before_inv {A} (a b c : A) l :
  before a b (c :: l) -> (c = a /\ In b l) \/ before a b l.
Proof.
  intros (l1 & l2 & l3 & E). destruct l1 as [|x l1]; simpl in E.
  - injection E as -> ->. left. split; [reflexivity|].
    apply in_or_app. right. now left.
  - injection E as -> ->. right. now exists l1, l2, l3.
Qed.

Lemma before_nth {A} (a b : A) l i j :
  NoDup l -> before a b l ->
  nth_error l i = Some a -> nth_error l j = Some b -> i < j.
Proof.
  intros ND (l1 & l2 & l3 & ->) Hi Hj.
  assert (Ha : nth_error (l1 ++ a :: l2 ++ b :: l3) (List.length l1)
               = Some a).
  { rewrite nth_error_app2, Nat.sub_diag by lia. reflexivity. }
  assert (Hb : nth_error (l1 ++ a :: l2 ++ b :: l3)
                 (List.length l1 + S (List.length l2)) = Some b).
  { rewrite nth_error_app2 by lia.
    replace (List.length l1 + S (List.length l2) - List.length l1)
      with (S (List.length l2)) by lia.
    simpl. rewrite nth_error_app2, Nat.sub_diag by lia. reflexivity. }
  rewrite NoDup_nth_error in ND.
  assert (i = List.length l1).
  { apply ND; [|congruence]. apply nth_error_Some. congruence. }
  assert (j = List.length l1 + S (List.length l2)).
  { apply ND; [|congruence]. apply nth_error_Some. congruence. }
  lia.
Qed.

Section SortedFacts.
Context {A : Type} (le : A -> A -> bool).

Lemma insert_perm x l : Permutation (insert le x l) (x :: l).
Proof.
  induction l as [|y l IH]; simpl; [reflexivity|].
  destruct (le x y); [reflexivity|].
  rewrite IH. apply perm_swap.
Qed.

Lemma sorted_perm l : Permutation (sorted le l) l.
Proof.
  induction l as [|x l IH]; simpl; [reflexivity|].
  now rewrite insert_perm, IH.
Qed.

Lemma sorted_length l : List.length (sorted le l) = List.length l.
Proof. apply Permutation_length, sorted_perm. Qed.

Lemma before_insert_keep a b x l :
  before a b l -> before a b (insert le x l).
Proof.
  induction l as [|y l IH]; simpl; intros H.
  - destruct H as (l1 & l2 & l3 & E). now destruct l1.
  - destruct (le x y); [now apply before_cons|].
    apply before_inv in H as [[-> Hb]|H].
    + apply before_head.
      apply (Permutation_in _ (Permutation_sym (insert_perm x l))).
      now right.
    + apply before_cons. auto.
Qed.

Lemma before_insert_new x b l :
  In b l -> le x b = true -> before x b (insert le x l).
Proof.
  induction l as [|y l IH]; simpl; intros Hb Hle; [contradiction|].
  destruct (le x y) eqn:E; [now apply before_head|].
  destruct Hb as [->|Hb]; [congruence|].
  apply before_cons. auto.
Qed.

(** Stability: an element stays before the elements that it does not
    exceed and that came after it. *)
Lemma sorted_stable a b l :
  before a b l -> le a b = true -> before a b (sorted le l).
Proof.
  induction l as [|c l IH]; simpl; intros H Hle.
  - destruct H as (l1 & l2 & l3 & E). now destruct l1.
  - apply before_inv in H as [[-> Hb]|H].
    + apply before_insert_new; [|assumption].
      now apply (Permutation_in _ (Permutation_sym (sorted_perm l))).
    + apply before_insert_keep. auto.
Qed.

Hypothesis le_total : forall a b, le a b = true \/ le b a = true.
Hypothesis le_trans :
  forall a b c, le a b = true -> le b c = true -> le a c = true.

Lemma insert_sorted x l :
  StronglySorted (fun a b => le a b = true) l ->
  StronglySorted (fun a b => le a b = true) (insert le x l).
Proof.
  induction l as [|y l IH]; simpl; intros H.
  - repeat constructor.
  - inversion H as [|? ? Hs Hf]; subst.
    destruct (le x y) eqn:E.
    + constructor; [assumption|]. constructor; [assumption|].
      eapply Forall_impl; [|exact Hf]. intros z Hz. now apply (le_trans x y z).
    + constructor; [auto|].
      apply (Permutation_Forall (Permutation_sym (insert_perm x l))).
      constructor; [|assumption].
      destruct (le_total x y); [congruence | assumption].
Qed.

Lemma sorted_sorted l :
  StronglySorted (fun a b => le a b = true) (sorted le l).
Proof.
  induction l as [|x l IH]; simpl; [constructor | now apply insert_sorted].
Qed.
End SortedFacts.

(** The order of strings. *)

Lemma string_compare_trans a b c :
  String.compare a b <> Gt -> String.compare b c <> Gt ->
  String.compare a c <> Gt.
Proof.
  revert b c. induction a as [|x a IH]; intros [|y b] [|z c]; simpl;
    try congruence.
  destruct (Ascii.compare x y) eqn:Exy; try congruence;
  destruct (Ascii.compare y z) eqn:Eyz; try congruence; intros H1 H2.
  - apply Ascii.compare_eq_iff in Exy, Eyz. subst.
    unfold Ascii.compare at 1. rewrite N.compare_refl. eauto.
  - apply Ascii.compare_eq_iff in Exy. subst. now rewrite Eyz.
  - apply Ascii.compare_eq_iff in Eyz. subst. now rewrite Exy.
  - assert (Ascii.compare x z = Lt) as ->; [|congruence].
    unfold Ascii.compare in *. rewrite N.compare_lt_iff in *.
    eapply N.lt_trans; eassumption.
Qed.

Lemma string_leb_trans a b c :
  String.leb a b = true -> String.leb b c = true -> String.leb a c = true.
Proof.
  unfold String.leb. intros H1 H2.
  pose proof (string_compare_trans a b c) as T.
  destruct (String.compare a b), (String.compare b c),
    (String.compare a c); try reflexivity; try discriminate;
    exfalso; apply T; congruence.
Qed.

Lemma sorted_strings l :
  StronglySorted str_le (sorted String.leb l)
  /\ Permutation (sorted String.leb l) l.
Proof.
  split; [|apply sorted_perm].
  apply sorted_sorted; [apply String.leb_total | apply string_leb_trans].
Qed.

Lemma StronglySorted_weaken {A} (P Q : A -> A -> Prop) l :
  (forall a b, P a b -> Q a b) -> StronglySorted P l -> StronglySorted Q l.
Proof.
  intros H. induction 1 as [|a l Hs IH Hf]; constructor; [assumption|].
  eapply Forall_impl; [|exact Hf]. auto.
Qed.

Lemma sorted_by_key_desc_sorted {A} (key : A -> Z) l :
  StronglySorted (fun a b => (key b <= key a)%Z) (sorted_by_key_desc key l).
Proof.
  unfold sorted_by_key_desc.
  eapply StronglySorted_weaken; [| apply sorted_sorted ].
  - intros a b H. now apply Z.leb_le in H.
  - intros a b. rewrite !Z.leb_le. lia.
  - intros a b c. rewrite !Z.leb_le. lia.
Qed.

(* ================================================================= *)
(** * binary64 *)

Local Open Scope Q_scope.

Lemma pow2_pos e : 0 < 2 ^ e.
Proof. apply Qpower_0_lt. reflexivity. Qed.

Lemma pow2_add a b : 2 ^ (a + b) == 2 ^ a * 2 ^ b.
Proof. apply Qpower_plus. discriminate. Qed.

Lemma pow2_le a b : (a <= b)%Z -> 2 ^ a <= 2 ^ b.
Proof. intros H. apply Qpower_le_compat_l; [assumption | discriminate]. Qed.

Lemma pow2_Z n : (0 <= n)%Z -> inject_Z (2 ^ n) == 2 ^ n.
Proof. apply (Zpower_Qpower 2). Qed.

Lemma pow2_cancel x e : x * 2 ^ (- e) * 2 ^ e == x.
Proof.
  rewrite <- Qmult_assoc, <- pow2_add.
  replace (- e + e)%Z with 0%Z by lia. simpl. ring.
Qed.

(** ** The nearest integer *)

Lemma rhe_cases x :
  let q := (Qnum x / Zpos (Qden x))%Z in
  let r := (Qnum x mod Zpos (Qden x))%Z in
  (round_half_even x = q /\ (2 * r <= Zpos (Qden x))%Z)
  \/ (round_half_even x = (q + 1)%Z /\ (Zpos (Qden x) <= 2 * r)%Z).
Proof.
  cbn zeta. unfold round_half_even.
  destruct (Z.compare_spec (2 * (Qnum x mod Zpos (Qden x))) (Zpos (Qden x))).
  - destruct (Z.even _); [left | right]; split; try reflexivity; lia.
  - left. split; [reflexivity | lia].
  - right. split; [reflexivity | lia].
Qed.

Lemma Q_as_div x :
  let d := Zpos (Qden x) in
  (Qnum x = d * (Qnum x / d) + Qnum x mod d)%Z
  /\ (0 <= Qnum x mod d < d)%Z.
Proof.
  cbn zeta. split.
  - apply Z.div_mod. discriminate.
  - apply Z.mod_pos_bound. reflexivity.
Qed.

(** An integer below [x] is not above its rounding. *)
Lemma rhe_ge (k : Z) x : inject_Z k <= x -> (k <= round_half_even x)%Z.
Proof.
  unfold Qle, inject_Z. cbn [Qnum Qden]. rewrite Z.mul_1_r. intros H.
  destruct (Q_as_div x) as [E B]. cbn zeta in *.
  assert (k <= Qnum x / Zpos (Qden x))%Z.
  { apply Z.div_le_lower_bound; [reflexivity | lia]. }
  destruct (rhe_cases x) as [[-> _]|[-> _]]; lia.
Qed.

(** The rounding of a number below [k + 1/2] is not above [k]. *)
Lemma rhe_le (k : Z) x :
  2 * x < inject_Z (2 * k + 1) -> (round_half_even x <= k)%Z.
Proof.
  unfold Qlt, Qmult, inject_Z. cbn [Qnum Qden].
  rewrite Pos.mul_1_l, Z.mul_1_r. intros H.
  destruct (Q_as_div x) as [E B]. cbn zeta in *.
  destruct (rhe_cases x) as [[-> _]|[-> Hr]]; cbn zeta in *; nia.
Qed.

(** The formatted rate is a nearest integer. *)
Lemma rhe_nearest x :
  inject_Z (round_half_even x) - (1 # 2) <= x
  /\ x <= inject_Z (round_half_even x) + (1 # 2).
Proof.
  destruct (Q_as_div x) as [E B]. cbn zeta in *.
  destruct x as [n d]. cbn [Qnum Qden] in *.
  unfold Qle, Qminus, Qplus, Qopp, inject_Z. cbn [Qnum Qden].
  destruct (rhe_cases (n # d)) as [[-> Hr]|[-> Hr]]; cbn [Qnum Qden] in *;
    rewrite ?Pos2Z.inj_mul; split; nia.
Qed.

(** ** Binades *)

Lemma binade_upper x : x < 2 ^ (binade x + 1).
Proof.
  unfold binade.
  set (N := Qfloor (x * inject_Z (2 ^ 1074))).
  assert (HN : (N < 2 ^ (Z.log2 N + 1))%Z).
  { destruct (Z.le_gt_cases N 0) as [H|H].
    - rewrite (Z.log2_nonpos _ H). simpl. lia.
    - apply Z.log2_spec in H. lia. }
  assert (Hx : x * inject_Z (2 ^ 1074) < inject_Z (2 ^ (Z.log2 N + 1))).
  { eapply Qlt_le_trans; [apply Qlt_floor|]. fold N.
    rewrite <- Zle_Qle. lia. }
  rewrite !pow2_Z in Hx by (pose proof (Z.log2_nonneg N); lia).
  replace (Z.log2 N - 1074 + 1)%Z with ((Z.log2 N + 1) + - (1074))%Z by lia.
  rewrite pow2_add.
  apply Qlt_shift_div_l in Hx; [|apply pow2_pos].
  eapply Qlt_le_trans; [exact Hx|]. unfold Qdiv.
  rewrite <- Qpower_opp. apply Qle_refl.
Qed.

Lemma binade_lower x : 1 <= x * inject_Z (2 ^ 1074) -> 2 ^ binade x <= x.
Proof.
  intros H1. unfold binade.
  set (N := Qfloor (x * inject_Z (2 ^ 1074))).
  assert (HN0 : (1 <= N)%Z).
  { change 1%Z with (Qfloor 1). now apply Qfloor_resp_le. }
  assert (HN : (2 ^ Z.log2 N <= N)%Z) by (apply Z.log2_spec; lia).
  assert (Hx : inject_Z (2 ^ Z.log2 N) <= x * inject_Z (2 ^ 1074)).
  { eapply Qle_trans; [|apply Qfloor_le]. fold N. now rewrite <- Zle_Qle. }
  rewrite !pow2_Z in Hx by (pose proof (Z.log2_nonneg N); lia).
  replace (Z.log2 N - 1074)%Z with (Z.log2 N + - (1074))%Z by lia.
  rewrite pow2_add, Qpower_opp.
  apply Qle_shift_div_r; [apply pow2_pos | exact Hx].
Qed.

(** [x < 2^c] puts [x] in a binade below [c]; [2^c <= x] in one from [c]
    on. *)
Lemma binade_lt x c : (-1073 <= c)%Z -> x < 2 ^ c -> (binade x < c)%Z.
Proof.
  intros Hc Hx. unfold binade.
  set (N := Qfloor (x * inject_Z (2 ^ 1074))).
  destruct (Z.le_gt_cases N 0) as [H|H].
  - rewrite (Z.log2_nonpos _ H). lia.
  - assert (N < 2 ^ (c + 1074))%Z; [|apply Z.log2_lt_pow2 in H0; lia].
    rewrite Zlt_Qlt. eapply Qle_lt_trans; [apply Qfloor_le|].
    rewrite !pow2_Z by lia. rewrite pow2_add.
    apply Qmult_lt_compat_r; [apply pow2_pos | exact Hx].
Qed.

Lemma binade_ge x c : (-1074 <= c)%Z -> 2 ^ c <= x -> (c <= binade x)%Z.
Proof.
  intros Hc Hx. unfold binade.
  set (N := Qfloor (x * inject_Z (2 ^ 1074))).
  assert (H : (2 ^ (c + 1074) <= N)%Z).
  { rewrite <- (Qfloor_Z (2 ^ (c + 1074))). apply Qfloor_resp_le.
    rewrite !pow2_Z by lia. rewrite pow2_add.
    apply Qmult_le_compat_r; [exact Hx | apply Qlt_le_weak, pow2_pos]. }
  assert (0 < N)%Z by (pose proof (Z.pow_pos_nonneg 2 (c + 1074)); lia).
  apply Z.log2_le_pow2 in H; lia.
Qed.

(** ** Rounding to a float *)

Lemma round64_le_grid x (k : Z) :
  2 * x < inject_Z (2 * k + 1) * 2 ^ (binade x - 52) ->
  round64 x <= inject_Z k * 2 ^ (binade x - 52).
Proof.
  intros H. unfold round64. cbn zeta.
  apply Qmult_le_compat_r; [|apply Qlt_le_weak, pow2_pos].
  rewrite <- Zle_Qle. apply rhe_le.
  apply (Qmult_lt_r _ _ (2 ^ (binade x - 52))); [apply pow2_pos|].
  rewrite <- Qmult_assoc, pow2_cancel. exact H.
Qed.

Lemma round64_ge_grid x (k : Z) :
  inject_Z k * 2 ^ (binade x - 52) <= x ->
  inject_Z k * 2 ^ (binade x - 52) <= round64 x.
Proof.
  intros H. unfold round64. cbn zeta.
  apply Qmult_le_compat_r; [|apply Qlt_le_weak, pow2_pos].
  rewrite <- Zle_Qle. apply rhe_ge.
  apply (Qmult_le_r _ _ (2 ^ (binade x - 52))); [apply pow2_pos|].
  now rewrite pow2_cancel.
Qed.

Lemma round64_le_pow x : round64 x <= 2 ^ (binade x + 1).
Proof.
  eapply Qle_trans; [apply (round64_le_grid x (2 ^ 53))|].
  - pose proof (binade_upper x) as H.
    replace (binade x + 1)%Z with (53 + (binade x - 52))%Z in H by lia.
    rewrite pow2_add in H.
    pose proof (pow2_pos (binade x - 52)) as P.
    change (inject_Z (2 * 2 ^ 53 + 1)) with (2 * 2 ^ 53 + 1). nra.
  - replace (binade x + 1)%Z with (53 + (binade x - 52))%Z by lia.
    rewrite pow2_add. apply Qle_refl.
Qed.

Lemma round64_ge_pow x :
  1 <= x * inject_Z (2 ^ 1074) -> 2 ^ binade x <= round64 x.
Proof.
  intros H1.
  assert (E : 2 ^ binade x == inject_Z (2 ^ 52) * 2 ^ (binade x - 52)).
  { replace (binade x) with (52 + (binade x - 52))%Z at 1 by lia.
    now rewrite pow2_add. }
  rewrite E. apply round64_ge_grid. rewrite <- E. now apply binade_lower.
Qed.

(** ** The fill rate *)

Lemma scale_ge_1 x : 1 <= x -> 1 <= x * inject_Z (2 ^ 1074).
Proof.
  intros H.
  assert (1 <= inject_Z (2 ^ 1074)).
  { change 1 with (inject_Z 1). rewrite <- Zle_Qle.
    pose proof (Z.pow_pos_nonneg 2 1074). lia. }
  nra.
Qed.

Lemma round64_ge_1 x : 1 <= x -> 1 <= round64 x.
Proof.
  intros H.
  assert (H0 : (0 <= binade x)%Z) by (apply binade_ge; [lia | exact H]).
  eapply Qle_trans; [|apply round64_ge_pow].
  - apply (pow2_le 0). exact H0.
  - now apply scale_ge_1.
Qed.

Lemma round64_ge_100 z : 100 <= z -> 100 <= round64 z.
Proof.
  intros H.
  assert (H6 : (6 <= binade z)%Z).
  { apply binade_ge; [lia|]. change (2 ^ 6) with 64. lra. }
  destruct (Z.eq_dec (binade z) 6) as [E|N].
  - pose proof (round64_ge_grid z (100 * 2 ^ 46)) as G. rewrite E in G.
    assert (C : inject_Z (100 * 2 ^ 46) * 2 ^ (6 - 52) == 100) by reflexivity.
    rewrite C in G. auto.
  - eapply Qle_trans; [|apply round64_ge_pow].
    + apply Qle_trans with (2 ^ 7); [discriminate|]. apply pow2_le. lia.
    + apply scale_ge_1. lra.
Qed.

Lemma round64_lt_1 (n m : Z) :
  (0 <= n < m)%Z -> (m <= 2 ^ 53)%Z ->
  round64 (inject_Z n / inject_Z m) <= below_one.
Proof.
  intros Hn Hm. set (x := inject_Z n / inject_Z m).
  assert (HN : inject_Z n + 1 <= inject_Z m).
  { change 1 with (inject_Z 1). rewrite <- inject_Z_plus, <- Zle_Qle. lia. }
  assert (HM : inject_Z m <= inject_Z (2 ^ 53)) by (rewrite <- Zle_Qle; lia).
  assert (HM0 : 0 < inject_Z m) by (rewrite <- (Zlt_Qlt 0); lia).
  change (inject_Z (2 ^ 53)) with 9007199254740992 in HM.
  assert (Hx : 2 * x < inject_Z (2 * (2 ^ 53 - 1) + 1) * 2 ^ (-53)).
  { assert (C : inject_Z (2 * (2 ^ 53 - 1) + 1) * 2 ^ (-53)
                == 18014398509481983 # 9007199254740992) by reflexivity.
    rewrite C. unfold x, Qdiv. rewrite Qmult_assoc.
    apply Qlt_shift_div_r; [assumption|]. lra. }
  assert (Hb : (binade x < 0)%Z).
  { apply binade_lt; [lia|]. change (2 ^ 0) with 1. unfold x.
    apply Qlt_shift_div_r; [assumption | lra]. }
  destruct (Z.eq_dec (binade x) (-1)) as [E|N].
  - pose proof (round64_le_grid x (2 ^ 53 - 1)) as G. rewrite E in G.
    apply G. exact Hx.
  - eapply Qle_trans; [apply round64_le_pow|].
    apply Qle_trans with (2 ^ (-1)); [apply pow2_le; lia | discriminate].
Qed.

Lemma round64_lt_100 y : y <= below_one -> round64 (y * 100) < 100.
Proof.
  intros Hy. set (z := y * 100).
  assert (C : below_one == 9007199254740991 # 9007199254740992)
    by reflexivity.
  rewrite C in Hy.
  assert (Hb : (binade z < 7)%Z).
  { apply binade_lt; [lia|]. change (2 ^ 7) with 128. unfold z. lra. }
  destruct (Z.eq_dec (binade z) 6) as [E|N].
  - pose proof (round64_le_grid z (100 * 2 ^ 46 - 1)) as G. rewrite E in G.
    assert (C1 : inject_Z (2 * (100 * 2 ^ 46 - 1) + 1) * 2 ^ (6 - 52)
                 == 14073748835532799 # 70368744177664) by reflexivity.
    assert (C2 : inject_Z (100 * 2 ^ 46 - 1) * 2 ^ (6 - 52)
                 == 7036874417766399 # 70368744177664) by reflexivity.
    rewrite C1, C2 in G.
    eapply Qle_lt_trans; [apply G; unfold z; lra | reflexivity].
  - eapply Qle_lt_trans; [apply round64_le_pow|].
    apply Qle_lt_trans with (2 ^ 6); [apply pow2_le; lia | reflexivity].
Qed.

(** The float [n / m * 100] is below 100 exactly when [n < m]. *)
Lemma percent_lt_100 (n m : Z) :
  (0 <= n)%Z -> (0 < m <= 2 ^ 53)%Z ->
  (percent n m < 100 <-> (n < m)%Z).
Proof.
  intros Hn Hm. unfold percent, float_mul, int_truediv.
  change (inject_Z 100) with 100. split.
  - intros H. destruct (Z.lt_ge_cases n m) as [|Hge]; [assumption|].
    exfalso. apply (Qlt_not_le _ _ H).
    apply round64_ge_100.
    assert (1 <= round64 (inject_Z n / inject_Z m)); [|lra].
    apply round64_ge_1. apply Qle_shift_div_l.
    + rewrite <- (Zlt_Qlt 0). lia.
    + rewrite Qmult_1_l, <- Zle_Qle. lia.
  - intros H. apply round64_lt_100, round64_lt_1; lia.
Qed.

(** The rounding error is at most half a unit in the last place. *)
Lemma round64_error x : within (2 ^ (binade x - 53)) (round64 x) x.
Proof.
  unfold within, round64. cbn zeta.
  set (e := (binade x - 52)%Z).
  pose proof (pow2_cancel x e) as Hx.
  pose proof (pow2_pos e) as HP.
  pose proof (rhe_nearest (x * 2 ^ (- e))) as [H1 H2].
  assert (Hh : 2 ^ (binade x - 53) == 2 ^ e * (1 # 2)).
  { replace (binade x - 53)%Z with (e + -1)%Z by (unfold e; lia).
    now rewrite pow2_add. }
  rewrite Hh.
  set (r := inject_Z (round_half_even (x * 2 ^ (- e)))) in *.
  set (t := x * 2 ^ (- e)) in *. set (P := 2 ^ e) in *.
  split; nra.
Qed.

(** For [n <= m] the float [n / m * 100] is within [2^-45] of the
    rational number. *)
Lemma percent_error (n m : Z) :
  (0 <= n <= m)%Z -> (0 < m)%Z ->
  within (1 # 35184372088832) (percent n m) (exact_rate n m).
Proof.
  intros Hn Hm. unfold percent, exact_rate, float_mul, int_truediv.
  change (inject_Z 100) with 100.
  set (x := inject_Z n / inject_Z m).
  assert (HM0 : 0 < inject_Z m) by (rewrite <- (Zlt_Qlt 0); lia).
  assert (Hx1 : x <= 1).
  { unfold x. apply Qle_shift_div_r; [assumption|].
    rewrite Qmult_1_l, <- Zle_Qle. lia. }
  assert (Hb : (binade x < 1)%Z).
  { apply binade_lt; [lia|]. change (2 ^ 1) with 2. lra. }
  destruct (round64_error x) as [E1 E2].
  assert (Hp : 2 ^ (binade x - 53) <= 1 # 9007199254740992).
  { apply Qle_trans with (2 ^ (-53)); [apply pow2_le; lia | discriminate]. }
  set (y := round64 x) in *.
  assert (Hb' : (binade (y * 100) < 7)%Z).
  { apply binade_lt; [lia|]. change (2 ^ 7) with 128. lra. }
  destruct (round64_error (y * 100)) as [F1 F2].
  assert (Hp' : 2 ^ (binade (y * 100) - 53) <= 1 # 140737488355328).
  { apply Qle_trans with (2 ^ (-47)); [apply pow2_le; lia | discriminate]. }
  unfold within. split; lra.
Qed.

Local Close Scope Q_scope.

(* ================================================================= *)
(** * The accumulated observations *)

Lemma set_NoDup {V} k (v : V) d : NoDup (keys d) -> NoDup (keys (set k v d)).
Proof.
  intros H. rewrite keys_set. destruct (mem k (keys d)) eqn:M; [assumption|].
  apply mem_false in M.
  apply NoDup_app; [assumption | repeat constructor; auto | ].
  intros x H1 [<-|[]]. contradiction.
Qed.

Lemma update_NoDup {V} dflt k (f : V -> V) d :
  NoDup (keys d) -> NoDup (keys (update dflt k f d)).
Proof. unfold update. destruct (get k d); apply set_NoDup. Qed.

Section Upd.
Variables (k : string) (f : field_acc -> field_acc) (v : value).
Hypothesis f_values : forall a, fa_values (f a) = fa_values a ++ [v].

Lemma vals_of_upd k' fd :
  vals_of k' (upd k f fd)
  = vals_of k' fd ++ (if String.eqb k k' then [v] else []).
Proof.
  unfold vals_of, upd. destruct (String.eqb_spec k k') as [<-|N].
  - rewrite get_update_same, f_values. now destruct (get k fd).
  - rewrite get_update_other, app_nil_r by assumption. reflexivity.
Qed.

Lemma all_observed_upd fd : all_observed fd -> all_observed (upd k f fd).
Proof.
  intros H k' a. unfold upd. destruct (String.eqb_spec k k') as [<-|N].
  - rewrite get_update_same. intros [= <-]. rewrite f_values.
    now destruct (fa_values _).
  - rewrite get_update_other by assumption. apply H.
Qed.

Lemma types_of_upd_other k' fd :
  k <> k' -> types_of k' (upd k f fd) = types_of k' fd.
Proof.
  intros N. unfold types_of, upd. now rewrite get_update_other.
Qed.
End Upd.

Lemma set_add_In x t l : In t (set_add x l) <-> t = x \/ In t l.
Proof.
  unfold set_add. destruct (mem x l) eqn:M.
  - apply mem_In in M. split; [tauto|]. intros [->|]; assumption.
  - rewrite in_app_iff. simpl. split; intros H; intuition congruence.
Qed.

(** *** One record *)

Lemma observe_standard_vals k r fd :
  vals_of k (observe_standard r fd) = vals_of k fd ++ standard_obs k r.
Proof.
  unfold observe_standard, standard_obs.
  revert fd. induction standard_fields as [|n l IH]; intros fd; simpl.
  - now rewrite app_nil_r.
  - rewrite IH. destruct (present (record_get r n)).
    + rewrite (vals_of_upd n _ (record_get r n)) by reflexivity.
      rewrite <- app_assoc. f_equal. rewrite andb_true_r.
      now destruct (String.eqb n k).
    + now rewrite andb_false_r.
Qed.

Lemma observe_standard_types k r fd :
  types_of k (observe_standard r fd) = types_of k fd.
Proof.
  unfold observe_standard.
  revert fd. induction standard_fields as [|n l IH]; intros fd; simpl.
  - reflexivity.
  - rewrite IH. destruct (present (record_get r n)); [|reflexivity].
    unfold types_of, upd. destruct (String.eqb_spec n k) as [<-|N].
    + rewrite get_update_same. now destruct (get n fd).
    + now rewrite get_update_other.
Qed.

Lemma observe_standard_inv r fd :
  (all_observed fd -> all_observed (observe_standard r fd))
  /\ (NoDup (keys fd) -> NoDup (keys (observe_standard r fd))).
Proof.
  unfold observe_standard.
  revert fd. induction standard_fields as [|n l IH]; intros fd; simpl.
  - tauto.
  - destruct (present (record_get r n)); [|apply IH].
    split; intros H; apply IH.
    + now apply (all_observed_upd n _ (record_get r n)).
    + now apply update_NoDup.
Qed.

Lemma observe_custom_vals k r fd :
  vals_of k (observe_custom r fd) = vals_of k fd ++ custom_obs k r.
Proof.
  unfold observe_custom, custom_obs.
  revert fd. induction (r_fields r) as [|[f|] l IH]; intros fd; simpl.
  - now rewrite app_nil_r.
  - rewrite IH. unfold observed_under.
    destruct (negb (String.eqb (label_or_empty f) EmptyString)
              && present (fo_value f)); simpl.
    + rewrite (vals_of_upd _ _ (fo_value f)) by reflexivity.
      now rewrite <- app_assoc.
    + reflexivity.
  - apply IH.
Qed.

Lemma observe_custom_types k r fd t :
  In t (types_of k (observe_custom r fd))
  <-> In t (types_of k fd) \/ In t (record_hints k (Dict r)).
Proof.
  unfold observe_custom, record_hints.
  revert fd. induction (r_fields r) as [|[f|] l IH]; intros fd; simpl.
  - tauto.
  - rewrite IH, in_app_iff. unfold observed_under.
    destruct (negb (String.eqb (label_or_empty f) EmptyString)
              && present (fo_value f)); simpl; [|tauto].
    destruct (String.eqb_spec (_normalize_field_name (label_or_empty f)) k)
      as [<-|N].
    + unfold types_of, upd. rewrite get_update_same. simpl.
      rewrite set_add_In. destruct (get _ fd); simpl;
        intuition congruence.
    + rewrite (types_of_upd_other _ _ _) by assumption. simpl. tauto.
  - apply IH.
Qed.

Lemma observe_custom_inv r fd :
  (all_observed fd -> all_observed (observe_custom r fd))
  /\ (NoDup (keys fd) -> NoDup (keys (observe_custom r fd))).
Proof.
  unfold observe_custom.
  revert fd. induction (r_fields r) as [|[f|] l IH]; intros fd; simpl.
  - tauto.
  - destruct (negb (String.eqb (label_or_empty f) EmptyString)
              && present (fo_value f)); [|apply IH].
    split; intros H; apply IH.
    + now apply (all_observed_upd _ _ (fo_value f)).
    + now apply update_NoDup.
  - apply IH.
Qed.

(** *** All records of a type *)

Lemma collect_from_spec k records fd :
  vals_of k (collect_from records fd) = vals_of k fd ++ observations k records
  /\ (forall t, In t (types_of k (collect_from records fd))
                <-> In t (types_of k fd) \/ In t (hints k records))
  /\ (all_observed fd -> all_observed (collect_from records fd))
  /\ (NoDup (keys fd) -> NoDup (keys (collect_from records fd))).
Proof.
  unfold collect_from, observations, hints.
  revert fd. induction records as [|[r|] rs IH]; intros fd; simpl.
  - rewrite app_nil_r. tauto.
  - destruct (IH (observe_custom r (observe_standard r fd)))
      as (Hv & Ht & Ha & Hn).
    destruct (observe_standard_inv r fd) as [Ha1 Hn1].
    destruct (observe_custom_inv r (observe_standard r fd)) as [Ha2 Hn2].
    repeat split; auto.
    + rewrite Hv, observe_custom_vals, observe_standard_vals.
      now rewrite <- !app_assoc.
    + rewrite Ht, observe_custom_types, observe_standard_types, in_app_iff.
      tauto.
    + rewrite Ht, observe_custom_types, observe_standard_types, in_app_iff.
      tauto.
  - apply IH.
Qed.

(** What [field_data] holds for key [k] once all records are read. *)
Lemma collect_field_data_spec k records :
  match get k (collect_field_data records) with
  | Some a =>
      fa_values a = observations k records
      /\ observations k records <> []
      /\ (forall t, In t (fa_types a) <-> In t (hints k records))
  | None => observations k records = []
  end.
Proof.
  change (collect_field_data records) with (collect_from records []).
  destruct (collect_from_spec k records []) as (Hv & Ht & Ha & _).
  unfold vals_of, types_of in *. simpl in *.
  destruct (get k (collect_from records [])) as [a|] eqn:E.
  - repeat split.
    + assumption.
    + rewrite <- Hv. apply (Ha ltac:(intros ? ? [=]) k a E).
    + intros H. apply Ht in H. tauto.
    + intros H. apply Ht. tauto.
  - now symmetry.
Qed.

Lemma collect_field_data_NoDup records :
  NoDup (keys (collect_field_data records)).
Proof.
  change (collect_field_data records) with (collect_from records []).
  destruct (collect_from_spec EmptyString records []) as (_ & _ & _ & H).
  apply H. constructor.
Qed.

(** *** From [field_data] to the fields of the type *)

Lemma build_fields_get records k fd fs :
  NoDup (keys fd) ->
  get k (build_fields records fd fs)
  = match get k fd with
    | Some a => if is_nil (fa_values a) then get k fs
                else Some (field_info_of records k a)
    | None => get k fs
    end.
Proof.
  unfold build_fields. revert fs.
  induction fd as [|[k0 a0] fd IH]; intros fs ND; simpl; [reflexivity|].
  inversion ND as [|? ? Hn Hd]; subst.
  rewrite IH by assumption.
  destruct (String.eqb_spec k0 k) as [->|N].
  - apply get_None_keys in Hn. rewrite Hn.
    destruct (is_nil (fa_values a0)); [reflexivity | apply get_set_same].
  - destruct (get k fd) as [a|].
    + destruct (is_nil (fa_values a)); [|reflexivity].
      destruct (is_nil (fa_values a0)); [reflexivity|].
      now apply get_set_other.
    + destruct (is_nil (fa_values a0)); [reflexivity|].
      now apply get_set_other.
Qed.

(** The inferred field with key [k]: there is one exactly when the key
    has observations, and it is computed from the accumulated entry. *)
Lemma inferred_field_spec records k :
  match get k (inferred_fields records) with
  | Some info =>
      exists data,
        info = field_info_of records k data
        /\ fa_values data = observations k records
        /\ observations k records <> []
        /\ (forall t, In t (fa_types data) <-> In t (hints k records))
  | None => observations k records = []
  end.
Proof.
  unfold inferred_fields.
  rewrite build_fields_get by apply collect_field_data_NoDup.
  pose proof (collect_field_data_spec k records) as H.
  destruct (get k (collect_field_data records)) as [a|]; [|assumption].
  destruct H as (Hv & Hne & Ht).
  destruct (fa_values a) eqn:E; simpl; [congruence|].
  exists a. rewrite E. auto.
Qed.

(** [inferred_fields] is what [_analyze_all_fields] stores for a type
    whose entry has no fields yet. *)
Lemma analyze_type_fields type_info records type_info' :
  analyze_type type_info records = Ok type_info' ->
  fields type_info = [] ->
  fields type_info' = inferred_fields records.
Proof.
  unfold analyze_type, inferred_fields. intros H E. rewrite E in H.
  destruct (extract_statuses records (statuses type_info)) as [sts|e];
    [|discriminate].
  cbn [bind] in H.
  destruct (sorted_values sts) as [sts'|e]; [|discriminate].
  now injection H as <-.
Qed.

(* ================================================================= *)
(** * The full fetch *)

Lemma set_app_notin {V} k (v v0 : V) pre rest :
  ~ In k (keys pre) ->
  set k v (pre ++ (k, v0) :: rest) = pre ++ (k, v) :: rest.
Proof.
  induction pre as [|[k1 v1] pre IH]; simpl; intros N.
  - now rewrite String.eqb_refl.
  - destruct (String.eqb_spec k1 k); [tauto|]. rewrite IH; tauto.
Qed.

Lemma del_app_notin {V} k (v0 : V) pre rest :
  ~ In k (keys pre) -> del k (pre ++ (k, v0) :: rest) = pre ++ rest.
Proof.
  induction pre as [|[k1 v1] pre IH]; simpl; intros N.
  - now rewrite String.eqb_refl.
  - destruct (String.eqb_spec k1 k); [tauto|]. rewrite IH; tauto.
Qed.

Section FetchFacts.
Variable q : string -> option response.

(** One round of the loop, read on the type entry. *)
Lemma fetch_type_step st rm n t :
  fetch_type q (st, rm) (n, t)
  = if is_nil (fetched_records q t) then (st, rm ++ [n])
    else (mk_extractor (set n (fetched_type q t) (item_types st))
                       (relation_types st)
                       (set n (fetched_records q t)
                            (all_records_by_type st)),
          rm).
Proof.
  unfold fetch_type, fetched_type, fetched_total, fetched_records.
  destruct (q (kqlQuery t)) as [resp|]; [|reflexivity].
  destruct (resp_records resp) as [[|r l]|]; reflexivity.
Qed.

Lemma fetch_loop l pre its rts recs rm :
  NoDup (keys (pre ++ l)) ->
  its = pre ++ l ->
  fold_left (fetch_type q) l (mk_extractor its rts recs, rm)
  = (mk_extractor (pre ++ refreshed q l) rts
       (fold_left (fun d e => set (fst e) (snd e) d) (kept_records q l)
                  recs),
     rm ++ dropped_names q l).
Proof.
  revert pre its recs rm.
  induction l as [|[n t] l IH]; intros pre its recs rm ND ->.
  - simpl. now rewrite !app_nil_r.
  - cbn [fold_left]. rewrite fetch_type_step. simpl.
    assert (Hn : ~ In n (keys pre)).
    { unfold keys in *. rewrite map_app in ND. simpl in ND.
      apply NoDup_remove_2 in ND. rewrite in_app_iff in ND. tauto. }
    destruct (is_nil (fetched_records q t)) eqn:E.
    + rewrite (IH (pre ++ [(n, t)]) (pre ++ (n, t) :: l)).
      * now rewrite <- !app_assoc.
      * now rewrite <- app_assoc.
      * now rewrite <- app_assoc.
    + rewrite set_app_notin by assumption.
      rewrite (IH (pre ++ [(n, fetched_type q t)])
                  (pre ++ (n, fetched_type q t) :: l)).
      * now rewrite <- !app_assoc.
      * rewrite <- app_assoc. simpl.
        unfold keys in *. rewrite map_app in *. simpl in *. assumption.
      * now rewrite <- app_assoc.
Qed.

Lemma del_dropped l pre :
  NoDup (keys (pre ++ l)) ->
  fold_left (fun d n => del n d) (dropped_names q l) (pre ++ refreshed q l)
  = pre ++ kept_types q l.
Proof.
  revert pre. induction l as [|[n t] l IH]; intros pre ND; simpl.
  - reflexivity.
  - assert (Hn : ~ In n (keys pre)).
    { unfold keys in *. rewrite map_app in ND. simpl in ND.
      apply NoDup_remove_2 in ND. rewrite in_app_iff in ND. tauto. }
    destruct (is_nil (fetched_records q t)) eqn:E; simpl.
    + rewrite del_app_notin by assumption. apply IH.
      unfold keys in *. rewrite map_app in *. simpl in ND.
      now apply NoDup_remove_1 in ND.
    + change (pre ++ (n, fetched_type q t) :: refreshed q l)
        with (pre ++ [(n, fetched_type q t)] ++ refreshed q l).
      rewrite app_assoc, IH.
      * now rewrite <- app_assoc.
      * unfold keys in *. rewrite <- app_assoc, map_app in *.
        simpl in *. assumption.
Qed.

(** [_fetch_records_by_type] keeps the types whose fetch returns
    records, refreshed, and stores their records. *)
Lemma fetch_records_by_type_spec st :
  wf (item_types st) = true ->
  _fetch_records_by_type q st
  = mk_extractor
      (kept_types q (item_types st))
      (relation_types st)
      (fold_left (fun d e => set (fst e) (snd e) d)
                 (kept_records q (item_types st))
                 (all_records_by_type st)).
Proof.
  intros W. apply wf_NoDup in W. unfold _fetch_records_by_type.
  destruct st as [its rts recs]. simpl in *.
  rewrite (fetch_loop its [] its rts recs []) by auto.
  simpl. f_equal. now apply (del_dropped its []).
Qed.
End FetchFacts.

Section KeptFacts.
Variable q : string -> option response.

Lemma keys_kept_types l n : In n (keys (kept_types q l)) -> In n (keys l).
Proof.
  induction l as [|[n0 t0] l IH]; simpl; [tauto|].
  destruct (is_nil (fetched_records q t0)); simpl; tauto.
Qed.

Lemma get_kept_types l n :
  NoDup (keys l) ->
  get n (kept_types q l)
  = match get n l with
    | Some t => if is_nil (fetched_records q t) then None
                else Some (fetched_type q t)
    | None => None
    end.
Proof.
  induction l as [|[n0 t0] l IH]; simpl; intros ND; [reflexivity|].
  inversion ND as [|? ? Hn Hd]; subst.
  destruct (String.eqb_spec n0 n) as [->|N].
  - destruct (is_nil (fetched_records q t0)); simpl.
    + apply get_None_keys. intros H. now apply keys_kept_types in H.
    + now rewrite String.eqb_refl.
  - destruct (is_nil (fetched_records q t0)); simpl; [now apply IH|].
    destruct (String.eqb_spec n0 n); [contradiction | now apply IH].
Qed.

Lemma get_kept_records l n (recs : od (list (item record))) :
  NoDup (keys l) ->
  get n (fold_left (fun d e => set (fst e) (snd e) d) (kept_records q l)
                   recs)
  = match get n l with
    | Some t => if is_nil (fetched_records q t) then get n recs
                else Some (fetched_records q t)
    | None => get n recs
    end.
Proof.
  revert recs. induction l as [|[n0 t0] l IH]; simpl; intros recs ND;
    [reflexivity|].
  inversion ND as [|? ? Hn Hd]; subst.
  destruct (is_nil (fetched_records q t0)) eqn:E; simpl.
  - rewrite IH by assumption.
    destruct (String.eqb_spec n0 n) as [->|N]; [|reflexivity].
    apply get_None_keys in Hn. now rewrite Hn, E.
  - rewrite IH by assumption.
    destruct (String.eqb_spec n0 n) as [->|N].
    + apply get_None_keys in Hn. rewrite Hn, E. apply get_set_same.
    + destruct (get n l) as [t|].
      * destruct (is_nil (fetched_records q t)); [|reflexivity].
        now apply get_set_other.
      * now apply get_set_other.
Qed.

Lemma del_NoDup {V} n (d : od V) : NoDup (keys d) -> NoDup (keys (del n d)).
Proof.
  induction d as [|[n0 v0] d IH]; simpl; intros ND; [constructor|].
  inversion ND as [|? ? Hn Hd]; subst.
  destruct (String.eqb n0 n); [assumption|].
  simpl. constructor; [|auto].
  intros H. apply Hn. clear - H.
  induction d as [|[n1 v1] d IH]; simpl in *; [contradiction|].
  destruct (String.eqb n1 n); simpl in *; tauto.
Qed.

Lemma kept_del l n t :
  NoDup (keys l) -> get n l = Some t -> fetched_records q t = [] ->
  kept_types q (del n l) = kept_types q l
  /\ kept_records q (del n l) = kept_records q l.
Proof.
  induction l as [|[n0 t0] l IH]; simpl; intros ND G E; [discriminate|].
  inversion ND as [|? ? Hn Hd]; subst.
  destruct (String.eqb_spec n0 n) as [->|N].
  - injection G as ->. rewrite E. simpl. auto.
  - simpl. destruct (IH Hd G E) as [-> ->]. auto.
Qed.
End KeptFacts.

(** ** The type names in the output *)

Lemma keys_set_present {V} k (v : V) d :
  In k (keys d) -> keys (set k v d) = keys d.
Proof. intros H. rewrite keys_set. apply mem_In in H. now rewrite H. Qed.

Lemma analyze_types_keys l its its' :
  analyze_types l its = Ok its' -> keys its' = keys its.
Proof.
  revert its. induction l as [|[n recs] l IH]; simpl; intros its H.
  - now injection H as ->.
  - destruct (is_nil recs); [now apply IH|].
    destruct (get n its) as [t|] eqn:G; [|now apply IH].
    destruct (analyze_type t recs) as [t'|e]; simpl in H; [|discriminate].
    apply IH in H. rewrite H. apply keys_set_present.
    now apply get_Some_keys in G.
Qed.

Lemma keys_fold_set_in {A V} (kf : A -> string) (vf : A -> V) l d n :
  In n (keys (fold_left (fun d x => set (kf x) (vf x) d) l d)) ->
  In n (keys d) \/ In n (map kf l).
Proof.
  revert d. induction l as [|x l IH]; simpl; intros d H; [tauto|].
  apply IH in H as [H|H]; [|tauto].
  rewrite keys_set in H. destruct (mem (kf x) (keys d)); [tauto|].
  apply in_app_or in H as [H|[H|[]]]; tauto.
Qed.

Lemma output_type_names q st out n :
  extract q st = Ok out ->
  In n (keys (itemTypes out)) ->
  In n (keys (item_types (_fetch_records_by_type q st))).
Proof.
  unfold extract, _analyze_all_fields.
  destruct (analyze_types _ _) as [its|e] eqn:A; simpl; [|discriminate].
  intros [= <-]. simpl. intros H.
  apply keys_fold_set_in in H as [[]|H].
  unfold sorted_types, sorted_by_key_desc in H.
  apply (Permutation_in _ (Permutation_map _ (sorted_perm _ _))) in H.
  simpl in H. rewrite map_map in H. simpl in H.
  apply analyze_types_keys in A. unfold keys in *. now rewrite <- A.
Qed.

(* ================================================================= *)
(** * The relation catalog *)

Lemma before_map {A B} (f : A -> B) a b l :
  before a b l -> before (f a) (f b) (map f l).
Proof.
  intros (l1 & l2 & l3 & ->).
  exists (map f l1), (map f l2), (map f l3).
  now rewrite map_app; simpl; rewrite map_app.
Qed.

Lemma before_filter {A} (p : A -> bool) a b l :
  before a b l -> p a = true -> p b = true -> before a b (filter p l).
Proof.
  intros (l1 & l2 & l3 & ->) Ha Hb.
  exists (filter p l1), (filter p l2), (filter p l3).
  rewrite filter_app. simpl. rewrite Ha, filter_app. simpl. now rewrite Hb.
Qed.

Lemma before_nth_ex {A} (a b : A) l :
  before a b l ->
  exists i j, nth_error l i = Some a /\ nth_error l j = Some b /\ i < j.
Proof.
  intros (l1 & l2 & l3 & ->).
  exists (List.length l1), (List.length l1 + S (List.length l2)).
  repeat split; [| |lia].
  - rewrite nth_error_app2, Nat.sub_diag by lia. reflexivity.
  - rewrite nth_error_app2 by lia.
    replace (List.length l1 + S (List.length l2) - List.length l1)
      with (S (List.length l2)) by lia.
    simpl. rewrite nth_error_app2, Nat.sub_diag by lia. reflexivity.
Qed.

Lemma before_antisym {A} (a b : A) l :
  NoDup l -> before a b l -> before b a l -> False.
Proof.
  intros ND H1 H2.
  destruct (before_nth_ex _ _ _ H1) as (i & j & Hi & Hj & Hij).
  pose proof (before_nth b a l j i ND H2 Hj Hi). lia.
Qed.

Lemma before_total {A} (a b : A) l :
  In a l -> In b l -> a <> b -> before a b l \/ before b a l.
Proof.
  intros Ha Hb N. apply in_split in Ha as (l1 & l2 & ->).
  apply in_app_or in Hb as [Hb|[Hb|Hb]]; [|congruence|].
  - right. apply in_split in Hb as (m1 & m2 & ->).
    exists m1, m2, l2. now rewrite <- app_assoc.
  - left. apply in_split in Hb as (m1 & m2 & ->). now exists l1, m1, m2.
Qed.

Lemma first_seen_before_dedup x y l :
  first_seen_before x y l -> In y l -> before x y (dedup_first_seen l).
Proof.
  intros (N & l1 & l2 & -> & Hy). induction l1 as [|c l1 IH]; simpl; intros H.
  - destruct H as [H|H]; [contradiction|].
    apply before_head, filter_In. split; [now apply dedup_In|].
    apply negb_true_iff, String.eqb_neq. congruence.
  - simpl in Hy. destruct H as [H|H]; [tauto|].
    assert (Hb : before x y (dedup_first_seen (l1 ++ x :: l2)))
      by (apply IH; tauto).
    destruct (string_dec c x) as [->|Nc].
    + apply before_head, filter_In. split.
      * apply dedup_In. exact H.
      * apply negb_true_iff, String.eqb_neq. congruence.
    + apply before_cons, before_filter; [assumption| |];
        apply negb_true_iff, String.eqb_neq; intuition congruence.
Qed.

Lemma fold_add_key_app l1 l2 acc :
  fold_left add_key (l1 ++ l2) acc
  = fold_left add_key l2 (fold_left add_key l1 acc).
Proof. apply fold_left_app. Qed.

(** *** The tally *)

Lemma tally_relation_spec tn d rel k :
  keys (tally_relation tn d rel) = fold_left add_key (entry_names rel) (keys d)
  /\ count_of k (tally_relation tn d rel)
     = (count_of k d + occurrences k (entry_names rel))%Z.
Proof.
  unfold occurrences. destruct rel as [o|]; simpl.
  - split; [apply keys_update|].
    unfold count_of. destruct (string_dec (type_or_unknown o) k) as [->|N].
    + rewrite get_update_same. simpl. destruct (get k d); simpl; lia.
    + rewrite get_update_other by assumption. lia.
  - split; [reflexivity | lia].
Qed.

Lemma occurrences_app k l1 l2 :
  occurrences k (l1 ++ l2) = (occurrences k l1 + occurrences k l2)%Z.
Proof. unfold occurrences. rewrite count_occ_app. lia. Qed.

Lemma tally_relations_spec tn rels d k :
  let names := flat_map entry_names rels in
  keys (fold_left (tally_relation tn) rels d)
  = fold_left add_key names (keys d)
  /\ count_of k (fold_left (tally_relation tn) rels d)
     = (count_of k d + occurrences k names)%Z.
Proof.
  revert d. induction rels as [|rel rels IH]; intros d; cbn zeta.
  - simpl. unfold occurrences. simpl. split; [reflexivity | lia].
  - cbn [fold_left flat_map].
    destruct (IH (tally_relation tn d rel)) as [IHk IHc].
    destruct (tally_relation_spec tn d rel k) as [Hk Hc].
    rewrite IHk, IHc, Hk, Hc, fold_add_key_app, occurrences_app.
    split; [reflexivity | lia].
Qed.

Lemma tally_records_spec tn records d k :
  keys (fold_left (tally_record tn) records d)
  = fold_left add_key (flat_map record_relation_names records) (keys d)
  /\ count_of k (fold_left (tally_record tn) records d)
     = (count_of k d
        + occurrences k (flat_map record_relation_names records))%Z.
Proof.
  revert d. induction records as [|[r|] rs IH]; intros d.
  - simpl. unfold occurrences. simpl. split; [reflexivity | lia].
  - cbn [fold_left flat_map tally_record record_relation_names].
    destruct (IH (fold_left (tally_relation tn) (r_relations r) d))
      as [IHk IHc].
    destruct (tally_relations_spec tn (r_relations r) d k) as [Hk Hc].
    rewrite IHk, IHc, Hk, Hc, fold_add_key_app, occurrences_app.
    split; [reflexivity | unfold relation_names; lia].
  - cbn [fold_left flat_map tally_record record_relation_names app].
    apply IH.
Qed.

Lemma tally_types_spec recs d k :
  keys (fold_left tally_type recs d)
  = fold_left add_key (relation_scan recs) (keys d)
  /\ count_of k (fold_left tally_type recs d)
     = (count_of k d + occurrences k (relation_scan recs))%Z.
Proof.
  unfold relation_scan.
  revert d. induction recs as [|[tn records] recs IH]; intros d.
  - simpl. unfold occurrences. simpl. split; [reflexivity | lia].
  - cbn [fold_left flat_map snd]. unfold tally_type at 2 4. cbn [fst snd].
    destruct (IH (fold_left (tally_record tn) records d)) as [IHk IHc].
    destruct (tally_records_spec tn records d k) as [Hk Hc].
    rewrite IHk, IHc, Hk, Hc, fold_add_key_app, occurrences_app.
    split; [reflexivity | lia].
Qed.

(** The catalog has one entry for each relation name met, in the order
    in which the names are first met, with the number of times the name
    is met. *)
Lemma relation_data_spec recs :
  let relation_data := fold_left tally_type recs [] in
  keys relation_data = dedup_first_seen (relation_scan recs)
  /\ forall k a, get k relation_data = Some a ->
                 ra_count a = occurrences k (relation_scan recs).
Proof.
  cbn zeta. split.
  - destruct (tally_types_spec recs [] EmptyString) as [-> _].
    rewrite fold_add_key. simpl. now rewrite filter_true.
  - intros k a G. destruct (tally_types_spec recs [] k) as [_ H].
    unfold count_of in H. rewrite G in H. simpl in H. lia.
Qed.

Lemma fold_set_fresh {A V} (kf : A -> string) (vf : A -> V) l pre :
  NoDup (keys pre ++ map kf l) ->
  fold_left (fun d x => set (kf x) (vf x) d) l pre
  = pre ++ map (fun x => (kf x, vf x)) l.
Proof.
  revert pre. induction l as [|x l IH]; intros pre ND; simpl.
  - now rewrite app_nil_r.
  - rewrite IH.
    + assert (Hn : get (kf x) pre = None).
      { apply get_None_keys. simpl in ND. apply NoDup_remove_2 in ND.
        rewrite in_app_iff in ND. tauto. }
      assert (set (kf x) (vf x) pre = pre ++ [(kf x, vf x)]) as ->.
      { clear - Hn. induction pre as [|[k0 v0] pre IH]; simpl in *;
          [reflexivity|].
        destruct (String.eqb k0 (kf x)); [discriminate|]. now rewrite IH. }
      now rewrite <- app_assoc.
    + rewrite keys_set.
      assert (M : mem (kf x) (keys pre) = false).
      { apply mem_false. simpl in ND. apply NoDup_remove_2 in ND.
        rewrite in_app_iff in ND. tauto. }
      rewrite M, <- app_assoc. exact ND.
Qed.

Lemma analyze_relations_catalog its recs :
  relation_types (_analyze_relations (analyzed its recs))
  = map (fun e => (fst e, relation_info_of e))
        (fold_left tally_type recs []).
Proof.
  unfold _analyze_relations, analyzed. cbn [relation_types all_records_by_type].
  rewrite (fold_set_fresh fst relation_info_of); [reflexivity|].
  simpl. fold (keys (fold_left tally_type recs [])).
  destruct (relation_data_spec recs) as [-> _]. apply dedup_NoDup.
Qed.

Lemma In_get {V} k (v : V) d : NoDup (keys d) -> In (k, v) d -> get k d = Some v.
Proof.
  induction d as [|[k0 v0] d IH]; simpl; intros ND H; [contradiction|].
  inversion ND as [|? ? Hn Hd]; subst.
  destruct H as [[= -> ->]|H].
  - now rewrite String.eqb_refl.
  - destruct (String.eqb_spec k0 k) as [->|N]; [|auto].
    exfalso. apply Hn. unfold keys. now apply (in_map fst) in H.
Qed.

Lemma catalog_spec its recs :
  let catalog :=
    values (relation_types (_analyze_relations (analyzed its recs))) in
  map relationType catalog = dedup_first_seen (relation_scan recs)
  /\ (forall r, In r catalog ->
                rt_count r = occurrences (relationType r) (relation_scan recs))
  /\ NoDup catalog.
Proof.
  cbn zeta. rewrite analyze_relations_catalog.
  destruct (relation_data_spec recs) as [Hk Hc]. cbn zeta in Hk, Hc.
  assert (Hv : values (map (fun e : string * relation_acc =>
                              (fst e, relation_info_of e))
                           (fold_left tally_type recs []))
               = map relation_info_of (fold_left tally_type recs [])).
  { unfold values. rewrite map_map. reflexivity. }
  rewrite Hv. clear Hv.
  assert (Hnames : map relationType
                     (map relation_info_of (fold_left tally_type recs []))
                   = dedup_first_seen (relation_scan recs)).
  { rewrite map_map. cbn [relation_info_of relationType]. exact Hk. }
  repeat split.
  - exact Hnames.
  - intros r Hr. apply in_map_iff in Hr as ([k a] & <- & Hin). simpl.
    apply Hc, In_get; [|assumption]. rewrite Hk. apply dedup_NoDup.
  - apply (NoDup_map_inv relationType). rewrite Hnames. apply dedup_NoDup.
Qed.

(* ================================================================= *)
(** * Properties *)

(** ** Field names *)

(** C10: normalizing a normalized key returns it unchanged. *)
Theorem normalize_field_name_idempotent (name : string) :
  _normalize_field_name (_normalize_field_name name)
  = _normalize_field_name name.
Proof.
  unfold _normalize_field_name.
  induction name as [|c s IH]; simpl; [reflexivity|].
  rewrite IH. f_equal.
  destruct (Ascii.eqb c " ") eqn:E; [reflexivity|].
  now rewrite E.
Qed.

(** ** Value domains *)

Lemma dedup_nonempty l : l <> [] -> dedup_first_seen l <> [].
Proof. destruct l; simpl; congruence. Qed.

Lemma truncate_value_canonical v : truncate_value v = canonical v.
Proof. reflexivity. Qed.

(** [_compute_value_samples] against the reference: the canonical
    strings deduplicated in first-seen order, sorted when they are at most
    25, cut to the first 5 otherwise; nothing for richText. *)
Lemma compute_value_samples_spec (values : list value)
    (data_type : string) :
  let unique := dedup_first_seen (map canonical values) in
  (data_type <> "richText" ->
     (List.length unique <= 25 ->
        exists enumerated,
          _compute_value_samples values data_type = (enumerated, [])
          /\ Permutation enumerated unique
          /\ StronglySorted str_le enumerated)
     /\ (25 < List.length unique ->
           _compute_value_samples values data_type
           = ([], firstn 5 unique)))
  /\ (data_type = "richText" ->
        _compute_value_samples values data_type = ([], [])).
Proof.
  intros unique. unfold _compute_value_samples. split.
  - intros Hdt. apply String.eqb_neq in Hdt. rewrite Hdt.
    rewrite fromkeys_dedup.
    rewrite (map_ext _ _ truncate_value_canonical). fold unique.
    destruct values as [|v values]; simpl is_nil; cbv iota.
    + split; [|simpl; lia]. intros _. exists []. repeat split; constructor.
    + unfold MAX_UNIQUE_VALUES, MAX_SAMPLE_VALUES. split; intros H.
      * apply Nat.leb_le in H. rewrite H.
        exists (sorted String.leb unique).
        destruct (sorted_strings unique). auto.
      * apply Nat.leb_gt in H. now rewrite H.
  - intros ->. simpl. now destruct (is_nil values).
Qed.

Lemma samples_field_info_of records k data :
  (uniqueValues (field_info_of records k data),
   exampleValues (field_info_of records k data))
  = _compute_value_samples (fa_values data) (resolve_data_type k data).
Proof.
  unfold field_info_of. now destruct (_compute_value_samples _ _).
Qed.

Lemma dataType_field_info_of records k data :
  dataType (field_info_of records k data) = resolve_data_type k data.
Proof.
  unfold field_info_of. now destruct (_compute_value_samples _ _).
Qed.

Lemma isCustomField_field_info_of records k data :
  isCustomField (field_info_of records k data) = fa_isCustom data.
Proof.
  unfold field_info_of. now destruct (_compute_value_samples _ _).
Qed.

(** C3: for an inferred field that is not richText, with [unique] the
    canonical strings of its observed values (strings cut to 100
    characters, other values stringified) deduplicated in first-seen
    order: when [unique] has at most 25 members the enumerated values are
    [unique] sorted ascending and there are no example values; when it
    has more than 25 the example values are its first 5 members in
    first-seen order and there are no enumerated values.  For a richText
    field both lists are empty. *)
Theorem value_domain_of_field (records : list (item record)) (k : string)
    (info : FieldInfo) :
  get k (inferred_fields records) = Some info ->
  let unique := dedup_first_seen (map canonical (observations k records)) in
  (dataType info <> "richText" ->
     (List.length unique <= 25 ->
        exampleValues info = []
        /\ Permutation (uniqueValues info) unique
        /\ StronglySorted str_le (uniqueValues info))
     /\ (25 < List.length unique ->
           uniqueValues info = []
           /\ exampleValues info = firstn 5 unique))
  /\ (dataType info = "richText" ->
        uniqueValues info = [] /\ exampleValues info = []).
Proof.
  intros G unique.
  pose proof (inferred_field_spec records k) as H. rewrite G in H.
  destruct H as (data & -> & Hv & _ & _).
  pose proof (samples_field_info_of records k data) as Hs.
  rewrite dataType_field_info_of. rewrite Hv in Hs.
  destruct (compute_value_samples_spec (observations k records)
              (resolve_data_type k data)) as [Hn Hr].
  fold unique in Hn. split.
  - intros Hdt. destruct (Hn Hdt) as [Hle Hgt]. split; intros Hlen.
    + destruct (Hle Hlen) as (e & He & HP & HS).
      rewrite He in Hs. injection Hs as -> ->. auto.
    + rewrite (Hgt Hlen) in Hs. injection Hs as -> ->. auto.
  - intros Hdt. rewrite (Hr Hdt) in Hs. injection Hs as -> ->. auto.
Qed.

Lemma value_domain_of_field_witness :
  exists info,
    get "Status" (inferred_fields
                    [ requirement "Login" "REQ-1" "Open" [];
                      requirement "Audit" "REQ-3" "Closed" [];
                      requirement "Logout" "REQ-2" "Open" [] ]) = Some info
    /\ exampleValues info = []
    /\ Permutation (uniqueValues info) ["Open"; "Closed"]
    /\ StronglySorted str_le (uniqueValues info).
Proof.
  eexists. split; [reflexivity|].
  refine (proj1 (proj1 (value_domain_of_field
                          [ requirement "Login" "REQ-1" "Open" [];
                            requirement "Audit" "REQ-3" "Closed" [];
                            requirement "Logout" "REQ-2" "Open" [] ]
                          "Status" _ eq_refl) _) _).
  - discriminate.
  - simpl. lia.
Defined.

(** ** Field classification *)

Lemma plain_short_not_rich v : plain_short v = true -> rich_value v = false.
Proof.
  destruct v as [| |?|s]; try discriminate.
  unfold plain_short, rich_value.
  rewrite andb_true_iff, Nat.ltb_lt, forallb_forall. intros [Hlen Htags].
  apply orb_false_iff. split.
  - apply not_true_is_false. rewrite existsb_exists.
    intros (tag & Hin & Hc). apply Htags in Hin. rewrite Hc in Hin.
    discriminate.
  - apply Nat.ltb_ge. lia.
Qed.

Lemma no_rich_value_among values :
  forallb plain_short values = true ->
  existsb rich_value (firstn 10 values) = false.
Proof.
  intros H. apply not_true_is_false. rewrite existsb_exists.
  intros (v & Hin & Hr). apply In_firstn in Hin.
  rewrite forallb_forall in H. apply H, plain_short_not_rich in Hin.
  congruence.
Qed.

Lemma resolve_data_type_cases field_key data :
  let t := resolve_data_type field_key data in
  (t = "richText" /\ _is_rich_text_field field_key (fa_values data) = true)
  \/ (_is_rich_text_field field_key (fa_values data) = false
      /\ (t = "number" \/ t = "datetime" \/ t = "boolean" \/ t = "string")).
Proof.
  unfold resolve_data_type.
  destruct (_is_rich_text_field field_key (fa_values data)); [now left|].
  right. split; [reflexivity|].
  destruct (mem "number" (fa_types data)); [tauto|].
  destruct (mem "date" (fa_types data) || mem "datetime" (fa_types data));
    [tauto|].
  destruct (mem "boolean" (fa_types data)); tauto.
Qed.

Lemma value_samples_nonempty values data_type :
  values <> [] -> data_type <> "richText" ->
  fst (_compute_value_samples values data_type) <> []
  \/ snd (_compute_value_samples values data_type) <> [].
Proof.
  intros Hv Hdt. unfold _compute_value_samples.
  destruct values as [|v values]; [congruence|]. simpl is_nil. cbv iota.
  apply String.eqb_neq in Hdt. rewrite Hdt, fromkeys_dedup.
  set (u := dedup_first_seen _).
  assert (Hu : u <> []) by (apply dedup_nonempty; discriminate).
  destruct (List.length u <=? MAX_UNIQUE_VALUES) eqn:E; cbn [fst snd].
  - left. intros H. apply Hu, length_zero_iff_nil.
    now rewrite <- (sorted_length String.leb), H.
  - right. apply Nat.leb_gt in E. unfold MAX_UNIQUE_VALUES in E.
    destruct u; [simpl in E; lia | discriminate].
Qed.

(** The name test replaces the underscores of the key by spaces before
    it looks for the patterns, so the pattern "root_cause" never
    matches. *)
Lemma root_cause_field_info (records : list (item record))
    (data : field_acc) :
  fa_isCustom data = true ->
  fa_values data <> [] ->
  forallb plain_short (fa_values data) = true ->
  let info := field_info_of records "Root_Cause" data in
  dataType info <> "richText"
  /\ access info = [("plain", "fieldValue.Root_Cause")]
  /\ (uniqueValues info <> [] \/ exampleValues info <> []).
Proof.
  intros Hc Hv Hp info.
  assert (Hr : _is_rich_text_field "Root_Cause" (fa_values data) = false).
  { unfold _is_rich_text_field.
    replace (rich_name "Root_Cause") with false by reflexivity.
    now apply no_rich_value_among. }
  assert (Hdt : resolve_data_type "Root_Cause" data <> "richText").
  { destruct (resolve_data_type_cases "Root_Cause" data)
      as [[_ H]|[_ [H|[H|[H|H]]]]]; [congruence| | | |];
      simpl in H; rewrite H; discriminate. }
  pose proof (value_samples_nonempty _ _ Hv Hdt) as Hs.
  subst info. unfold field_info_of.
  destruct (_compute_value_samples _ _) as [u e]. simpl in *.
  rewrite Hc. repeat split; try assumption.
  unfold _compute_access_paths.
  apply String.eqb_neq in Hdt. now rewrite Hdt.
Qed.

(** C1 (what the code does instead): an inferred custom field with key
    "Root_Cause" whose observed values are all strings under 500
    characters without HTML markers is not richText, has the plain access
    path only, and has a value domain that is not empty. *)
Theorem root_cause_not_rich_text (records : list (item record))
    (info : FieldInfo) :
  get "Root_Cause" (inferred_fields records) = Some info ->
  isCustomField info = true ->
  forallb plain_short (observations "Root_Cause" records) = true ->
  dataType info <> "richText"
  /\ access info = [("plain", "fieldValue.Root_Cause")]
  /\ (uniqueValues info <> [] \/ exampleValues info <> []).
Proof.
  intros G Hc Hp.
  pose proof (inferred_field_spec records "Root_Cause") as H.
  rewrite G in H. destruct H as (data & -> & Hv & Hne & _).
  rewrite isCustomField_field_info_of in Hc.
  apply root_cause_field_info; rewrite ?Hv; assumption.
Qed.

Lemma root_cause_not_rich_text_witness :
  exists info,
    get "Root_Cause"
        (inferred_fields
           [ Dict (mk_record (VStr "Outage") VNone VNone VNone
                     [ entry "Root Cause" (VStr "Disk full") "string" ]
                     []) ]) = Some info
    /\ dataType info <> "richText"
    /\ access info = [("plain", "fieldValue.Root_Cause")].
Proof.
  eexists. split; [reflexivity|].
  destruct (root_cause_not_rich_text
              [ Dict (mk_record (VStr "Outage") VNone VNone VNone
                        [ entry "Root Cause" (VStr "Disk full") "string" ]
                        []) ]
              _ eq_refl eq_refl eq_refl) as (Hd & Ha & _).
  split; assumption.
Defined.

(** ** Order of the records *)

Lemma existsb_perm {A} (p : A -> bool) l1 l2 :
  Permutation l1 l2 -> existsb p l1 = existsb p l2.
Proof.
  intros H. induction H; simpl; try congruence.
  now destruct (p x), (p y).
Qed.

Lemma filter_perm {A} (p : A -> bool) l1 l2 :
  Permutation l1 l2 -> Permutation (filter p l1) (filter p l2).
Proof.
  intros H. induction H; simpl.
  - constructor.
  - destruct (p x); [now constructor | assumption].
  - destruct (p x), (p y); try reflexivity. apply perm_swap.
  - etransitivity; eassumption.
Qed.

(** When fewer than [n] members fail [p], the first [n] members decide
    whether any member passes [p]. *)
Lemma existsb_firstn {A} (p : A -> bool) n l :
  List.length (filter (fun x => negb (p x)) l) < n ->
  existsb p (firstn n l) = existsb p l.
Proof.
  intros H.
  destruct (existsb p (firstn n l)) eqn:E.
  - symmetry. apply existsb_exists. apply existsb_exists in E.
    destruct E as (x & Hin & Hp). exists x. split; [|assumption].
    now apply In_firstn in Hin.
  - assert (Hall : filter (fun x => negb (p x)) (firstn n l) = firstn n l).
    { apply forallb_filter_id. apply forallb_forall. intros x Hx.
      apply negb_true_iff, not_true_is_false. intros Hp.
      apply not_true_iff_false in E. apply E, existsb_exists. eauto. }
    assert (Hlen : List.length (firstn n l)
                   <= List.length (filter (fun x => negb (p x)) l)).
    { rewrite <- Hall at 1. rewrite <- (firstn_skipn n l) at 2.
      rewrite filter_app, length_app. lia. }
    rewrite length_firstn in Hlen.
    rewrite firstn_all2 in E by lia. now rewrite E.
Qed.

Lemma observations_perm k rs1 rs2 :
  Permutation rs1 rs2 ->
  Permutation (observations k rs1) (observations k rs2).
Proof. apply Permutation_flat_map. Qed.

Lemma hints_perm k rs1 rs2 :
  Permutation rs1 rs2 -> Permutation (hints k rs1) (hints k rs2).
Proof. apply Permutation_flat_map. Qed.

Lemma mem_ext x l1 l2 :
  (forall t, In t l1 <-> In t l2) -> mem x l1 = mem x l2.
Proof.
  intros H. destruct (mem x l2) eqn:E.
  - apply mem_In. apply mem_In in E. now apply H.
  - apply mem_false. apply mem_false in E. now rewrite H.
Qed.

(** C2 (counterexample): two orderings of the same eleven records, one
    value with markup among them; the field is richText when that value
    is among the first ten observed and a string when it is the
    eleventh. *)
Lemma data_type_depends_on_order :
  Permutation markup_first markup_last
  /\ data_type_of markup_first "Remark" = Some "richText"
  /\ data_type_of markup_last "Remark" = Some "string".
Proof.
  split; [|split; reflexivity].
  unfold markup_first, markup_last. apply Permutation_cons_append.
Qed.

Lemma data_type_perm rs1 rs2 k :
  Permutation rs1 rs2 ->
  rich_name k = true
  \/ existsb rich_value (observations k rs1) = false
  \/ List.length (filter (fun v => negb (rich_value v)) (observations k rs1))
     < 10 ->
  data_type_of rs1 k = data_type_of rs2 k.
Proof.
  intros HP Hc. unfold data_type_of.
  pose proof (observations_perm k _ _ HP) as Hobs.
  pose proof (hints_perm k _ _ HP) as Hh.
  pose proof (inferred_field_spec rs1 k) as H1.
  pose proof (inferred_field_spec rs2 k) as H2.
  destruct (get k (inferred_fields rs1)) as [i1|],
           (get k (inferred_fields rs2)) as [i2|]; simpl.
  - destruct H1 as (d1 & -> & Hv1 & _ & Ht1).
    destruct H2 as (d2 & -> & Hv2 & _ & Ht2).
    rewrite !dataType_field_info_of. f_equal.
    unfold resolve_data_type.
    assert (Ht : forall t, In t (fa_types d1) <-> In t (fa_types d2)).
    { intros t. rewrite Ht1, Ht2. split; apply Permutation_in;
        [assumption | now apply Permutation_sym]. }
    rewrite !(mem_ext _ _ _ Ht).
    replace (_is_rich_text_field k (fa_values d2))
      with (_is_rich_text_field k (fa_values d1)); [reflexivity|].
    unfold _is_rich_text_field. rewrite Hv1, Hv2.
    destruct Hc as [->|[Hn|Hn]]; [reflexivity| |].
    + destruct (rich_name k); [reflexivity|].
      assert (Hn2 : existsb rich_value (observations k rs2) = false)
        by now rewrite <- (existsb_perm _ _ _ Hobs).
      transitivity false; [|symmetry]; apply not_true_is_false;
        rewrite existsb_exists; intros (v & Hin & Hr);
        apply In_firstn in Hin.
      * apply not_true_iff_false in Hn. apply Hn, existsb_exists. eauto.
      * apply not_true_iff_false in Hn2. apply Hn2, existsb_exists. eauto.
    + destruct (rich_name k); [reflexivity|].
      rewrite !existsb_firstn; [now apply existsb_perm | | assumption].
      now rewrite <- (Permutation_length (filter_perm _ _ _ Hobs)).
  - destruct H1 as (d1 & _ & _ & Hne & _). rewrite H2 in Hobs.
    apply Permutation_sym, Permutation_nil in Hobs. contradiction.
  - destruct H2 as (d2 & _ & _ & Hne & _). rewrite H1 in Hobs.
    apply Permutation_nil in Hobs. contradiction.
  - reflexivity.
Qed.

Lemma hinted_type_ext hs1 hs2 :
  (forall h, In h hs1 <-> In h hs2) -> hinted_type hs1 = hinted_type hs2.
Proof.
  intros H. unfold hinted_type, any_hint.
  change (existsb (String.eqb ?h) ?l) with (mem h l).
  now rewrite !(mem_ext _ _ _ H).
Qed.

(** The whole cascade, read off the observations and the hints of the
    key. *)
Lemma data_type_of_spec records k t :
  data_type_of records k = Some t ->
  (t = "richText"
   <-> rich_name k = true
       \/ existsb rich_value (firstn 10 (observations k records)) = true)
  /\ (t <> "richText" -> t = hinted_type (hints k records)).
Proof.
  unfold data_type_of. pose proof (inferred_field_spec records k) as H.
  destruct (get k (inferred_fields records)) as [info|]; [|discriminate].
  destruct H as (d & -> & Hv & _ & Ht). cbn [option_map].
  rewrite dataType_field_info_of. intros [= <-].
  assert (E : hinted_type (fa_types d) = hinted_type (hints k records))
    by now apply hinted_type_ext.
  assert (R : _is_rich_text_field k (fa_values d) = true
              <-> rich_name k = true
                  \/ existsb rich_value (firstn 10 (observations k records))
                     = true).
  { unfold _is_rich_text_field. rewrite Hv.
    destruct (rich_name k); [tauto|]. split; [tauto|].
    intros [D|D]; [discriminate | assumption]. }
  assert (C : resolve_data_type k d
              = if _is_rich_text_field k (fa_values d) then "richText"
                else hinted_type (fa_types d)) by reflexivity.
  rewrite C, <- R, E.
  destruct (_is_rich_text_field k (fa_values d)).
  - split; [tauto | congruence].
  - split; [|reflexivity].
    unfold hinted_type.
    destruct (any_hint "number" _); [split; discriminate|].
    destruct (any_hint "date" _ || any_hint "datetime" _);
      [split; discriminate|].
    destruct (any_hint "boolean" _); split; discriminate.
Qed.

(** C2 (amended): two orderings of the same records give every field the
    same data type, provided the key of the field matches a semantic
    pattern, or none of its observed values is rich (markup or more than
    500 characters), or fewer than 10 of its observed values are not
    rich.  Outside these cases the rich-text test reads the first 10
    observed values only: a field is richText exactly when its key
    matches a pattern or one of its first 10 observed values is rich.
    The rest of the cascade depends on the set of the declared type
    hints only: a field that is not richText has the type that the
    priority list gives to its hints, so that two fields, of any two
    lists of records, that are not richText and have the same set of
    hints have the same data type. *)
Theorem data_type_order_independent (rs1 rs2 : list (item record))
    (k : string) :
  (Permutation rs1 rs2 ->
   rich_name k = true
   \/ existsb rich_value (observations k rs1) = false
   \/ List.length (filter (fun v => negb (rich_value v))
                          (observations k rs1)) < 10 ->
   data_type_of rs1 k = data_type_of rs2 k)
  /\ (forall t, data_type_of rs1 k = Some t ->
        (t = "richText"
         <-> rich_name k = true
             \/ existsb rich_value (firstn 10 (observations k rs1)) = true)
        /\ (t <> "richText" -> t = hinted_type (hints k rs1)))
  /\ (forall t1 t2,
        data_type_of rs1 k = Some t1 -> data_type_of rs2 k = Some t2 ->
        t1 <> "richText" -> t2 <> "richText" ->
        (forall h, In h (hints k rs1) <-> In h (hints k rs2)) ->
        t1 = t2).
Proof.
  split; [|split].
  - apply data_type_perm.
  - apply data_type_of_spec.
  - intros t1 t2 H1 H2 N1 N2 Hh.
    apply data_type_of_spec in H1 as [_ H1].
    apply data_type_of_spec in H2 as [_ H2].
    rewrite (H1 N1), (H2 N2). now apply hinted_type_ext.
Qed.

Lemma data_type_order_independent_witness :
  data_type_of [remark_record "<p>see log</p>"; remark_record "ok"] "Remark"
  = data_type_of [remark_record "ok"; remark_record "<p>see log</p>"]
      "Remark"
  /\ "string"
     = hinted_type
         (hints "Remark" [remark_record "ok"; remark_record "fine"]).
Proof.
  split.
  - apply (proj1 (data_type_order_independent
                    [remark_record "<p>see log</p>"; remark_record "ok"]
                    [remark_record "ok"; remark_record "<p>see log</p>"]
                    "Remark")).
    + apply perm_swap.
    + right. right. simpl. lia.
  - apply (proj1 (proj2 (data_type_order_independent
                           [remark_record "ok"; remark_record "fine"]
                           [] "Remark")) "string").
    + reflexivity.
    + discriminate.
Defined.

(** ** Full fetch: dropped types *)

(** C7: a discovered type whose full fetch returns no records (a failed
    call, or an empty record list) is absent from the type map after the
    fetch, and the fetch and the whole output, the summary totals
    included, are those of a run in which the type was never discovered;
    the type is not in the item-type map of the output; every other
    discovered type whose fetch returns records is kept with its
    records. *)
Theorem dropped_type_absent (q : string -> option response)
    (st : extractor) (name : string) (t : ItemTypeInfo) :
  wf (item_types st) = true ->
  get name (item_types st) = Some t ->
  fetched_records q t = [] ->
  get name (item_types (_fetch_records_by_type q st)) = None
  /\ _fetch_records_by_type q st
     = _fetch_records_by_type q (without_type name st)
  /\ extract q st = extract q (without_type name st)
  /\ (forall out, extract q st = Ok out -> get name (itemTypes out) = None)
  /\ (forall n' t',
        get n' (item_types st) = Some t' ->
        fetched_records q t' <> [] ->
        get n' (item_types (_fetch_records_by_type q st))
        = Some (fetched_type q t')
        /\ get n' (all_records_by_type (_fetch_records_by_type q st))
           = Some (fetched_records q t')).
Proof.
  intros W G E.
  pose proof (proj1 (wf_NoDup _) W) as ND.
  assert (W' : wf (item_types (without_type name st)) = true).
  { apply wf_NoDup. simpl. now apply del_NoDup. }
  assert (Hsame : _fetch_records_by_type q st
                  = _fetch_records_by_type q (without_type name st)).
  { rewrite !fetch_records_by_type_spec by assumption. simpl.
    now destruct (kept_del q _ _ _ ND G E) as [-> ->]. }
  rewrite fetch_records_by_type_spec by assumption. simpl.
  repeat split.
  - rewrite get_kept_types, G, E by assumption. reflexivity.
  - rewrite <- fetch_records_by_type_spec by assumption. exact Hsame.
  - unfold extract. now rewrite Hsame.
  - intros out Hout. apply get_None_keys. intros Hin.
    apply (output_type_names q st out name Hout) in Hin.
    rewrite fetch_records_by_type_spec in Hin by assumption.
    apply get_Some_keys_inv in Hin as [t' Ht'].
    simpl in Ht'. rewrite get_kept_types, G, E in Ht' by assumption.
    discriminate.
  - rewrite get_kept_types, H by assumption.
    now destruct (fetched_records q t').
  - rewrite get_kept_records, H by assumption.
    now destruct (fetched_records q t').
Qed.

Lemma dropped_type_absent_witness :
  get "Anomaly"
      (item_types (_fetch_records_by_type sample_query sample_project))
  = None
  /\ get "Test Case"
         (item_types (_fetch_records_by_type sample_query sample_project))
     = None.
Proof.
  split.
  - exact (proj1 (dropped_type_absent sample_query sample_project "Anomaly"
                    (new_ItemTypeInfo "Anomaly" "type:Anomaly")
                    eq_refl eq_refl eq_refl)).
  - exact (proj1 (dropped_type_absent sample_query sample_project "Test Case"
                    (new_ItemTypeInfo "Test Case"
                       ("type:" ++ dquote ++ "Test Case" ++ dquote))
                    eq_refl eq_refl eq_refl)).
Defined.

(** ** Short prefix *)

Lemma prefix_dash c s :
  String.prefix "-" (String c s) = Ascii.eqb c "-".
Proof.
  change (String.prefix "-" (String c s))
    with (if ascii_dec "-" c then String.prefix EmptyString s else false).
  destruct (ascii_dec "-" c) as [<-|N].
  - now destruct s.
  - symmetry. apply Ascii.eqb_neq. congruence.
Qed.

Lemma prefix_before_separator_split s :
  prefix_before_separator s
  = if contains "-" s then Some (split_head "-" s) else None.
Proof.
  induction s as [|c s IH]; [reflexivity|].
  cbn [contains prefix_before_separator split_head].
  rewrite prefix_dash, IH.
  destruct (Ascii.eqb c "-"); [reflexivity|]. simpl.
  now destruct (contains "-" s).
Qed.

Lemma falsy_no_separator v : truthy v = false -> contains "-" (str v) = false.
Proof.
  destruct v as [|[|]|n|s]; simpl; try reflexivity; try discriminate.
  - rewrite negb_false_iff, Z.eqb_eq. now intros ->.
  - rewrite negb_false_iff, String.eqb_eq. now intros ->.
Qed.

Lemma accepted_nonempty p : accepted_prefix p = true -> p <> EmptyString.
Proof. intros H ->. discriminate. Qed.

Lemma first_accepted_app vs1 vs2 :
  first_accepted (vs1 ++ vs2)
  = if String.eqb (first_accepted vs1) EmptyString then first_accepted vs2
    else first_accepted vs1.
Proof.
  induction vs1 as [|v vs1 IH]; simpl; [reflexivity|].
  destruct (prefix_before_separator (str v)) as [p|]; [|assumption].
  destruct (accepted_prefix p) eqn:E; [|assumption].
  apply accepted_nonempty, String.eqb_neq in E. now rewrite E.
Qed.

Lemma short_name_of_fields_spec fs s :
  short_name_of_fields fs s
  = if String.eqb (first_accepted (ids_of_fields fs)) EmptyString then s
    else first_accepted (ids_of_fields fs).
Proof.
  induction fs as [|[f|] fs IH]; [reflexivity| |exact IH].
  cbn [short_name_of_fields ids_of_fields flat_map].
  destruct (label_is f "ID"); [|exact IH].
  cbn [app first_accepted]. rewrite prefix_before_separator_split.
  destruct (truthy (fo_value f)) eqn:T; cbn [andb].
  - destruct (contains "-" (str (fo_value f))); [|exact IH].
    set (p := split_head "-" (str (fo_value f))).
    change (isalpha p && (1 <=? String.length p) && (String.length p <=? 6))
      with (accepted_prefix p).
    destruct (accepted_prefix p) eqn:E; [|exact IH].
    apply accepted_nonempty, String.eqb_neq in E. now rewrite E.
  - rewrite (falsy_no_separator _ T). exact IH.
Qed.

Lemma short_name_of_records_spec rs :
  short_name_of_records rs EmptyString
  = first_accepted
      (flat_map
         (fun record =>
            match record with
            | Dict r => ids_of_fields (r_fields r)
            | NonDict => []
            end)
         rs).
Proof.
  induction rs as [|[r|] rs IH]; [reflexivity| |exact IH].
  cbn [short_name_of_records flat_map].
  rewrite first_accepted_app, short_name_of_fields_spec.
  destruct (String.eqb (first_accepted (ids_of_fields (r_fields r)))
                       EmptyString) eqn:E; simpl.
  - exact IH.
  - now rewrite E.
Qed.

Lemma to_dict_shortName t :
  get "shortName" (ItemTypeInfo_to_dict t)
  = if String.eqb (shortName t) EmptyString then None
    else Some (JStr (shortName t)).
Proof.
  unfold ItemTypeInfo_to_dict.
  destruct (negb (is_nil (incomingRelations t)));
    [rewrite get_set_other by discriminate|];
  (destruct (negb (is_nil (outgoingRelations t)));
    [rewrite get_set_other by discriminate|]);
  (destruct (negb (is_nil (statuses t)));
    [rewrite get_set_other by discriminate|]);
  destruct (String.eqb (shortName t) EmptyString); reflexivity.
Qed.

(** C8: for a type that is kept, with at least one fetched record, the
    short name is the first accepted prefix among the values of the
    field entries labeled "ID" of the first 20 records, in the order of
    the scan: the prefix of a value is the part before its first
    separator, when it has one, and it is accepted exactly when it is
    alphabetic and 1 to 6 characters long.  When no prefix is accepted
    the short name is empty and the output has no "shortName". *)
Theorem short_name_inference (q : string -> option response)
    (st : extractor) (name : string) (t' : ItemTypeInfo) :
  wf (item_types st) = true ->
  (forall n t, get n (item_types st) = Some t -> shortName t = EmptyString) ->
  get name (item_types (_fetch_records_by_type q st)) = Some t' ->
  exists t,
    get name (item_types st) = Some t
    /\ fetched_records q t <> []
    /\ get name (all_records_by_type (_fetch_records_by_type q st))
       = Some (fetched_records q t)
    /\ shortName t' = first_accepted (id_values (fetched_records q t))
    /\ get "shortName" (ItemTypeInfo_to_dict t')
       = if String.eqb (first_accepted (id_values (fetched_records q t)))
                       EmptyString
         then None
         else Some (JStr (first_accepted (id_values (fetched_records q t)))).
Proof.
  intros W Hs G.
  pose proof (proj1 (wf_NoDup _) W) as ND.
  rewrite fetch_records_by_type_spec in * by assumption. simpl in *.
  rewrite get_kept_types in G by assumption.
  destruct (get name (item_types st)) as [t|] eqn:Gt; [|discriminate].
  destruct (is_nil (fetched_records q t)) eqn:E; [discriminate|].
  injection G as <-. exists t.
  assert (Hshort : shortName (fetched_type q t)
                   = first_accepted (id_values (fetched_records q t))).
  { unfold fetched_type. simpl. rewrite (Hs _ _ Gt).
    apply short_name_of_records_spec. }
  repeat split.
  - intros H. now rewrite H in E.
  - now rewrite get_kept_records, Gt, E by assumption.
  - exact Hshort.
  - now rewrite to_dict_shortName, Hshort.
Qed.

(** Every type entry starts with an empty short name. *)
Lemma discovered_shortName type_names n t :
  get n (item_types (discovered type_names)) = Some t ->
  shortName t = EmptyString.
Proof.
  unfold discovered. cbn [item_types].
  assert (H0 : forall n t,
             get n (@nil (string * ItemTypeInfo)) = Some t ->
             shortName t = EmptyString) by discriminate.
  revert H0. generalize (@nil (string * ItemTypeInfo)) as d.
  induction type_names as [|x l IH]; intros d H0; cbn [fold_left].
  - apply H0.
  - apply IH. intros n' t'.
    destruct (String.eqb x EmptyString || String.eqb x "Unknown"); [apply H0|].
    destruct (String.eqb_spec x n') as [<-|N].
    + rewrite get_set_same. now intros [= <-].
    + rewrite get_set_other by assumption. apply H0.
Qed.

Lemma short_name_inference_witness :
  exists t',
    get "Requirement"
        (item_types (_fetch_records_by_type sample_query sample_project))
    = Some t'
    /\ shortName t' = "REQ"
    /\ get "shortName" (ItemTypeInfo_to_dict t') = Some (JStr "REQ").
Proof.
  eexists. split; [reflexivity|].
  destruct (short_name_inference sample_query sample_project "Requirement"
              (fetched_type sample_query
                 (new_ItemTypeInfo "Requirement" "type:Requirement")))
    as (t & Gt & _ & _ & Hs & Hd).
  - reflexivity.
  - exact (discovered_shortName _).
  - reflexivity.
  - unfold sample_project, discovered in Gt. simpl in Gt.
    injection Gt as <-. split; [exact Hs | exact Hd].
Defined.

(** ** Relation catalog *)

(** C6: the catalog has the relation names in the order in which they
    are first met, each with the number of times it is met; the output
    list is the catalog sorted by count, largest first, cut to its first
    20 entries; and of two entries of the output with equal counts, the
    one whose name is met first while the records are scanned stands
    first. *)
Theorem relation_catalog_order (its : od ItemTypeInfo)
    (recs : od (list (item record))) :
  let st := _analyze_relations (analyzed its recs) in
  let catalog := values (relation_types st) in
  let out := firstn 20 (sorted_relations st) in
  map relationType catalog = dedup_first_seen (relation_scan recs)
  /\ (forall r, In r catalog ->
                rt_count r = occurrences (relationType r) (relation_scan recs))
  /\ relationTypes (_build_output st) = map RelationTypeInfo_to_dict out
  /\ Permutation (sorted_relations st) catalog
  /\ StronglySorted (fun a b => (rt_count b <= rt_count a)%Z)
                    (sorted_relations st)
  /\ List.length out <= 20
  /\ (forall i j a b,
        nth_error out i = Some a -> nth_error out j = Some b ->
        rt_count a = rt_count b ->
        first_seen_before (relationType a) (relationType b)
                          (relation_scan recs) ->
        i < j).
Proof.
  intros st catalog out.
  destruct (catalog_spec its recs) as (Hnames & Hcount & ND).
  fold st in Hnames, Hcount, ND. fold catalog in Hnames, Hcount, ND.
  assert (HP : Permutation (sorted_relations st) catalog)
    by apply sorted_perm.
  repeat split; try assumption.
  - apply sorted_by_key_desc_sorted.
  - apply firstn_le_length.
  - intros i j a b Hi Hj Hab Hfs.
    assert (Hia : nth_error (sorted_relations st) i = Some a).
    { unfold out in Hi. rewrite nth_error_firstn in Hi.
      now destruct (i <? 20). }
    assert (Hjb : nth_error (sorted_relations st) j = Some b).
    { unfold out in Hj. rewrite nth_error_firstn in Hj.
      now destruct (j <? 20). }
    assert (Ha : In a catalog)
      by (apply (Permutation_in _ HP); eapply nth_error_In; eassumption).
    assert (Hb : In b catalog)
      by (apply (Permutation_in _ HP); eapply nth_error_In; eassumption).
    assert (Hcat : before a b catalog).
    { destruct (before_total a b catalog Ha Hb) as [H|H].
      - intros ->. now destruct Hfs.
      - assumption.
      - exfalso. apply (before_map relationType) in H. rewrite Hnames in H.
        apply (before_antisym _ _ _ (dedup_NoDup _) H).
        apply first_seen_before_dedup; [assumption|].
        apply dedup_In. rewrite <- Hnames. now apply in_map. }
    apply (before_nth a b (sorted_relations st)); try assumption.
    + apply (Permutation_NoDup (Permutation_sym HP) ND).
    + apply sorted_stable; [assumption|]. apply Z.leb_le. lia.
Qed.

(** ** Fill rate *)

Lemma to_dict_fillRate f :
  get "fillRate" (FieldInfo_to_dict f)
  = if negb (Qle_bool 100 (fillRate f))
    then Some (JStr (format_0f (fillRate f) ++ "%")%string)
    else None.
Proof.
  unfold FieldInfo_to_dict.
  destruct (negb (Qle_bool 100 (fillRate f)));
    [now rewrite get_set_same|].
  destruct (isCustomField f), (negb (is_nil (uniqueValues f))),
    (negb (is_nil (exampleValues f))); reflexivity.
Qed.

Lemma fillRate_field_info_of records k data :
  fillRate (field_info_of records k data)
  = fill_rate (List.length (fa_values data)) (List.length records).
Proof.
  unfold field_info_of. now destruct (_compute_value_samples _ _).
Qed.

Lemma fill_rate_percent n m :
  m <> 0 -> fill_rate n m = percent (Z.of_nat n) (Z.of_nat m).
Proof.
  intros H. unfold fill_rate. apply Nat.eqb_neq in H. now rewrite H.
Qed.

Lemma observations_length k records :
  forallb (present_on k) records = true ->
  List.length records <= List.length (observations k records).
Proof.
  induction records as [|r rs IH]; simpl; [lia|].
  rewrite andb_true_iff, length_app. intros [Hr Hrs].
  unfold present_on in Hr. destruct (record_obs k r); [discriminate|].
  simpl. apply IH in Hrs. lia.
Qed.

(** C4 (counterexample): a field that is on one of the two records of
    its type, three times on that one, has the fill rate 150 and no
    "fillRate" in its serialized form. *)
Lemma fill_rate_omitted_though_absent :
  exists info,
    get "Tag" (inferred_fields tagged_thrice) = Some info
    /\ forallb (present_on "Tag") tagged_thrice = false
    /\ (fillRate info == 150)%Q
    /\ get "fillRate" (FieldInfo_to_dict info) = None.
Proof.
  eexists. split; [reflexivity|]. split; [reflexivity|].
  split; reflexivity.
Qed.

(** C4 (amended): the fill rate of an inferred field is the float
    [observations / records * 100], which for a rate up to 100 is within
    [2^-45] of the rational number; the serialized field has no
    "fillRate" exactly when the field has at least as many observations
    as the type has records, which is so when the field is present on
    every record; otherwise it has the rate formatted as a nearest
    integer followed by "%". *)
Theorem fill_rate_attribute (records : list (item record)) (k : string)
    (info : FieldInfo) :
  get k (inferred_fields records) = Some info ->
  (Z.of_nat (List.length records) <= 2 ^ 53)%Z ->
  let n := List.length (observations k records) in
  let m := List.length records in
  fillRate info = fill_rate n m
  /\ (n <= m ->
      within (1 # 35184372088832) (fillRate info)
             (exact_rate (Z.of_nat n) (Z.of_nat m)))
  /\ (get "fillRate" (FieldInfo_to_dict info) = None <-> m <= n)
  /\ (n < m ->
      exists p,
        get "fillRate" (FieldInfo_to_dict info)
        = Some (JStr (str_of_int p ++ "%")%string)
        /\ nearest_integer p (fillRate info))
  /\ (forallb (present_on k) records = true -> m <= n).
Proof.
  intros G Hm n m.
  pose proof (inferred_field_spec records k) as H. rewrite G in H.
  destruct H as (data & -> & Hv & Hne & _).
  assert (Hrate : fillRate (field_info_of records k data) = fill_rate n m).
  { rewrite fillRate_field_info_of, Hv. reflexivity. }
  assert (Hm0 : m <> 0).
  { unfold m. destruct records; [|discriminate]. now contradiction Hne. }
  assert (Hlt : (fill_rate n m < 100)%Q <-> n < m).
  { rewrite fill_rate_percent by assumption.
    rewrite percent_lt_100 by (fold m in Hm; lia). lia. }
  rewrite to_dict_fillRate, Hrate.
  split; [reflexivity|]. split.
  { intros Hnm. rewrite fill_rate_percent by assumption.
    apply percent_error; lia. }
  repeat split.
  - destruct (Qle_bool 100 (fill_rate n m)) eqn:E; simpl; [|discriminate].
    intros _. apply Qle_bool_iff in E.
    destruct (Nat.le_gt_cases m n) as [|Hnm]; [assumption|].
    apply Hlt in Hnm. exfalso. apply (Qlt_not_le _ _ Hnm E).
  - intros Hnm. destruct (Qle_bool 100 (fill_rate n m)) eqn:E;
      [reflexivity|]. exfalso.
    assert (Hr : (fill_rate n m < 100)%Q).
    { apply Qnot_le_lt. intros Hle. apply Qle_bool_iff in Hle. congruence. }
    apply Hlt in Hr. lia.
  - intros Hnm. exists (round_half_even (fill_rate n m)).
    split; [|apply rhe_nearest].
    apply Hlt in Hnm.
    destruct (Qle_bool 100 (fill_rate n m)) eqn:E; [|reflexivity].
    apply Qle_bool_iff in E. exfalso. apply (Qlt_not_le _ _ Hnm E).
  - apply observations_length.
Qed.

Lemma fill_rate_attribute_witness :
  exists info p,
    get "Status" (inferred_fields
                    [ requirement "Login" "REQ-1" "Open" [];
                      pump_record 0 ]) = Some info
    /\ get "fillRate" (FieldInfo_to_dict info)
       = Some (JStr (str_of_int p ++ "%")%string)
    /\ nearest_integer p (fillRate info).
Proof.
  destruct (fill_rate_attribute
              [ requirement "Login" "REQ-1" "Open" []; pump_record 0 ]
              "Status" _ eq_refl) as (_ & _ & _ & H & _).
  - simpl. lia.
  - destruct H as (p & Hp & Hn); [simpl; lia|].
    eexists. exists p. split; [reflexivity|]. split; [exact Hp | exact Hn].
Defined.

(** ** Statuses *)

(** A key without underscores comes from the label that is the key. *)
Lemma replace_fixed old new s t :
  all_chars (fun c => negb (Ascii.eqb c new)) t = true ->
  replace old new s = t -> s = t.
Proof.
  revert t. induction s as [|c s IH]; intros [|d t]; simpl; try congruence.
  rewrite andb_true_iff, negb_true_iff. intros [Hd Ht] [= E1 E2].
  f_equal; [|now apply IH].
  destruct (Ascii.eqb c old); [|assumption].
  subst d. now rewrite Ascii.eqb_refl in Hd.
Qed.

Lemma observed_under_Status f :
  observed_under "Status" f = label_is f "Status" && present (fo_value f).
Proof.
  unfold observed_under, label_is, label_or_empty.
  destruct (fo_label f) as [l|]; [|reflexivity].
  destruct (String.eqb_spec l "Status") as [->|N].
  - now rewrite andb_true_r.
  - rewrite andb_false_l.
    destruct (String.eqb_spec (_normalize_field_name l) "Status") as [E|];
      [|apply andb_false_r].
    apply replace_fixed in E; [contradiction | reflexivity].
Qed.

Lemma record_obs_Status r :
  record_obs "Status" (Dict r) = filter present (status_values r).
Proof.
  unfold record_obs, custom_obs, status_values.
  change (standard_obs "Status" r) with (@nil value). simpl.
  induction (r_fields r) as [|[f|] fs IH]; simpl; [reflexivity| |exact IH].
  rewrite observed_under_Status, IH, filter_app.
  destruct (label_is f "Status"); simpl; [|reflexivity].
  now destruct (present (fo_value f)).
Qed.

Lemma statuses_of_record_values r sts :
  statuses_of_record r sts
  = fold_left
      (fun sts status =>
         if truthy status && negb (in_list status sts)
         then sts ++ [status] else sts)
      (status_values r) sts.
Proof.
  unfold statuses_of_record, status_values.
  revert sts. induction (r_fields r) as [|[f|] fs IH]; intros sts; simpl;
    [reflexivity| |apply IH].
  rewrite fold_left_app, IH.
  now destruct (label_is f "Status").
Qed.

Lemma to_dict_statuses t :
  get "statuses" (ItemTypeInfo_to_dict t)
  = if is_nil (statuses t) then None
    else Some (JList (map json_of_value (statuses t))).
Proof.
  unfold ItemTypeInfo_to_dict.
  destruct (negb (is_nil (incomingRelations t)));
    [rewrite get_set_other by discriminate|];
  (destruct (negb (is_nil (outgoingRelations t)));
    [rewrite get_set_other by discriminate|]);
  (destruct (is_nil (statuses t)); cbn [negb];
    [|now rewrite get_set_same]);
  destruct (negb (String.eqb (shortName t) EmptyString)); reflexivity.
Qed.

(** C5: three records of a type with one field entry labeled "Status"
    each, valued "Open", "Open" and "Closed": the statuses of the type
    are ["Closed", "Open"], the enumerated values of the inferred field
    "Status" are ["Closed", "Open"], and its fill rate is 100, so that
    its serialized form has no "fillRate". *)
Theorem status_scenario (type_info : ItemTypeInfo) (r1 r2 r3 : record) :
  statuses type_info = [] ->
  fields type_info = [] ->
  status_values r1 = [VStr "Open"] ->
  status_values r2 = [VStr "Open"] ->
  status_values r3 = [VStr "Closed"] ->
  exists type_info' info,
    analyze_type type_info [Dict r1; Dict r2; Dict r3] = Ok type_info'
    /\ statuses type_info' = [VStr "Closed"; VStr "Open"]
    /\ get "statuses" (ItemTypeInfo_to_dict type_info')
       = Some (JList [JStr "Closed"; JStr "Open"])
    /\ get "Status" (fields type_info') = Some info
    /\ uniqueValues info = ["Closed"; "Open"]
    /\ exampleValues info = []
    /\ (fillRate info == 100)%Q
    /\ get "fillRate" (FieldInfo_to_dict info) = None.
Proof.
  intros Hs Hf H1 H2 H3.
  set (records := [Dict r1; Dict r2; Dict r3]).
  assert (Hobs : observations "Status" records
                 = [VStr "Open"; VStr "Open"; VStr "Closed"]).
  { unfold observations, records. cbn [flat_map].
    rewrite !record_obs_Status, H1, H2, H3. reflexivity. }
  pose proof (inferred_field_spec records "Status") as Hi.
  destruct (get "Status" (inferred_fields records)) as [info|] eqn:G;
    [|rewrite Hobs in Hi; discriminate].
  destruct Hi as (data & Hinfo & Hv & _ & _). rewrite Hobs in Hv.
  assert (Hsts : extract_statuses records (statuses type_info)
                 = Ok [VStr "Open"; VStr "Closed"]).
  { unfold records. cbn [extract_statuses].
    rewrite !statuses_of_record_values, Hs, H1, H2, H3. reflexivity. }
  unfold analyze_type. rewrite Hsts, Hf. cbn [bind sorted_values].
  fold (inferred_fields records).
  eexists. exists info. split; [reflexivity|].
  assert (Hdt : String.eqb (resolve_data_type "Status" data) "richText"
                = false).
  { destruct (resolve_data_type_cases "Status" data)
      as [[_ H]|[_ [H|[H|[H|H]]]]]; cbn zeta in H.
    - unfold _is_rich_text_field in H. rewrite Hv in H. discriminate.
    - now rewrite H.
    - now rewrite H.
    - now rewrite H.
    - now rewrite H. }
  assert (Hsamples : _compute_value_samples (fa_values data)
                       (resolve_data_type "Status" data)
                     = (["Closed"; "Open"], [])).
  { unfold _compute_value_samples. rewrite Hdt, Hv. reflexivity. }
  assert (Hrate : fillRate info = fill_rate 3 3).
  { rewrite Hinfo, fillRate_field_info_of, Hv. reflexivity. }
  rewrite to_dict_statuses. cbn [statuses fields]. repeat split.
  - assumption.
  - rewrite Hinfo. unfold field_info_of. now rewrite Hsamples.
  - rewrite Hinfo. unfold field_info_of. now rewrite Hsamples.
  - now rewrite Hrate.
  - now rewrite to_dict_fillRate, Hrate.
Qed.

Lemma status_scenario_witness :
  exists type_info' info,
    analyze_type (new_ItemTypeInfo "Requirement" "type:Requirement")
      [ requirement "Login" "REQ-1" "Open" [];
        requirement "Logout" "REQ-2" "Open" [];
        requirement "Audit" "REQ-3" "Closed" [] ]
    = Ok type_info'
    /\ statuses type_info' = [VStr "Closed"; VStr "Open"]
    /\ get "Status" (fields type_info') = Some info
    /\ uniqueValues info = ["Closed"; "Open"]
    /\ get "fillRate" (FieldInfo_to_dict info) = None.
Proof.
  destruct (status_scenario
              (new_ItemTypeInfo "Requirement" "type:Requirement")
              (mk_record (VStr "Login") VNone VNone VNone
                 [ entry "ID" (VStr "REQ-1") "string";
                   entry "Status" (VStr "Open") "string" ] [])
              (mk_record (VStr "Logout") VNone VNone VNone
                 [ entry "ID" (VStr "REQ-2") "string";
                   entry "Status" (VStr "Open") "string" ] [])
              (mk_record (VStr "Audit") VNone VNone VNone
                 [ entry "ID" (VStr "REQ-3") "string";
                   entry "Status" (VStr "Closed") "string" ] [])
              eq_refl eq_refl eq_refl eq_refl eq_refl)
    as (t & info & Ha & Hst & _ & Hg & Hu & _ & _ & Hr).
  exists t, info. repeat split; assumption.
Defined.

(** ** Values that are false or 0 *)

Lemma sample_custom_full fs fields count sample :
  (4 <=? count) = true -> sample_custom fs fields count sample = sample.
Proof.
  intros H. destruct fs; cbn [sample_custom]; [reflexivity | now rewrite H].
Qed.

Lemma observed_In k v records r f :
  In (Dict r) records -> In (Dict f) (r_fields r) ->
  observed_under k f = true -> fo_value f = v ->
  In v (observations k records).
Proof.
  intros Hr Hf Ho <-. unfold observations. apply in_flat_map.
  exists (Dict r). split; [assumption|]. cbn [record_obs].
  apply in_or_app. right. unfold custom_obs. apply in_flat_map.
  exists (Dict f). split; [assumption|]. rewrite Ho. now left.
Qed.

(** C9 (what the code does instead): a field entry whose value is the
    boolean false or the number 0 is observed by the field inference,
    which tests [value is not None and value != ""]: the value is among
    the accumulated values of its key and the key has an inferred field.
    The entry is left out of the sample record, which tests the truth
    value of [value]. *)
Theorem falsy_value_not_sampled (label : string) (hint : option string)
    (v : value) (records : list (item record)) (r : record)
    (fs : list (item field_obj)) (fields : od FieldInfo)
    (count : nat) (sample : od string) :
  label <> EmptyString ->
  v = VBool false \/ v = VInt 0 ->
  In (Dict r) records ->
  In (Dict (mk_field_obj (Some label) v hint)) (r_fields r) ->
  let k := _normalize_field_name label in
  (exists data, get k (collect_field_data records) = Some data
                /\ In v (fa_values data))
  /\ (exists info, get k (inferred_fields records) = Some info)
  /\ sample_custom (Dict (mk_field_obj (Some label) v hint) :: fs)
                   fields count sample
     = sample_custom fs fields count sample.
Proof.
  intros Hl Hv Hr Hf k.
  assert (Hobs : In v (observations k records)).
  { apply (observed_In k v records r _ Hr Hf); [|reflexivity].
    unfold observed_under, k. cbn [label_or_empty fo_label fo_value].
    apply String.eqb_neq in Hl. rewrite Hl, String.eqb_refl.
    now destruct Hv as [-> | ->]. }
  split; [|split].
  - pose proof (collect_field_data_spec k records) as H.
    destruct (get k (collect_field_data records)) as [data|].
    + destruct H as (Hd & _). exists data. now rewrite Hd.
    + rewrite H in Hobs. contradiction.
  - pose proof (inferred_field_spec records k) as H.
    destruct (get k (inferred_fields records)) as [info|]; [eauto|].
    rewrite H in Hobs. contradiction.
  - cbn [sample_custom]. destruct (4 <=? count) eqn:E.
    + symmetry. now apply sample_custom_full.
    + cbn [label_or_empty fo_label fo_value].
      destruct (match get (_normalize_field_name label) fields with
                | Some info => String.eqb (dataType info) "richText"
                | None => false
                end); [reflexivity|].
      destruct Hv as [-> | ->]; cbn [truthy]; simpl;
        now rewrite andb_false_r.
Qed.

Lemma falsy_value_not_sampled_witness :
  (exists info, get "Retries" (inferred_fields [pump_record 0]) = Some info)
  /\ sample_custom [entry "Retries" (VInt 0) "number"] [] 0
                   [("title", "Pump")]
     = [("title", "Pump")].
Proof.
  destruct (falsy_value_not_sampled "Retries" (Some "number") (VInt 0)
              [pump_record 0]
              (mk_record (VStr "Pump") VNone VNone VNone
                 [ entry "Retries" (VInt 0) "number" ] [])
              [] [] 0 [("title", "Pump")]) as (_ & Hi & Hs).
  - discriminate.
  - right. reflexivity.
  - left. reflexivity.
  - left. reflexivity.
  - split; [exact Hi | exact Hs].
Defined.

(** The same on a whole type: the field "Retries" of the one record is
    inferred with the value domain ["0"], and the sample record has the
    title only; with the value 5 the sample record has the field. *)
Example retries_zero_scenario :
  exists type_info' info,
    analyze_type (new_ItemTypeInfo "Part" "type:Part") [pump_record 0]
    = Ok type_info'
    /\ get "Retries" (fields type_info') = Some info
    /\ uniqueValues info = ["0"]
    /\ get "fillRate" (FieldInfo_to_dict info) = None
    /\ sampleRecords type_info' = [[("title", "Pump")]]
    /\ option_map sampleRecords
         (match analyze_type (new_ItemTypeInfo "Part" "type:Part")
                  [pump_record 5] with
          | Ok t => Some t
          | Raise _ => None
          end)
       = Some [[("title", "Pump"); ("Retries", "5")]].
Proof. do 2 eexists. repeat split; reflexivity. Qed.

(** The field "Root Cause" on a whole type of one record. *)
Example root_cause_scenario :
  exists type_info' info,
    analyze_type (new_ItemTypeInfo "Anomaly" "type:Anomaly")
      [ Dict (mk_record (VStr "Outage") VNone VNone VNone
                [ entry "Root Cause" (VStr "Disk full") "string" ] []) ]
    = Ok type_info'
    /\ get "Root_Cause" (fields type_info') = Some info
    /\ dataType info = "string"
    /\ access info = [("plain", "fieldValue.Root_Cause")]
    /\ uniqueValues info = ["Disk full"].
Proof. do 2 eexists. repeat split; reflexivity. Qed.

(** The output for the sample project: "tests" and "refines" are met
    twice each, "tests" first; the two types without records are not
    counted. *)
Example relation_catalog_scenario :
  match extract sample_query sample_project with
  | Ok out =>
      map (get "relationType") (relationTypes out)
      = [Some (JStr "tests"); Some (JStr "refines")]
      /\ totalItems out = 3%Z /\ itemTypeCount out = 1
      /\ totalRelations out = 4%Z
      /\ keys (itemTypes out) = ["Requirement"]
  | Raise _ => False
  end.
Proof. vm_compute. repeat split. Qed.

(* ================================================================= *)
(** * Further properties *)

(** ** Strings *)

Lemma length_append s t :
  String.length (s ++ t)%string = String.length s + String.length t.
Proof. induction s as [|c s IH]; simpl; congruence. Qed.

Lemma length_take n s : String.length (take n s) = Nat.min n (String.length s).
Proof.
  revert s. induction n as [|n IH]; intros [|c s]; simpl; try reflexivity.
  now rewrite IH.
Qed.

(** X1: for a bound of at least 3, [_truncate] returns at most [max_len]
    characters: the text itself when it fits, and otherwise its first
    [max_len - 3] characters followed by three dots, [max_len] characters
    in all. *)
Theorem truncate_bound (text : string) (max_len : nat) :
  3 <= max_len ->
  String.length (_truncate text max_len) <= max_len
  /\ (String.length text <= max_len -> _truncate text max_len = text)
  /\ (max_len < String.length text ->
      _truncate text max_len = (take (max_len - 3) text ++ "...")%string
      /\ String.length (_truncate text max_len) = max_len).
Proof.
  intros H3. unfold _truncate.
  destruct (Nat.leb_spec (String.length text) max_len) as [Hle|Hgt].
  - repeat split; [assumption | lia..].
  - assert (E : String.length (take (max_len - 3) text ++ "...")%string
                = max_len).
    { rewrite length_append, length_take. simpl. lia. }
    repeat split; [lia | lia | assumption].
Qed.

Lemma truncate_bound_witness :
  String.length (_truncate "Replace the pump seal" 10) <= 10
  /\ _truncate "Replace the pump seal" 10 = "Replace..."
  /\ _truncate "Pump" 10 = "Pump".
Proof.
  destruct (truncate_bound "Replace the pump seal" 10) as (H1 & _ & H3);
    [lia|].
  destruct (truncate_bound "Pump" 10) as (_ & H2 & _); [lia|].
  split; [exact H1|]. split.
  - apply H3. simpl. lia.
  - apply H2. simpl. lia.
Defined.

(** ** Value domains *)

Lemma sorted_NoDup {A} (le : A -> A -> bool) l :
  NoDup l -> NoDup (sorted le l).
Proof.
  apply Permutation_NoDup, Permutation_sym, sorted_perm.
Qed.

Lemma firstn_NoDup {A} n (l : list A) : NoDup l -> NoDup (firstn n l).
Proof.
  intros H. rewrite <- (firstn_skipn n l) in H.
  now apply NoDup_app_remove_r in H.
Qed.

Lemma value_samples_exclusive values data_type :
  fst (_compute_value_samples values data_type) = []
  \/ snd (_compute_value_samples values data_type) = [].
Proof.
  unfold _compute_value_samples.
  destruct (is_nil values); [now left|].
  destruct (String.eqb data_type "richText"); [now left|].
  destruct (_ <=? _); [now right | now left].
Qed.

(** X2: whatever the values and the data type, [_compute_value_samples]
    never returns both lists non-empty; the unique values are at most 25
    and the example values at most 5; neither list repeats a string; and
    every string returned stands for one of the values (a string cut to
    100 characters, or the [str] of another value). *)
Theorem value_samples_invariants (values : list value) (data_type : string) :
  let unique_values := fst (_compute_value_samples values data_type) in
  let example_values := snd (_compute_value_samples values data_type) in
  (unique_values = [] \/ example_values = [])
  /\ List.length unique_values <= 25
  /\ List.length example_values <= 5
  /\ NoDup unique_values
  /\ NoDup example_values
  /\ (forall s, In s (unique_values ++ example_values) ->
                exists v, In v values /\ s = truncate_value v).
Proof.
  cbn zeta. unfold _compute_value_samples.
  destruct (is_nil values);
    [cbn; repeat split; auto using NoDup_nil; try lia; contradiction|].
  destruct (String.eqb data_type "richText");
    [cbn; repeat split; auto using NoDup_nil; try lia; contradiction|].
  rewrite fromkeys_dedup.
  set (u := dedup_first_seen (map truncate_value values)).
  assert (Hu : forall s, In s u -> exists v, In v values /\ s = truncate_value v).
  { intros s Hs. apply dedup_In, in_map_iff in Hs as (v & <- & Hv). eauto. }
  unfold MAX_UNIQUE_VALUES, MAX_SAMPLE_VALUES.
  destruct (Nat.leb_spec (List.length u) 25) as [Hle|Hgt]; cbn [fst snd].
  - repeat split; auto using NoDup_nil.
    + now rewrite sorted_length.
    + simpl. lia.
    + apply sorted_NoDup, dedup_NoDup.
    + intros s Hs. rewrite app_nil_r in Hs. apply Hu.
      now apply (Permutation_in _ (sorted_perm String.leb u)).
  - repeat split; auto using NoDup_nil.
    + simpl. lia.
    + apply firstn_le_length.
    + apply firstn_NoDup, dedup_NoDup.
    + intros s Hs. apply Hu. now apply In_firstn in Hs.
Qed.

(** ** Keys, labels and access paths of the inferred fields *)

Lemma normalize_standard n :
  In n standard_fields -> _normalize_field_name n = n.
Proof. intros [<-|[<-|[<-|[<-|[]]]]]; reflexivity. Qed.

Lemma labels_agree_upd k f fd :
  (forall a, label_agrees k (f a)) ->
  labels_agree fd -> labels_agree (upd k f fd).
Proof.
  intros Hf H k' a. unfold upd. destruct (String.eqb_spec k k') as [<-|N].
  - rewrite get_update_same. intros [= <-]. apply Hf.
  - rewrite get_update_other by assumption. apply H.
Qed.

Lemma observe_standard_labels r fd :
  labels_agree fd -> labels_agree (observe_standard r fd).
Proof.
  unfold observe_standard.
  assert (Hs : forall n, In n standard_fields -> In n standard_fields)
    by auto.
  revert fd Hs. generalize standard_fields at 1 3 as l.
  induction l as [|n l IH]; intros fd Hs H; cbn [fold_left]; [assumption|].
  apply IH; [intros; apply Hs; now right|].
  destruct (present (record_get r n)); [|assumption].
  apply labels_agree_upd; [|assumption].
  intros a. split; cbn [fa_label fa_isCustom].
  - apply normalize_standard, Hs. now left.
  - intros _. split; [apply Hs; now left | reflexivity].
Qed.

Lemma observe_custom_labels r fd :
  labels_agree fd -> labels_agree (observe_custom r fd).
Proof.
  unfold observe_custom.
  revert fd. induction (r_fields r) as [|[f|] l IH]; intros fd H;
    cbn [fold_left]; [assumption| |now apply IH].
  apply IH.
  destruct (negb (String.eqb (label_or_empty f) EmptyString)
            && present (fo_value f)); [|assumption].
  apply labels_agree_upd; [|assumption].
  intros a. split; cbn [fa_label fa_isCustom]; [reflexivity | discriminate].
Qed.

Lemma collect_field_data_labels records :
  labels_agree (collect_field_data records).
Proof.
  unfold collect_field_data.
  assert (H0 : labels_agree []) by (intros k a; discriminate).
  revert H0. generalize (@nil (string * field_acc)) as fd.
  induction records as [|[r|] rs IH]; intros fd H; cbn [fold_left];
    [assumption| |now apply IH].
  apply IH, observe_custom_labels, observe_standard_labels, H.
Qed.

Lemma no_space_normalized s :
  contains " " (_normalize_field_name s) = false.
Proof.
  unfold _normalize_field_name.
  induction s as [|c s IH]; [reflexivity|].
  cbn [replace contains].
  change (String.prefix " " (String ?a ?t))
    with (if ascii_dec " " a then String.prefix EmptyString t else false).
  rewrite IH, orb_false_r.
  destruct (Ascii.eqb_spec c " ") as [->|N].
  - reflexivity.
  - destruct (ascii_dec " " c); [congruence | reflexivity].
Qed.

Lemma normalize_no_space s :
  contains " " s = false -> _normalize_field_name s = s.
Proof.
  unfold _normalize_field_name.
  induction s as [|c s IH]; [reflexivity|].
  cbn [replace contains].
  change (String.prefix " " (String ?a ?t))
    with (if ascii_dec " " a then String.prefix EmptyString t else false).
  intros H. apply orb_false_iff in H as [H1 H2]. rewrite (IH H2). f_equal.
  destruct (Ascii.eqb_spec c " ") as [->|N]; [|reflexivity].
  destruct (ascii_dec " " " "); [now destruct s | congruence].
Qed.

(** What the accumulated entry of an inferred field is. *)
Lemma inferred_field_data records k info :
  get k (inferred_fields records) = Some info ->
  exists data,
    get k (collect_field_data records) = Some data
    /\ info = field_info_of records k data
    /\ fa_values data = observations k records
    /\ fa_values data <> []
    /\ (forall t, In t (fa_types data) <-> In t (hints k records)).
Proof.
  unfold inferred_fields.
  rewrite build_fields_get by apply collect_field_data_NoDup.
  pose proof (collect_field_data_spec k records) as H.
  destruct (get k (collect_field_data records)) as [a|]; [|discriminate].
  destruct H as (Hv & Hne & Ht).
  destruct (fa_values a) eqn:E; simpl; [congruence|].
  intros [= <-]. exists a. rewrite E. repeat split; auto; try apply Ht.
  discriminate.
Qed.

Lemma field_info_of_parts records k data :
  let info := field_info_of records k data in
  fi_name info = k
  /\ normalizedName info = _normalize_field_name k
  /\ fi_label info = fa_label data
  /\ isCustomField info = fa_isCustom data
  /\ dataType info = resolve_data_type k data
  /\ access info
     = _compute_access_paths k (fa_isCustom data) (resolve_data_type k data).
Proof.
  cbn zeta. unfold field_info_of.
  destruct (_compute_value_samples _ _). repeat split.
Qed.

Lemma inferred_field_normalized records k info :
  get k (inferred_fields records) = Some info -> normalizedName info = k.
Proof.
  intros G. apply inferred_field_data in G as (data & Gd & -> & _).
  destruct (collect_field_data_labels records k data Gd) as [Hl Hc].
  destruct (field_info_of_parts records k data) as (_ & -> & _).
  rewrite <- Hl. apply normalize_no_space, no_space_normalized.
Qed.

(** X3: every inferred field is stored under its own name, which is a
    normalized name without a space: [name] and [normalizedName] are the
    key, the display label normalizes to the key, and a field that is not
    flagged custom is one of the four root attributes with its name as
    label. *)
Theorem inferred_field_key (records : list (item record)) (k : string)
    (info : FieldInfo) :
  get k (inferred_fields records) = Some info ->
  fi_name info = k
  /\ normalizedName info = k
  /\ _normalize_field_name (fi_label info) = k
  /\ contains " " k = false
  /\ (isCustomField info = false ->
      In k standard_fields /\ fi_label info = k).
Proof.
  intros G. apply inferred_field_data in G as (data & Gd & -> & _).
  destruct (collect_field_data_labels records k data Gd) as [Hl Hc].
  destruct (field_info_of_parts records k data)
    as (-> & -> & -> & -> & _).
  repeat split; try assumption.
  - rewrite <- Hl. apply normalize_no_space, no_space_normalized.
  - rewrite <- Hl. apply no_space_normalized.
  - now apply Hc.
  - now apply Hc.
Qed.

Lemma inferred_field_key_witness :
  exists info,
    get "Root_Cause"
        (inferred_fields
           [ Dict (mk_record (VStr "Outage") VNone VNone VNone
                     [ entry "Root Cause" (VStr "Disk full") "string" ]
                     []) ]) = Some info
    /\ normalizedName info = "Root_Cause"
    /\ _normalize_field_name (fi_label info) = "Root_Cause".
Proof.
  eexists. split; [reflexivity|].
  destruct (inferred_field_key
              [ Dict (mk_record (VStr "Outage") VNone VNone VNone
                        [ entry "Root Cause" (VStr "Disk full") "string" ]
                        []) ]
              "Root_Cause" _ eq_refl) as (_ & Hn & Hl & _).
  split; assumption.
Defined.

(** X4: every inferred field has one of the five data types; its plain
    access path is the key, behind "fieldValue." for a custom field; and
    it has a rich access path, the key behind "~~fieldContent." or "~~",
    exactly when it is richText. *)
Theorem inferred_field_access (records : list (item record)) (k : string)
    (info : FieldInfo) :
  get k (inferred_fields records) = Some info ->
  In (dataType info) data_types
  /\ keys (access info)
     = (if String.eqb (dataType info) "richText" then ["plain"; "rich"]
        else ["plain"])
  /\ get "plain" (access info)
     = Some (if isCustomField info then ("fieldValue." ++ k)%string else k)
  /\ get "rich" (access info)
     = (if String.eqb (dataType info) "richText"
        then Some (if isCustomField info
                   then ("~~fieldContent." ++ k)%string
                   else ("~~" ++ k)%string)
        else None).
Proof.
  intros G.
  pose proof (inferred_field_normalized records k info G) as Hn.
  apply inferred_field_data in G as (data & _ & -> & _).
  destruct (field_info_of_parts records k data)
    as (_ & Hnn & _ & -> & -> & ->).
  rewrite Hnn in Hn. unfold _compute_access_paths. rewrite Hn.
  split.
  - unfold data_types.
    destruct (resolve_data_type_cases k data)
      as [[-> _] | [_ [-> | [-> | [-> | ->]]]]]; simpl; tauto.
  - destruct (fa_isCustom data),
      (String.eqb (resolve_data_type k data) "richText"); repeat split.
Qed.

Lemma inferred_field_access_witness :
  exists info,
    get "Status" (inferred_fields [requirement "Login" "REQ-1" "Open" []])
    = Some info
    /\ get "plain" (access info) = Some "fieldValue.Status"
    /\ get "rich" (access info) = None.
Proof.
  eexists. split; [reflexivity|].
  destruct (inferred_field_access [requirement "Login" "REQ-1" "Open" []]
              "Status" _ eq_refl) as (_ & _ & Hp & Hr).
  split; [exact Hp | exact Hr].
Defined.

(** X5: an inferred field has an empty value domain (no unique values
    and no example values) exactly when it is richText; otherwise exactly
    one of the two lists is not empty. *)
Theorem inferred_field_domain (records : list (item record)) (k : string)
    (info : FieldInfo) :
  get k (inferred_fields records) = Some info ->
  ((uniqueValues info = [] /\ exampleValues info = [])
   <-> dataType info = "richText")
  /\ (uniqueValues info = [] \/ exampleValues info = []).
Proof.
  intros G. apply inferred_field_data in G as (data & _ & -> & _ & Hne & _).
  pose proof (samples_field_info_of records k data) as Hs.
  rewrite dataType_field_info_of.
  pose proof (value_samples_exclusive (fa_values data)
                (resolve_data_type k data)) as Hex.
  rewrite <- Hs in Hex. cbn [fst snd] in Hex.
  split; [|exact Hex]. split.
  - intros [Hu He].
    destruct (string_dec (resolve_data_type k data) "richText") as [|N];
      [assumption|].
    pose proof (value_samples_nonempty _ _ Hne N) as Hn.
    rewrite <- Hs in Hn. cbn [fst snd] in Hn. tauto.
  - intros Hdt. rewrite Hdt in Hs.
    unfold _compute_value_samples in Hs.
    destruct (is_nil (fa_values data)); simpl in Hs;
      now injection Hs as -> ->.
Qed.

Lemma inferred_field_domain_witness :
  exists info,
    get "Remark" (inferred_fields markup_first) = Some info
    /\ uniqueValues info = [] /\ exampleValues info = [].
Proof.
  eexists. split; [reflexivity|].
  apply (proj1 (inferred_field_domain markup_first "Remark" _ eq_refl)).
  reflexivity.
Defined.

(** X6: type hints come from field entries only.  A field that no field
    entry is observed under, so one that comes from the root attributes
    (title, revision, isControlled, createdAt) alone, is a string or
    richText, never a number, a datetime or a boolean. *)
Theorem root_attribute_type (records : list (item record)) (k : string)
    (info : FieldInfo) :
  get k (inferred_fields records) = Some info ->
  hints k records = [] ->
  dataType info = "string" \/ dataType info = "richText".
Proof.
  intros G Hh. apply inferred_field_data in G as (data & _ & -> & _ & _ & Ht).
  rewrite dataType_field_info_of. unfold resolve_data_type.
  assert (Hm : forall t, mem t (fa_types data) = false).
  { intros t. apply mem_false. rewrite Ht, Hh. tauto. }
  rewrite !Hm. simpl.
  destruct (_is_rich_text_field k (fa_values data)); tauto.
Qed.

Lemma root_attribute_type_witness :
  exists info,
    get "isControlled"
        (inferred_fields
           [ Dict (mk_record (VStr "Login") (VInt 2) (VBool true)
                     (VStr "2024-05-01T10:00:00Z") [] []) ]) = Some info
    /\ (dataType info = "string" \/ dataType info = "richText").
Proof.
  eexists. split; [reflexivity|].
  apply (root_attribute_type
           [ Dict (mk_record (VStr "Login") (VInt 2) (VBool true)
                     (VStr "2024-05-01T10:00:00Z") [] []) ]
           "isControlled" _ eq_refl eq_refl).
Defined.

(** ** The status loop: errors and results *)

Lemma extract_statuses_raises records sts :
  In NonDict records -> extract_statuses records sts = Raise AttributeError.
Proof.
  revert sts. induction records as [|[r|] rs IH]; intros sts H;
    cbn [extract_statuses].
  - contradiction.
  - destruct H as [H|H]; [discriminate | now apply IH].
  - reflexivity.
Qed.

Lemma collect_from_objects records fd :
  collect_from (filter is_dict records) fd = collect_from records fd.
Proof.
  unfold collect_from.
  revert fd. induction records as [|[r|] rs IH]; intros fd; simpl; auto.
Qed.

(** X7: a record that is not an object is skipped by the loop that
    collects the field data, but the status loop calls [get] on it:
    analysing a type that has such a record raises [AttributeError]. *)
Theorem non_object_record_raises (type_info : ItemTypeInfo)
    (records : list (item record)) :
  In NonDict records ->
  collect_field_data (filter is_dict records) = collect_field_data records
  /\ analyze_type type_info records = Raise AttributeError.
Proof.
  intros H. split.
  - apply (collect_from_objects records []).
  - unfold analyze_type. now rewrite extract_statuses_raises.
Qed.

Lemma non_object_record_raises_witness :
  analyze_type (new_ItemTypeInfo "Requirement" "type:Requirement")
    [requirement "Login" "REQ-1" "Open" []; NonDict]
  = Raise AttributeError.
Proof.
  apply (non_object_record_raises
           (new_ItemTypeInfo "Requirement" "type:Requirement")
           [requirement "Login" "REQ-1" "Open" []; NonDict]).
  right. left. reflexivity.
Defined.

Lemma extract_statuses_objects records sts :
  forallb is_dict records = true ->
  extract_statuses records sts
  = Ok (fold_left add_status (all_status_values records) sts).
Proof.
  revert sts. induction records as [|[r|] rs IH]; intros sts H;
    cbn [extract_statuses all_status_values flat_map].
  - reflexivity.
  - rewrite fold_left_app, statuses_of_record_values. now apply IH.
  - discriminate.
Qed.

Lemma in_list_strings s acc : in_list (VStr s) (map VStr acc) = mem s acc.
Proof.
  unfold in_list, mem. induction acc as [|t acc IH]; simpl; [reflexivity|].
  now rewrite IH.
Qed.

Lemma add_status_strings vs acc :
  forallb status_ok vs = true ->
  fold_left add_status vs (map VStr acc)
  = map VStr (fold_left add_key (status_strings vs) acc).
Proof.
  revert acc. induction vs as [|v vs IH]; intros acc H; [reflexivity|].
  cbn [forallb] in H. apply andb_true_iff in H as [Hv Hvs].
  cbn [fold_left status_strings flat_map]. rewrite fold_left_app.
  unfold add_status at 2. unfold status_ok in Hv.
  destruct v as [|b|n|s]; cbn [truthy is_str] in *.
  - now apply IH.
  - destruct b; [discriminate | now apply IH].
  - destruct (n =? 0)%Z; [now apply IH | discriminate].
  - destruct (String.eqb s EmptyString); cbn [negb andb fold_left];
      [now apply IH|].
    rewrite in_list_strings.
    change (add_key acc s) with (if mem s acc then acc else acc ++ [s]).
    destruct (mem s acc); cbn [negb]; [now apply IH|].
    rewrite <- IH by assumption. now rewrite map_app.
Qed.

Lemma insert_strings s l :
  insert value_le (VStr s) (map VStr l) = map VStr (insert String.leb s l).
Proof.
  induction l as [|t l IH]; simpl; [reflexivity|].
  destruct (String.leb s t); simpl; [reflexivity | now rewrite IH].
Qed.

Lemma sorted_values_strings l :
  sorted_values (map VStr l) = Ok (map VStr (sorted String.leb l)).
Proof.
  assert (Hs : sorted value_le (map VStr l) = map VStr (sorted String.leb l)).
  { induction l as [|s l IH]; simpl; [reflexivity|].
    now rewrite IH, insert_strings. }
  assert (Ha : all_str (map VStr l) = true).
  { unfold all_str. apply forallb_forall. intros v Hv.
    apply in_map_iff in Hv as (s & <- & _). reflexivity. }
  destruct l as [|s [|t l]]; [reflexivity | reflexivity |].
  unfold sorted_values. cbn [map] in *. now rewrite Ha, Hs.
Qed.

Lemma well_formed_objects records :
  well_formed records = true ->
  forallb is_dict records = true
  /\ forallb status_ok (all_status_values records) = true.
Proof.
  unfold well_formed, all_status_values.
  induction records as [|[r|] rs IH]; cbn [forallb flat_map];
    [auto | | discriminate].
  rewrite andb_true_iff, forallb_app. intros [Hr Hrs].
  destruct (IH Hrs) as [-> ->]. now rewrite Hr.
Qed.

Lemma status_strings_In s vs :
  In s (status_strings vs) <-> s <> EmptyString /\ In (VStr s) vs.
Proof.
  unfold status_strings. rewrite in_flat_map. split.
  - intros (v & Hv & Hs). destruct v as [| | |t]; try contradiction.
    destruct (String.eqb_spec t EmptyString); [contradiction|].
    destruct Hs as [<-|[]]. auto.
  - intros [Hn Hv]. exists (VStr s). split; [assumption|].
    apply String.eqb_neq in Hn. rewrite Hn. now left.
Qed.

Lemma analyze_type_parts type_info records type_info' :
  analyze_type type_info records = Ok type_info' ->
  (sts <- extract_statuses records (statuses type_info) ;; sorted_values sts)
  = Ok (statuses type_info')
  /\ it_name type_info' = it_name type_info
  /\ kqlQuery type_info' = kqlQuery type_info
  /\ shortName type_info' = shortName type_info
  /\ it_count type_info' = it_count type_info
  /\ fields type_info'
     = build_fields records (collect_field_data records) (fields type_info)
  /\ sampleRecords type_info'
     = _build_sample_records records (fields type_info').
Proof.
  unfold analyze_type.
  destruct (extract_statuses records (statuses type_info)) as [sts|e];
    cbn [bind]; [|discriminate].
  destruct (sorted_values sts) as [sorted_sts|e]; cbn [bind];
    [|discriminate].
  intros [= <-]. repeat split.
Qed.

(** X8: when all records of a type are objects and every status value
    is a string (or is skipped as not true), the status loop and the
    sort do not raise: they give the non-empty status strings of the
    records, each once, in ascending order.  An analysis of the type
    that returns has these statuses; name, query, short name and count
    of the type are kept, and the fields are the inferred ones. *)
Theorem string_statuses_sorted (type_info : ItemTypeInfo)
    (records : list (item record)) :
  statuses type_info = [] ->
  well_formed records = true ->
  exists l,
    (sts <- extract_statuses records (statuses type_info) ;;
     sorted_values sts)
    = Ok (map VStr l)
    /\ StronglySorted str_le l
    /\ NoDup l
    /\ (forall s, In s l
                  <-> s <> EmptyString
                      /\ In (VStr s) (all_status_values records))
    /\ (forall type_info',
          analyze_type type_info records = Ok type_info' ->
          statuses type_info' = map VStr l
          /\ it_name type_info' = it_name type_info
          /\ kqlQuery type_info' = kqlQuery type_info
          /\ shortName type_info' = shortName type_info
          /\ it_count type_info' = it_count type_info
          /\ fields type_info'
             = build_fields records (collect_field_data records)
                            (fields type_info)
          /\ sampleRecords type_info'
             = _build_sample_records records (fields type_info')).
Proof.
  intros Hs Hw. apply well_formed_objects in Hw as [Hd Hv].
  set (l0 := dedup_first_seen (status_strings (all_status_values records))).
  assert (E : (sts <- extract_statuses records (statuses type_info) ;;
               sorted_values sts)
              = Ok (map VStr (sorted String.leb l0))).
  { rewrite (extract_statuses_objects _ _ Hd), Hs.
    change (@nil value) with (map VStr []).
    rewrite (add_status_strings _ [] Hv), fold_add_key.
    cbn [app filter mem existsb negb]. rewrite filter_true. fold l0.
    cbn [bind]. apply sorted_values_strings. }
  exists (sorted String.leb l0). split; [exact E|].
  destruct (sorted_strings l0) as [HS HP].
  split; [exact HS|].
  split; [apply sorted_NoDup, dedup_NoDup|].
  split.
  - intros s.
    rewrite <- status_strings_In, <- (dedup_In s (status_strings _)).
    fold l0. split; apply Permutation_in; [assumption|].
    now apply Permutation_sym.
  - intros type_info' A.
    apply analyze_type_parts in A as (A & Hrest).
    split; [|exact Hrest]. rewrite E in A. now injection A as <-.
Qed.

Lemma string_statuses_sorted_witness :
  exists l,
    (sts <- extract_statuses
              [ requirement "Login" "REQ-1" "Open" [];
                requirement "Audit" "REQ-3" "Closed" [] ]
              [] ;;
     sorted_values sts)
    = Ok (map VStr l)
    /\ StronglySorted str_le l.
Proof.
  destruct (string_statuses_sorted
              (new_ItemTypeInfo "Requirement" "type:Requirement")
              [ requirement "Login" "REQ-1" "Open" [];
                requirement "Audit" "REQ-3" "Closed" [] ]
              eq_refl eq_refl) as (l & H1 & H2 & _).
  exists l. split; assumption.
Defined.

Lemma in_list_grows x vs acc :
  in_list x acc = true -> in_list x (fold_left add_status vs acc) = true.
Proof.
  revert acc. induction vs as [|v vs IH]; intros acc H; [assumption|].
  cbn [fold_left]. apply IH. unfold add_status.
  destruct (truthy v && negb (in_list v acc)); [|assumption].
  unfold in_list in *. rewrite existsb_app, H. reflexivity.
Qed.

Lemma eqb_refl_truthy x : truthy x = true -> eqb x x = true.
Proof.
  destruct x as [|b|n|s]; simpl; intros H; try discriminate.
  - now destruct b.
  - apply Z.eqb_refl.
  - apply String.eqb_refl.
Qed.

Lemma in_list_collected x vs acc :
  In x vs -> truthy x = true ->
  in_list x (fold_left add_status vs acc) = true.
Proof.
  revert acc. induction vs as [|v vs IH]; intros acc Hin Ht; [contradiction|].
  cbn [fold_left]. destruct Hin as [->|Hin]; [|now apply IH].
  apply in_list_grows. unfold add_status. rewrite Ht. cbn [andb].
  destruct (in_list x acc) eqn:E; cbn [negb]; [assumption|].
  unfold in_list. rewrite existsb_app. cbn [existsb].
  now rewrite (eqb_refl_truthy _ Ht), orb_true_r.
Qed.

(** X9: when the statuses of a type mix a non-empty string with a
    number or a boolean that counts as true, sorting them raises
    [TypeError]. *)
Theorem mixed_statuses_raise (type_info : ItemTypeInfo)
    (records : list (item record)) (s : string) (v : value) :
  statuses type_info = [] ->
  forallb is_dict records = true ->
  s <> EmptyString ->
  In (VStr s) (all_status_values records) ->
  In v (all_status_values records) ->
  truthy v = true -> is_str v = false ->
  analyze_type type_info records = Raise TypeError.
Proof.
  intros Hs Hd Hne Hin1 Hin2 Ht Hv.
  unfold analyze_type. rewrite (extract_statuses_objects _ _ Hd), Hs.
  cbn [bind].
  set (sts := fold_left add_status (all_status_values records) []).
  assert (H1 : in_list (VStr s) sts = true).
  { apply in_list_collected; [assumption|].
    simpl. now apply negb_true_iff, String.eqb_neq. }
  assert (H2 : in_list v sts = true) by now apply in_list_collected.
  unfold in_list in H1, H2. apply existsb_exists in H1 as (y1 & Hy1 & E1).
  apply existsb_exists in H2 as (y2 & Hy2 & E2).
  assert (Y1 : is_str y1 = true).
  { destruct y1; simpl in E1; try discriminate. reflexivity. }
  assert (Y2 : as_int y2 <> None).
  { destruct v; try discriminate; destruct y2; simpl in *; discriminate. }
  assert (Hstr : all_str sts = false).
  { apply not_true_is_false. unfold all_str. rewrite forallb_forall.
    intros H. apply H in Hy2. destruct y2; simpl in *; congruence. }
  assert (Hnum : all_num sts = false).
  { apply not_true_is_false. unfold all_num. rewrite forallb_forall.
    intros H. apply H in Hy1. destruct y1; simpl in *; congruence. }
  assert (Hneq : y1 <> y2).
  { intros <-. destruct y1; simpl in *; congruence. }
  unfold sorted_values. rewrite Hstr, Hnum.
  destruct sts as [|a [|b sts]]; simpl in *; [tauto| |reflexivity].
  destruct Hy1 as [<-|[]], Hy2 as [<-|[]]. congruence.
Qed.

Lemma mixed_statuses_raise_witness :
  analyze_type (new_ItemTypeInfo "Part" "type:Part")
    [ Dict (mk_record VNone VNone VNone VNone
              [ entry "Status" (VStr "Open") "string" ] []);
      Dict (mk_record VNone VNone VNone VNone
              [ entry "Status" (VInt 2) "number" ] []) ]
  = Raise TypeError.
Proof.
  apply (mixed_statuses_raise (new_ItemTypeInfo "Part" "type:Part") _
           "Open" (VInt 2)); try reflexivity.
  - discriminate.
  - left. reflexivity.
  - right. left. reflexivity.
Defined.

(** ** Discovered types and their queries *)

Lemma prefix_space c s :
  String.prefix " " (String c s) = Ascii.eqb c " ".
Proof.
  change (String.prefix " " (String c s))
    with (if ascii_dec " " c then String.prefix EmptyString s else false).
  destruct (ascii_dec " " c) as [<-|N].
  - now destruct s.
  - symmetry. apply Ascii.eqb_neq. congruence.
Qed.

Lemma contains_space_app s t :
  contains " " (s ++ t) = contains " " s || contains " " t.
Proof.
  induction s as [|c s IH]; [reflexivity|].
  cbn [append contains]. now rewrite !prefix_space, IH, orb_assoc.
Qed.

Lemma append_cancel_r s t u : (s ++ u = t ++ u)%string -> s = t.
Proof.
  revert t. induction s as [|c s IH]; intros [|d t] H; cbn [append] in H.
  - reflexivity.
  - apply (f_equal String.length) in H. cbn in H.
    rewrite length_append in H. lia.
  - apply (f_equal String.length) in H. cbn in H.
    rewrite length_append in H. lia.
  - injection H as -> H. f_equal. now apply IH.
Qed.

Lemma kql_of_injective a b : kql_of a = kql_of b -> a = b.
Proof.
  unfold kql_of.
  destruct (contains " " a) eqn:Ea, (contains " " b) eqn:Eb; intros H;
    cbn [append] in H; injection H as H.
  - apply (append_cancel_r a b dquote). exact H.
  - exfalso. rewrite <- H in Eb. cbn [contains] in Eb.
    rewrite contains_space_app, Ea in Eb. rewrite orb_true_r in Eb.
    discriminate.
  - exfalso. rewrite H in Ea. cbn [contains] in Ea.
    rewrite contains_space_app, Eb in Ea. rewrite orb_true_r in Ea.
    discriminate.
  - exact H.
Qed.

Lemma discovered_get type_names n t :
  get n (item_types (discovered type_names)) = Some t
  <-> In n type_names /\ n <> EmptyString /\ n <> "Unknown"
      /\ t = new_ItemTypeInfo n (kql_of n).
Proof.
  unfold discovered. cbn [item_types].
  set (step := fun (d : od ItemTypeInfo) type_name => _).
  assert (G : forall l d,
             get n (fold_left step l d) = Some t
             <-> (In n l /\ n <> EmptyString /\ n <> "Unknown"
                  /\ t = new_ItemTypeInfo n (kql_of n))
                 \/ (~ (In n l /\ n <> EmptyString /\ n <> "Unknown")
                     /\ get n d = Some t)).
  { induction l as [|x l IH]; intros d; cbn [fold_left].
    - simpl. tauto.
    - rewrite IH. cbn [In].
      assert (Hstep : step d x
                      = if String.eqb x EmptyString || String.eqb x "Unknown"
                        then d
                        else set x (new_ItemTypeInfo x (kql_of x)) d)
        by reflexivity.
      rewrite Hstep. clear Hstep.
      destruct (String.eqb_spec x EmptyString) as [->|N1]; cbn [orb].
      { split; (intros [H|H]; [left|right]); intuition congruence. }
      destruct (String.eqb_spec x "Unknown") as [->|N2].
      { split; (intros [H|H]; [left|right]); intuition congruence. }
      destruct (string_dec x n) as [->|N3].
      + rewrite get_set_same.
        split.
        * intros [H|[H1 [= <-]]]; left; tauto.
        * intros [H|[H1 H2]]; [|tauto].
          destruct (in_dec string_dec n l) as [I|I]; [left; tauto|].
          right. split; [tauto|]. destruct H as (_ & _ & _ & ->).
          reflexivity.
      + rewrite get_set_other by assumption.
        split; (intros [H|H]; [left|right]); intuition congruence. }
  rewrite G. simpl. split; [intros [H|[_ H]]; [assumption|discriminate]|].
  intros H. now left.
Qed.

Lemma discovered_wf type_names :
  wf (item_types (discovered type_names)) = true.
Proof.
  apply wf_NoDup. unfold discovered. cbn [item_types].
  assert (H0 : NoDup (keys (@nil (string * ItemTypeInfo))))
    by constructor.
  revert H0. generalize (@nil (string * ItemTypeInfo)) as d.
  induction type_names as [|x l IH]; intros d H; cbn [fold_left];
    [assumption|].
  apply IH.
  destruct (String.eqb x EmptyString || String.eqb x "Unknown");
    [assumption | now apply set_NoDup].
Qed.

(** X10: the type map that discovery creates has one entry for each
    discovered name other than the empty name and "Unknown": a fresh
    entry with the query of the name.  The names are pairwise distinct,
    and so are the queries: two entries never share a query. *)
Theorem discovered_type_map (type_names : list string) :
  wf (item_types (discovered type_names)) = true
  /\ (forall n t,
        get n (item_types (discovered type_names)) = Some t
        <-> In n type_names /\ n <> EmptyString /\ n <> "Unknown"
            /\ t = new_ItemTypeInfo n (kql_of n))
  /\ (forall n1 t1 n2 t2,
        get n1 (item_types (discovered type_names)) = Some t1 ->
        get n2 (item_types (discovered type_names)) = Some t2 ->
        kqlQuery t1 = kqlQuery t2 -> n1 = n2).
Proof.
  split; [|split].
  - apply discovered_wf.
  - apply discovered_get.
  - intros n1 t1 n2 t2 H1 H2 E.
    apply discovered_get in H1 as (_ & _ & _ & ->).
    apply discovered_get in H2 as (_ & _ & _ & ->).
    now apply kql_of_injective.
Qed.

(** ** The whole run *)

Lemma analyze_types_raises l its n recs :
  In (n, recs) l -> In n (keys its) -> In NonDict recs ->
  exists e, analyze_types l its = Raise e.
Proof.
  revert its. induction l as [|[m r] l IH]; intros its Hin Hk Hbad;
    [contradiction|].
  cbn [analyze_types]. destruct Hin as [[= -> ->]|Hin].
  - destruct recs as [|x recs]; [contradiction|]. cbn [is_nil].
    destruct (get_Some_keys_inv _ _ Hk) as [t ->].
    unfold analyze_type. rewrite extract_statuses_raises by assumption.
    cbn [bind]. eauto.
  - destruct (is_nil r); [now apply IH|].
    destruct (get m its) as [t|] eqn:G; [|now apply IH].
    destruct (analyze_type t r) as [t'|e]; cbn [bind]; [|eauto].
    apply IH; try assumption.
    rewrite keys_set_present; [assumption | now apply get_Some_keys in G].
Qed.

Lemma get_In {V} k (v : V) d : get k d = Some v -> In (k, v) d.
Proof.
  induction d as [|[k0 v0] d IH]; simpl; [discriminate|].
  destruct (String.eqb_spec k0 k) as [->|N].
  - intros [= ->]. now left.
  - intros H. right. now apply IH.
Qed.

(** X11: one record that is not an object, among the records fetched for
    any discovered type, aborts the whole run: [extract] raises and
    builds no output, for the other types either. *)
Theorem malformed_record_aborts (q : string -> option response)
    (st : extractor) (n : string) (t : ItemTypeInfo) :
  wf (item_types st) = true ->
  get n (item_types st) = Some t ->
  In NonDict (fetched_records q t) ->
  exists e, extract q st = Raise e.
Proof.
  intros Hwf G Hbad. apply wf_NoDup in Hwf.
  assert (Hnil : is_nil (fetched_records q t) = false)
    by (destruct (fetched_records q t); [contradiction | reflexivity]).
  unfold extract, _analyze_all_fields.
  rewrite fetch_records_by_type_spec by now apply wf_NoDup.
  cbn [item_types all_records_by_type relation_types].
  destruct (analyze_types_raises
              (fold_left (fun d e => set (fst e) (snd e) d)
                 (kept_records q (item_types st)) (all_records_by_type st))
              (kept_types q (item_types st)) n (fetched_records q t))
    as [e E].
  - apply get_In. rewrite get_kept_records by assumption.
    now rewrite G, Hnil.
  - apply (get_Some_keys _ (fetched_type q t)).
    rewrite get_kept_types by assumption. now rewrite G, Hnil.
  - assumption.
  - exists e. now rewrite E.
Qed.

Lemma malformed_record_aborts_witness :
  exists e,
    extract
      (fun kql =>
         if String.eqb kql "type:Requirement"
         then Some (mk_response
                      (Some [requirement "Login" "REQ-1" "Open" []]) None)
         else Some (mk_response (Some [NonDict]) None))
      (discovered ["Requirement"; "Risk"])
    = Raise e.
Proof.
  apply (malformed_record_aborts _ (discovered ["Requirement"; "Risk"])
           "Risk" (new_ItemTypeInfo "Risk" "type:Risk")).
  - reflexivity.
  - reflexivity.
  - left. reflexivity.
Defined.

Lemma analyze_type_count type_info records type_info' :
  analyze_type type_info records = Ok type_info' ->
  it_count type_info' = it_count type_info.
Proof.
  unfold analyze_type.
  destruct (extract_statuses _ _) as [s|]; cbn [bind]; [|discriminate].
  destruct (sorted_values s); cbn [bind]; [|discriminate].
  now intros [= <-].
Qed.

Lemma set_type_counts n t t' (d : od ItemTypeInfo) :
  get n d = Some t -> it_count t' = it_count t ->
  type_counts (set n t' d) = type_counts d.
Proof.
  unfold type_counts.
  induction d as [|[k v] d IH]; simpl; [discriminate|].
  destruct (String.eqb_spec k n) as [->|N]; simpl.
  - intros [= ->] ->. reflexivity.
  - intros G E. now rewrite IH.
Qed.

Lemma analyze_types_counts l its its' :
  analyze_types l its = Ok its' -> type_counts its' = type_counts its.
Proof.
  revert its. induction l as [|[n recs] l IH]; simpl; intros its H.
  - now injection H as ->.
  - destruct (is_nil recs); [now apply IH|].
    destruct (get n its) as [t|] eqn:G; [|now apply IH].
    destruct (analyze_type t recs) as [t'|e] eqn:A; simpl in H;
      [|discriminate].
    apply IH in H. rewrite H. apply (set_type_counts _ t); [assumption|].
    now apply analyze_type_count in A.
Qed.

Lemma kept_types_with_records q l :
  kept_types q l
  = map (fun e => (fst e, fetched_type q (snd e))) (with_records q l).
Proof.
  unfold kept_types, with_records.
  induction l as [|e l IH]; simpl; [reflexivity|].
  destruct (is_nil (fetched_records q (snd e))); simpl; now rewrite IH.
Qed.

Lemma kept_records_with_records q l :
  kept_records q l
  = map (fun e => (fst e, fetched_records q (snd e))) (with_records q l).
Proof.
  unfold kept_records, with_records.
  induction l as [|e l IH]; simpl; [reflexivity|].
  destruct (is_nil (fetched_records q (snd e))); simpl; now rewrite IH.
Qed.

Lemma with_records_NoDup q l :
  NoDup (keys l) -> NoDup (keys (with_records q l)).
Proof.
  unfold with_records, keys. induction l as [|e l IH]; simpl; intros H;
    [constructor|].
  apply NoDup_cons_iff in H as [H1 H2].
  destruct (negb _); simpl; [|now apply IH].
  constructor; [|now apply IH].
  intros H. apply H1. apply in_map_iff in H as (x & <- & Hx).
  apply filter_In in Hx as [Hx _]. now apply in_map.
Qed.

Lemma with_records_get q l n t :
  NoDup (keys l) ->
  In (n, t) (with_records q l)
  <-> get n l = Some t /\ fetched_records q t <> [].
Proof.
  intros Hnd. unfold with_records. rewrite filter_In. cbn [snd].
  split.
  - intros [Hin Hn]. split; [now apply In_get|].
    intros E. now rewrite E in Hn.
  - intros [G Hn]. split; [now apply get_In|].
    destruct (fetched_records q t); [contradiction | reflexivity].
Qed.

Lemma fold_set_nil {A V} (kf : A -> string) (vf : A -> V) l :
  NoDup (map kf l) ->
  fold_left (fun d x => set (kf x) (vf x) d) l []
  = map (fun x => (kf x, vf x)) l.
Proof. intros H. now rewrite fold_set_fresh. Qed.

Lemma keys_fold_set_gen {A V} (kf : A -> string) (vf : A -> V) l d :
  keys (fold_left (fun d x => set (kf x) (vf x) d) l d)
  = fold_left add_key (map kf l) (keys d).
Proof.
  revert d. induction l as [|x l IH]; intros d; [reflexivity|].
  cbn [fold_left map]. rewrite IH, keys_set. reflexivity.
Qed.

Lemma analyze_relations_counts st :
  type_counts (item_types (_analyze_relations st))
  = type_counts (item_types st).
Proof.
  unfold _analyze_relations, type_counts. cbn [item_types].
  rewrite map_map. reflexivity.
Qed.

Lemma total_of_counts its :
  sum_Z (map it_count (values its)) = sum_Z (map snd (type_counts its)).
Proof. unfold values, type_counts. now rewrite !map_map. Qed.

Lemma keys_of_counts its : keys its = map fst (type_counts its).
Proof. unfold keys, type_counts. now rewrite map_map. Qed.

(** X12: the summary of a run that returns.  Started after discovery,
    with no records stored, the types of the output are exactly the
    types with at least one fetched record; [itemTypeCount] is their
    number and [totalItems] the sum of their fetched totals. *)
Theorem returned_summary (q : string -> option response) (st : extractor)
    (out : output) :
  wf (item_types st) = true ->
  all_records_by_type st = [] ->
  extract q st = Ok out ->
  itemTypeCount out = List.length (with_records q (item_types st))
  /\ totalItems out
     = sum_Z (map (fun e => fetched_total q (snd e))
                  (with_records q (item_types st)))
  /\ (forall n, In n (keys (itemTypes out))
                <-> exists t, get n (item_types st) = Some t
                              /\ fetched_records q t <> []).
Proof.
  intros Hwf Hrecs Hex. pose proof Hwf as Hnd. apply wf_NoDup in Hnd.
  pose proof (with_records_NoDup q _ Hnd) as Hnd'.
  unfold extract, _analyze_all_fields in Hex.
  rewrite fetch_records_by_type_spec in Hex by assumption.
  cbn [item_types all_records_by_type relation_types] in Hex.
  rewrite kept_types_with_records in Hex.
  destruct (analyze_types _ _) as [its'|e] eqn:E; cbn [bind] in Hex;
    [|discriminate].
  injection Hex as <-.
  apply analyze_types_counts in E.
  set (st' := mk_extractor its' _ _).
  assert (C : type_counts (item_types (_analyze_relations st'))
              = map (fun e => (fst e, fetched_total q (snd e)))
                    (with_records q (item_types st))).
  { rewrite analyze_relations_counts. subst st'. cbn [item_types].
    rewrite E. unfold type_counts. rewrite map_map. reflexivity. }
  split; [|split].
  - cbn [_build_output itemTypeCount].
    rewrite <- (length_map (fun e : string * ItemTypeInfo =>
                             (fst e, it_count (snd e)))).
    fold (type_counts (item_types (_analyze_relations st'))).
    rewrite C. apply length_map.
  - cbn [_build_output totalItems]. rewrite total_of_counts, C.
    now rewrite map_map.
  - intros n. cbn [_build_output itemTypes].
    assert (K : forall d, In n (keys (sorted_types d))
                          <-> In n (keys (item_types d))).
    { intros d. unfold sorted_types, sorted_by_key_desc, keys.
      split; apply Permutation_in, Permutation_map;
        [|apply Permutation_sym]; apply sorted_perm. }
    assert (F : In n (keys (fold_left
                 (fun d (x : string * ItemTypeInfo) =>
                    set (fst x) (JObj (ItemTypeInfo_to_dict (snd x))) d)
                 (sorted_types (_analyze_relations st')) []))
                <-> In n (keys (sorted_types (_analyze_relations st')))).
    { split.
      - intros H. apply keys_fold_set_in in H as [[]|H]. exact H.
      - intros H.
        rewrite (keys_fold_set_gen fst
                   (fun x => JObj (ItemTypeInfo_to_dict (snd x)))).
        rewrite fold_add_key. cbn [keys map app]. apply dedup_In.
        apply filter_In. split; [exact H | reflexivity]. }
    rewrite F, K, keys_of_counts, C, map_map. cbn [fst].
    split.
    + intros H. apply in_map_iff in H as ([m t] & <- & H).
      apply with_records_get in H; [|assumption]. eauto.
    + intros (t & G & Hn). apply in_map_iff. exists (n, t).
      split; [reflexivity|]. now apply with_records_get.
Qed.

Lemma returned_summary_witness :
  let out :=
    match extract sample_query sample_project with
    | Ok out => out
    | Raise _ => mk_output 0 0 0 [] []
    end in
  itemTypeCount out = 1 /\ totalItems out = 3%Z.
Proof.
  destruct (returned_summary sample_query sample_project
              (match extract sample_query sample_project with
               | Ok out => out
               | Raise _ => mk_output 0 0 0 [] []
               end))
    as (C & T & _).
  - reflexivity.
  - reflexivity.
  - vm_compute. reflexivity.
  - split; [exact C | exact T].
Defined.

(** ** Where relations come from *)

Lemma srcs_app k tn l1 l2 : srcs k tn (l1 ++ l2) = srcs k tn l1 ++ srcs k tn l2.
Proof. apply flat_map_app. Qed.

Lemma srcs_occurrences k tn names :
  Z.of_nat (List.length (srcs k tn names)) = occurrences k names.
Proof.
  unfold occurrences, srcs. induction names as [|x l IH]; [reflexivity|].
  cbn [flat_map count_occ]. rewrite length_app.
  destruct (String.eqb_spec x k) as [->|N];
    destruct (string_dec _ _) as [E|E]; try congruence; cbn [List.length];
    lia.
Qed.

Lemma srcs_In n k tn names :
  In n (srcs k tn names) <-> n = tn /\ In k names.
Proof.
  unfold srcs. rewrite in_flat_map. split.
  - intros (x & Hx & H). destruct (String.eqb_spec x k) as [->|N];
      [|contradiction].
    destruct H as [<-|[]]. auto.
  - intros [-> H]. exists k. split; [assumption|].
    rewrite String.eqb_refl. now left.
Qed.

Lemma tally_relation_from tn d rel k :
  from_of k (tally_relation tn d rel)
  = from_of k d ++ srcs k tn (entry_names rel)
  /\ to_of k (tally_relation tn d rel) = to_of k d.
Proof.
  unfold from_of, to_of. destruct rel as [o|]; cbn [tally_relation entry_names].
  - unfold srcs. cbn [flat_map].
    destruct (String.eqb_spec (type_or_unknown o) k) as [->|N].
    + rewrite get_update_same. cbn [ra_fromTypes ra_toTypes].
      destruct (get k d); now rewrite app_nil_r.
    + rewrite get_update_other by assumption. now rewrite !app_nil_r.
  - cbn. now rewrite app_nil_r.
Qed.

Lemma tally_relations_from tn rels d k :
  from_of k (fold_left (tally_relation tn) rels d)
  = from_of k d ++ srcs k tn (flat_map entry_names rels)
  /\ to_of k (fold_left (tally_relation tn) rels d) = to_of k d.
Proof.
  revert d. induction rels as [|rel rels IH]; intros d.
  - cbn. now rewrite app_nil_r.
  - cbn [fold_left flat_map].
    destruct (IH (tally_relation tn d rel)) as [-> ->].
    destruct (tally_relation_from tn d rel k) as [-> ->].
    now rewrite srcs_app, app_assoc.
Qed.

Lemma tally_records_from tn records d k :
  from_of k (fold_left (tally_record tn) records d)
  = from_of k d ++ srcs k tn (flat_map record_relation_names records)
  /\ to_of k (fold_left (tally_record tn) records d) = to_of k d.
Proof.
  revert d. induction records as [|[r|] rs IH]; intros d.
  - cbn. now rewrite app_nil_r.
  - cbn [fold_left flat_map tally_record record_relation_names].
    destruct (IH (fold_left (tally_relation tn) (r_relations r) d))
      as [-> ->].
    destruct (tally_relations_from tn (r_relations r) d k) as [-> ->].
    unfold relation_names. now rewrite srcs_app, app_assoc.
  - cbn [fold_left flat_map tally_record record_relation_names app].
    apply IH.
Qed.

Lemma tally_types_from recs d k :
  from_of k (fold_left tally_type recs d) = from_of k d ++ sources_of k recs
  /\ to_of k (fold_left tally_type recs d) = to_of k d.
Proof.
  unfold sources_of.
  revert d. induction recs as [|[tn records] recs IH]; intros d.
  - cbn. now rewrite app_nil_r.
  - cbn [fold_left flat_map fst snd]. unfold tally_type at 2 4.
    cbn [fst snd].
    destruct (IH (fold_left (tally_record tn) records d)) as [-> ->].
    destruct (tally_records_from tn records d k) as [-> ->].
    now rewrite app_assoc.
Qed.

Lemma sources_of_occurrences k recs :
  Z.of_nat (List.length (sources_of k recs))
  = occurrences k (relation_scan recs).
Proof.
  unfold sources_of, relation_scan.
  induction recs as [|e recs IH]; [reflexivity|].
  cbn [flat_map]. rewrite length_app, occurrences_app, <- IH.
  rewrite <- (srcs_occurrences k (fst e)). lia.
Qed.

Lemma sources_of_In n k recs :
  In n (sources_of k recs)
  <-> exists records,
        In (n, records) recs
        /\ In k (flat_map record_relation_names records).
Proof.
  unfold sources_of. rewrite in_flat_map. split.
  - intros ([tn records] & He & H). apply srcs_In in H as [-> H].
    exists records. auto.
  - intros (records & He & H). exists (n, records). split; [assumption|].
    apply srcs_In. auto.
Qed.

Lemma catalog_entry its recs r :
  In r (values (relation_types (_analyze_relations (analyzed its recs)))) ->
  In (relationType r) (relation_scan recs)
  /\ fromTypes r = sources_of (relationType r) recs
  /\ toTypes r = []
  /\ accessPattern r = access_pattern_of (relationType r).
Proof.
  rewrite analyze_relations_catalog. unfold values. rewrite map_map.
  cbn [snd]. intros H. apply in_map_iff in H as ([k a] & <- & Hin).
  cbn [relation_info_of relationType fromTypes toTypes accessPattern fst snd].
  destruct (relation_data_spec recs) as [Hk _]. cbn zeta in Hk.
  assert (G : get k (fold_left tally_type recs []) = Some a).
  { apply In_get; [|assumption]. rewrite Hk. apply dedup_NoDup. }
  destruct (tally_types_from recs [] k) as [Hf Ht].
  unfold from_of, to_of in Hf, Ht. rewrite G in Hf, Ht. cbn in Hf, Ht.
  repeat split; try assumption.
  apply (dedup_In k). rewrite <- Hk. now apply get_Some_keys in G.
Qed.

(** X13: an entry of the relation catalog lists under [fromTypes] the
    type of every record entry with that relation name, once per entry
    and in the order of the scan, so that [count] is the length of
    [fromTypes]; a type is listed exactly when one of its records has
    the relation.  [toTypes] is always empty. *)
Theorem relation_origins (its : od ItemTypeInfo)
    (recs : od (list (item record))) (r : RelationTypeInfo) :
  In r (values (relation_types (_analyze_relations (analyzed its recs)))) ->
  fromTypes r = sources_of (relationType r) recs
  /\ rt_count r = Z.of_nat (List.length (fromTypes r))
  /\ fromTypes r <> []
  /\ (forall n, In n (fromTypes r)
                <-> exists records,
                      In (n, records) recs
                      /\ In (relationType r)
                            (flat_map record_relation_names records))
  /\ toTypes r = []
  /\ accessPattern r = access_pattern_of (relationType r).
Proof.
  intros H. destruct (catalog_entry its recs r H) as (Hs & Hf & Ht & Ha).
  destruct (catalog_spec its recs) as (_ & Hc & _). cbn zeta in Hc.
  pose proof (Hc r H) as C.
  assert (L : rt_count r = Z.of_nat (List.length (fromTypes r)))
    by (rewrite Hf, sources_of_occurrences; exact C).
  split; [exact Hf|]. split; [exact L|]. split.
  - intros E. rewrite E in L. cbn in L. rewrite C in L.
    unfold occurrences in L.
    apply (count_occ_In string_dec) in Hs. lia.
  - split; [|split; assumption].
    intros n. rewrite Hf. apply sources_of_In.
Qed.

Lemma relation_origins_witness :
  sources_of "tests"
    [("Requirement",
      [ requirement "Login" "REQ-1" "Open" ["tests"; "refines"];
        requirement "Audit" "REQ-3" "Closed" ["tests"] ])]
  = ["Requirement"; "Requirement"].
Proof.
  symmetry.
  apply (relation_origins []
           [("Requirement",
             [ requirement "Login" "REQ-1" "Open" ["tests"; "refines"];
               requirement "Audit" "REQ-3" "Closed" ["tests"] ])]
           (mk_RelationTypeInfo "tests" ["Requirement"; "Requirement"] []
              2%Z "relations | where('type', 'tests')")).
  left. reflexivity.
Defined.

Lemma flat_map_filter_map {A B} (p q : A -> bool) (f : A -> B) l :
  (forall x, In x l -> p x = q x) ->
  flat_map (fun x => if p x then [f x] else []) l = map f (filter q l).
Proof.
  induction l as [|x l IH]; intros H; [reflexivity|].
  cbn [flat_map filter]. rewrite <- (H x) by now left.
  rewrite IH by (intros; apply H; now right).
  now destruct (p x).
Qed.

Lemma filter_map_swap {A B} (f : A -> B) (p : B -> bool) l :
  map f (filter (fun x => p (f x)) l) = filter p (map f l).
Proof.
  induction l as [|x l IH]; [reflexivity|].
  cbn [filter map]. destruct (p (f x)); cbn [map]; now rewrite IH.
Qed.

Lemma outgoing_of_catalog its recs n :
  outgoing_of n (relation_types (_analyze_relations (analyzed its recs)))
  = map outgoing_entry (relations_of n recs).
Proof.
  rewrite analyze_relations_catalog. unfold outgoing_of, relations_of.
  destruct (relation_data_spec recs) as [Hk _]. cbn zeta in Hk.
  rewrite <- Hk. unfold keys. rewrite flat_map_concat_map, map_map.
  rewrite <- flat_map_concat_map. cbn [fst snd relation_info_of fromTypes].
  rewrite (flat_map_filter_map _
             (fun e : string * relation_acc =>
                mem n (sources_of (fst e) recs))
             (fun e => outgoing_entry (fst e))).
  - rewrite <- (map_map fst outgoing_entry).
    now rewrite (filter_map_swap fst (fun k => mem n (sources_of k recs))).
  - intros [k a] Hin. cbn [fst snd].
    assert (G : get k (fold_left tally_type recs []) = Some a).
    { apply In_get; [|assumption]. fold (keys (fold_left tally_type recs [])).
      rewrite Hk. apply dedup_NoDup. }
    destruct (tally_types_from recs [] k) as [Hf _].
    unfold from_of in Hf. rewrite G in Hf. cbn in Hf. now rewrite Hf.
Qed.

(** X14: after the relation analysis every type lists under
    [outgoingRelations] the relation names met on its own records, each
    once and in the order of the catalog, with the access pattern of
    the name; nothing else of the type changes. *)
Theorem outgoing_relations (its : od ItemTypeInfo)
    (recs : od (list (item record))) :
  item_types (_analyze_relations (analyzed its recs))
  = map (fun e : string * ItemTypeInfo =>
           (fst e,
            with_outgoing (snd e)
              (map outgoing_entry (relations_of (fst e) recs))))
        its
  /\ (forall n k,
        In k (relations_of n recs)
        <-> exists records,
              In (n, records) recs
              /\ In k (flat_map record_relation_names records)).
Proof.
  split.
  - change (item_types (_analyze_relations (analyzed its recs)))
      with (map (fun entry : string * ItemTypeInfo =>
                   (fst entry,
                    with_outgoing (snd entry)
                      (outgoing_of (fst entry)
                         (relation_types
                            (_analyze_relations (analyzed its recs))))))
                its).
    apply map_ext. intros e. now rewrite outgoing_of_catalog.
  - intros n k. unfold relations_of. rewrite filter_In, dedup_In, mem_In.
    rewrite sources_of_In. split; [tauto|].
    intros (records & H1 & H2). split; [|eauto].
    unfold relation_scan. apply in_flat_map. exists (n, records). auto.
Qed.

(** ** The relation part of the output *)

Lemma fold_add_shift l a : fold_left Z.add l a = (a + fold_left Z.add l 0)%Z.
Proof.
  revert a. induction l as [|x l IH]; intros a; cbn [fold_left]; [lia|].
  rewrite (IH (a + x)%Z), (IH (0 + x)%Z). lia.
Qed.

Lemma sum_Z_cons x l : sum_Z (x :: l) = (x + sum_Z l)%Z.
Proof. unfold sum_Z. cbn [fold_left]. rewrite fold_add_shift. lia. Qed.

Lemma occurrences_cons k x l :
  occurrences k (x :: l)
  = (occurrences k l + if String.eqb x k then 1 else 0)%Z.
Proof.
  unfold occurrences. cbn [count_occ].
  destruct (String.eqb_spec x k); destruct (string_dec x k); try congruence;
    lia.
Qed.

Lemma sum_occurrences_cons ks x l :
  NoDup ks ->
  sum_Z (map (fun k => occurrences k (x :: l)) ks)
  = (sum_Z (map (fun k => occurrences k l) ks)
     + if mem x ks then 1 else 0)%Z.
Proof.
  induction ks as [|k ks IH]; intros ND; [reflexivity|].
  apply NoDup_cons_iff in ND as [Hk ND].
  cbn [map]. rewrite !sum_Z_cons, IH, occurrences_cons by assumption.
  change (mem x (k :: ks)) with (String.eqb x k || mem x ks).
  destruct (String.eqb_spec x k) as [->|N]; cbn [orb]; [|lia].
  apply mem_false in Hk. rewrite Hk. lia.
Qed.

Lemma sum_occurrences ks l :
  NoDup ks -> (forall x, In x l -> In x ks) ->
  sum_Z (map (fun k => occurrences k l) ks) = Z.of_nat (List.length l).
Proof.
  intros ND. induction l as [|x l IH]; intros H.
  - clear. induction ks as [|k ks IH]; [reflexivity|].
    cbn [map]. rewrite sum_Z_cons, IH. reflexivity.
  - rewrite sum_occurrences_cons, IH by (auto using in_cons).
    assert (M : mem x ks = true) by (apply mem_In, H; now left).
    rewrite M. cbn [List.length]. lia.
Qed.

Lemma sorted_app_le {A} (R : A -> A -> Prop) l1 l2 a b :
  StronglySorted R (l1 ++ l2) -> In a l1 -> In b l2 -> R a b.
Proof.
  induction l1 as [|x l1 IH]; intros S Ha Hb; [contradiction|].
  cbn [app] in S. apply StronglySorted_inv in S as [S F].
  destruct Ha as [->|Ha]; [|now apply IH].
  rewrite Forall_forall in F. apply F, in_or_app. now right.
Qed.

(** X15: the summary counts every relation entry met on the records,
    also those of relation names that are not listed: [totalRelations]
    is the number of entries of the scan, while ["relationTypes"] lists
    the (at most) 20 catalog entries with the highest counts, in
    descending order of the count; no entry left out has a higher count
    than a listed one. *)
Theorem relation_summary (its : od ItemTypeInfo)
    (recs : od (list (item record))) :
  let st := _analyze_relations (analyzed its recs) in
  let catalog := values (relation_types st) in
  totalRelations (_build_output st)
  = Z.of_nat (List.length (relation_scan recs))
  /\ exists listed,
       relationTypes (_build_output st)
       = map RelationTypeInfo_to_dict listed
       /\ List.length listed = Nat.min 20 (List.length catalog)
       /\ StronglySorted (fun a b => (rt_count b <= rt_count a)%Z) listed
       /\ NoDup listed
       /\ (forall r, In r listed -> In r catalog)
       /\ (forall r r', In r listed -> In r' catalog -> ~ In r' listed ->
                        (rt_count r' <= rt_count r)%Z).
Proof.
  cbn zeta. destruct (catalog_spec its recs) as (Hn & Hc & Hnd).
  cbn zeta in Hn, Hc, Hnd.
  set (st := _analyze_relations (analyzed its recs)) in *.
  set (catalog := values (relation_types st)) in *.
  split.
  - cbn [_build_output totalRelations]. fold catalog.
    rewrite (map_ext_in rt_count
               (fun r => occurrences (relationType r) (relation_scan recs)))
      by exact Hc.
    rewrite <- (map_map relationType
                  (fun k => occurrences k (relation_scan recs))), Hn.
    apply sum_occurrences; [apply dedup_NoDup|].
    intros x. apply dedup_In.
  - exists (firstn 20 (sorted_relations st)).
    assert (S : StronglySorted (fun a b => (rt_count b <= rt_count a)%Z)
                  (sorted_relations st))
      by apply sorted_by_key_desc_sorted.
    assert (P : Permutation (sorted_relations st) catalog)
      by apply sorted_perm.
    rewrite <- (firstn_skipn 20 (sorted_relations st)) in S.
    split; [reflexivity|]. split; [|split; [|split; [|split]]].
    + rewrite length_firstn. now rewrite (Permutation_length P).
    + clear - S. revert S.
      generalize (firstn 20 (sorted_relations st)) as l1.
      generalize (skipn 20 (sorted_relations st)) as l2.
      induction l1 as [|x l1 IH]; intros S; [constructor|].
      cbn [app] in S. apply StronglySorted_inv in S as [S F].
      constructor; [now apply IH|].
      rewrite Forall_forall in *. intros y Hy. apply F, in_or_app.
      now left.
    + apply firstn_NoDup.
      apply (Permutation_NoDup (Permutation_sym P)), Hnd.
    + intros r Hr. apply (Permutation_in _ P). eapply In_firstn, Hr.
    + intros r r' Hr Hr' Hn'.
      apply (Permutation_in _ (Permutation_sym P)) in Hr'.
      rewrite <- (firstn_skipn 20 (sorted_relations st)) in Hr'.
      apply in_app_or in Hr' as [Hr'|Hr']; [contradiction|].
      apply (sorted_app_le _ _ _ _ _ S Hr Hr').
Qed.

(** ** The type part of the output *)

(** X16: the output lists the types in descending order of their counts,
    types with equal counts in the order of the type map; every type is
    listed once, under its name, with its own description. *)
Theorem output_type_order (st : extractor) :
  wf (item_types st) = true ->
  exists listed,
    itemTypes (_build_output st)
    = map (fun x : string * ItemTypeInfo =>
             (fst x, JObj (ItemTypeInfo_to_dict (snd x))))
          listed
    /\ Permutation listed (item_types st)
    /\ StronglySorted count_ge listed
    /\ (forall a b, before a b (item_types st) ->
                    it_count (snd a) = it_count (snd b) ->
                    before a b listed)
    /\ itemTypeCount (_build_output st) = List.length listed.
Proof.
  intros Hwf. apply wf_NoDup in Hwf. exists (sorted_types st).
  assert (P : Permutation (sorted_types st) (item_types st))
    by apply sorted_perm.
  split; [|split; [|split; [|split]]].
  - cbn [_build_output itemTypes].
    apply (fold_set_nil fst (fun x => JObj (ItemTypeInfo_to_dict (snd x)))).
    apply (Permutation_NoDup (Permutation_map fst (Permutation_sym P))).
    exact Hwf.
  - exact P.
  - apply (sorted_by_key_desc_sorted
             (fun x : string * ItemTypeInfo => it_count (snd x))).
  - intros a b Hb E. apply sorted_stable; [assumption|].
    apply Z.leb_le. lia.
  - cbn [_build_output itemTypeCount]. symmetry.
    apply Permutation_length, P.
Qed.

Lemma output_type_order_witness :
  exists listed,
    itemTypes
      (_build_output
         (mk_extractor
            [ ("Risk", mk_ItemTypeInfo "Risk" "type:Risk" "" 2 [] [] []
                         [] []);
              ("Requirement",
               mk_ItemTypeInfo "Requirement" "type:Requirement" "" 7
                 [] [] [] [] []) ]
            [] []))
    = map (fun x : string * ItemTypeInfo =>
             (fst x, JObj (ItemTypeInfo_to_dict (snd x))))
          listed
    /\ StronglySorted count_ge listed.
Proof.
  destruct (output_type_order
              (mk_extractor
                 [ ("Risk", mk_ItemTypeInfo "Risk" "type:Risk" "" 2 [] [] []
                              [] []);
                   ("Requirement",
                    mk_ItemTypeInfo "Requirement" "type:Requirement" "" 7
                      [] [] [] [] []) ]
                 [] []) eq_refl) as (listed & H1 & _ & H2 & _).
  exists listed. split; assumption.
Defined.

(** ** Sample records *)

Lemma truncate_length text max_len :
  3 <= max_len -> String.length (_truncate text max_len) <= max_len.
Proof.
  intros H3. unfold _truncate.
  destruct (Nat.leb_spec (String.length text) max_len) as [Hle|Hgt];
    [assumption|].
  rewrite length_append, length_take. simpl. lia.
Qed.

Lemma In_set {V} k (v : V) k0 v0 d :
  In (k, v) (set k0 v0 d) -> (k = k0 /\ v = v0) \/ In (k, v) d.
Proof.
  induction d as [|[k1 v1] d IH]; simpl.
  - intros [[= <- <-]|[]]. now left.
  - destruct (String.eqb_spec k1 k0) as [->|N]; simpl.
    + intros [[= <- <-]|H]; [now left | right; now right].
    + intros [H|H]; [right; now left|].
      apply IH in H as [H|H]; [now left | right; now right].
Qed.

Lemma length_set {V} k (v : V) d :
  List.length (set k v d) <= S (List.length d).
Proof.
  induction d as [|[k1 v1] d IH]; simpl; [lia|].
  destruct (String.eqb k1 k); simpl; lia.
Qed.

Lemma sample_custom_ok fs fields custom_count sample :
  custom_count <= 4 ->
  sample_ok fields sample ->
  sample_ok fields (sample_custom fs fields custom_count sample)
  /\ List.length (sample_custom fs fields custom_count sample)
     <= List.length sample + (4 - custom_count).
Proof.
  revert custom_count sample.
  induction fs as [|field_obj fs IH]; intros c sample Hc Hok;
    cbn [sample_custom].
  - split; [assumption | lia].
  - destruct (Nat.leb_spec 4 c) as [H4|H4]; [split; [assumption | lia]|].
    destruct field_obj as [f|]; [|now apply IH].
    fold (rich_in fields (_normalize_field_name (label_or_empty f))).
    destruct (rich_in fields (_normalize_field_name (label_or_empty f)))
      eqn:R; [now apply IH|].
    destruct (negb (String.eqb (label_or_empty f) "") && truthy (fo_value f)
              && negb (eqb (fo_value f) (VStr ""))); [|now apply IH].
    destruct (IH (c + 1)
                (set (_normalize_field_name (label_or_empty f))
                     (_truncate (str (fo_value f)) 60) sample))
      as [H1 H2]; [lia| |].
    + destruct Hok as [Hnd Hall]. split; [now apply set_NoDup|].
      intros k v Hin. apply In_set in Hin as [[-> ->]|Hin]; [|now apply Hall].
      pose proof (truncate_length (str (fo_value f)) 60). split; [lia|].
      intros _. split; [lia|]. split; [apply no_space_normalized | exact R].
    + split; [assumption|].
      pose proof (length_set (_normalize_field_name (label_or_empty f))
                    (_truncate (str (fo_value f)) 60) sample).
      lia.
Qed.

Lemma sample_of_record_ok r fields :
  sample_ok fields (sample_of_record r fields)
  /\ List.length (sample_of_record r fields) <= 5.
Proof.
  unfold sample_of_record.
  destruct (truthy (r_title r)).
  - destruct (sample_custom_ok (r_fields r) fields 0
                [("title", _truncate (str (r_title r)) 80)]) as [H1 H2];
      [lia| |].
    + split; [repeat constructor; intros []|].
      intros k v [[= <- <-]|[]]. split; [apply truncate_length; lia|].
      congruence.
    + split; [assumption | cbn in H2; lia].
  - destruct (sample_custom_ok (r_fields r) fields 0 []) as [H1 H2];
      [lia| |].
    + split; [constructor | intros k v []].
    + split; [assumption | cbn in H2; lia].
Qed.

Lemma build_samples_step records fields acc :
  let step :=
    fun samples (record : item record) =>
      match record with
      | NonDict => samples
      | Dict r =>
          let sample := sample_of_record r fields in
          if negb (is_nil sample) then samples ++ [sample] else samples
      end in
  List.length (fold_left step records acc)
  <= List.length acc + List.length records
  /\ forall sample, In sample (fold_left step records acc) ->
       In sample acc
       \/ (sample <> []
           /\ exists r, In (Dict r) records
                        /\ sample = sample_of_record r fields).
Proof.
  cbn zeta. revert acc. induction records as [|[r|] rs IH]; intros acc;
    cbn [fold_left].
  - split; [cbn; lia | auto].
  - destruct (IH (if negb (is_nil (sample_of_record r fields))
                  then acc ++ [sample_of_record r fields] else acc))
      as [H1 H2].
    split.
    + etransitivity; [exact H1|].
      destruct (negb _); rewrite ?length_app; cbn; lia.
    + intros sample Hin. apply H2 in Hin as [Hin|(Hn & r' & Hr & E)].
      * destruct (is_nil (sample_of_record r fields)) eqn:N; cbn [negb] in Hin;
          [now left|].
        apply in_app_or in Hin as [Hin|[<-|[]]]; [now left|].
        right. split; [intros E; now rewrite E in N|].
        exists r. split; [now left | reflexivity].
      * right. split; [assumption|]. exists r'. split; [now right | exact E].
  - destruct (IH acc) as [H1 H2]. split; [cbn; lia|].
    intros sample Hin. apply H2 in Hin as [Hin|(Hn & r' & Hr & E)];
      [now left|].
    right. split; [assumption|]. exists r'. split; [now right | exact E].
Qed.

(** X17: there are at most 3 sample records, each taken from one of the
    first 3 records and none empty; a sample has at most 5 entries under
    distinct keys, every value has at most 80 characters, and an entry
    under a key other than "title" has at most 60 characters and belongs
    to a field that is not known as rich text. *)
Theorem sample_records_bounds (records : list (item record))
    (fields : od FieldInfo) :
  List.length (_build_sample_records records fields) <= 3
  /\ forall sample, In sample (_build_sample_records records fields) ->
       sample <> []
       /\ (exists r, In (Dict r) (firstn 3 records)
                     /\ sample = sample_of_record r fields)
       /\ List.length sample <= 5
       /\ sample_ok fields sample.
Proof.
  destruct (build_samples_step (firstn MAX_SAMPLE_RECORDS records) fields [])
    as [H1 H2]. cbn zeta in H1, H2.
  split.
  - unfold _build_sample_records. etransitivity; [exact H1|].
    rewrite length_firstn. unfold MAX_SAMPLE_RECORDS. cbn [List.length].
    lia.
  - intros sample Hin. apply H2 in Hin as [[]|(Hn & r & Hr & ->)].
    destruct (sample_of_record_ok r fields) as [Hok Hlen].
    split; [assumption|]. split; [eauto|]. split; assumption.
Qed.

(** ** The fetch *)

Lemma keys_map_snd {V W} (f : V -> W) (l : od V) :
  keys (map (fun e => (fst e, f (snd e))) l) = keys l.
Proof. unfold keys. rewrite map_map. reflexivity. Qed.

(** X18: after the fetch the type map and the record map have the same
    keys in the same order: the types with at least one fetched record,
    in the order in which they were discovered.  No stored record list
    is empty, each is what the fetch of its type returned, and the count
    of a type is the total that the fetch reported. *)
Theorem fetch_alignment (q : string -> option response) (st : extractor) :
  wf (item_types st) = true ->
  all_records_by_type st = [] ->
  let st' := _fetch_records_by_type q st in
  keys (item_types st') = keys (with_records q (item_types st))
  /\ keys (all_records_by_type st') = keys (item_types st')
  /\ wf (item_types st') = true
  /\ relation_types st' = relation_types st
  /\ (forall n records,
        In (n, records) (all_records_by_type st') ->
        records <> []
        /\ exists t, get n (item_types st) = Some t
                     /\ records = fetched_records q t)
  /\ (forall n t',
        In (n, t') (item_types st') ->
        exists t, get n (item_types st) = Some t
                  /\ it_count t' = fetched_total q t
                  /\ it_name t' = it_name t
                  /\ kqlQuery t' = kqlQuery t
                  /\ statuses t' = statuses t
                  /\ fields t' = fields t).
Proof.
  intros Hwf Hrecs. cbn zeta. pose proof Hwf as Hnd. apply wf_NoDup in Hnd.
  pose proof (with_records_NoDup q _ Hnd) as Hnd'.
  rewrite fetch_records_by_type_spec by assumption.
  cbn [item_types all_records_by_type relation_types].
  rewrite Hrecs, kept_records_with_records, kept_types_with_records.
  rewrite (fold_set_fresh fst snd)
    by (cbn [keys map app]; rewrite map_map; exact Hnd').
  cbn [app]. rewrite map_map. cbn [fst snd]. rewrite !keys_map_snd.
  split; [reflexivity|]. split; [reflexivity|]. split.
  { apply wf_NoDup. rewrite keys_map_snd. exact Hnd'. }
  split; [reflexivity|]. split.
  - intros n records Hin.
    apply in_map_iff in Hin as ([m t] & [= <- <-] & Hin).
    apply with_records_get in Hin as [G Hn]; [|assumption]. eauto.
  - intros n t' Hin.
    apply in_map_iff in Hin as ([m t] & [= <- <-] & Hin).
    apply with_records_get in Hin as [G Hn]; [|assumption].
    exists t. repeat split; assumption.
Qed.

Lemma fetch_alignment_witness :
  keys (item_types (_fetch_records_by_type sample_query sample_project))
  = ["Requirement"]
  /\ keys (all_records_by_type
             (_fetch_records_by_type sample_query sample_project))
     = keys (item_types (_fetch_records_by_type sample_query sample_project)).
Proof.
  destruct (fetch_alignment sample_query sample_project eq_refl eq_refl)
    as (H1 & H2 & _).
  split; [exact H1 | exact H2].
Defined.

(** ** The selected version *)

Lemma version_objects_map vs : version_objects (map Dict vs) = VOk vs.
Proof. induction vs as [|v vs IH]; cbn; [reflexivity | now rewrite IH]. Qed.

Lemma version_objects_raises versions :
  In NonDict versions -> version_objects versions = VRaise VAttributeError.
Proof.
  induction versions as [|[v|] vs IH]; cbn; intros H.
  - contradiction.
  - destruct H as [H|H]; [discriminate | now rewrite IH].
  - reflexivity.
Qed.

Lemma last_default {A} (l : list A) a d d' : last (a :: l) d = last (a :: l) d'.
Proof.
  revert a. induction l as [|b l IH]; intros a; [reflexivity|].
  change (last (b :: l) d = last (b :: l) d'). apply IH.
Qed.

Lemma last_head {A} (l : list A) a d : last l a = last (a :: l) d.
Proof.
  destruct l as [|b l]; [reflexivity|].
  change (last (b :: l) a = last (b :: l) d). apply last_default.
Qed.

Lemma last_of_app {A} (l : list A) v r rs :
  l ++ [v] = r :: rs -> last rs r = v.
Proof. intros E. now rewrite (last_head rs r v), <- E, last_last. Qed.

Lemma filter_none {A} (p : A -> bool) l :
  forallb (fun x => negb (p x)) l = true -> filter p l = [].
Proof.
  induction l as [|x l IH]; cbn; [reflexivity|].
  intros H. apply andb_true_iff in H as [H1 H2].
  apply negb_true_iff in H1. rewrite H1. now apply IH.
Qed.

Lemma value_eqb_refl (x : value) : eqb x x = true.
Proof.
  destruct x as [|b|n|s]; cbn.
  - reflexivity.
  - now destruct b.
  - apply Z.eqb_refl.
  - apply String.eqb_refl.
Qed.

Lemma current_version_first i l1 v l2 :
  (forall u, In u l1 -> eqb (get_id u) i = false) ->
  eqb (get_id v) i = true ->
  current_version i (map Dict (l1 ++ v :: l2)) = VOk (Some v).
Proof.
  intros H Hv. induction l1 as [|u l1 IH]; cbn.
  - now rewrite Hv.
  - rewrite (H u) by now left. apply IH. intros; apply H. now right.
Qed.

(** X19: without a version id on the command line, [extract] selects
    the last released version of the list, and the last version when
    none is released; reading the id of that version fails when it has
    none.  The current version is then this version, unless an earlier
    version has an equal id. *)
Theorem auto_selected_version (version_id : value) (l1 l2 : list version)
    (v : version) :
  truthy version_id = false ->
  forallb (fun u => negb (is_released u)) l2 = true ->
  is_released v = true
  \/ (l2 = [] /\ forallb (fun u => negb (is_released u)) (l1 ++ [v]) = true) ->
  select_version version_id (map Dict (l1 ++ v :: l2)) = id_of v
  /\ (ver_id v = None ->
      select_version version_id (map Dict (l1 ++ v :: l2))
      = VRaise VKeyError)
  /\ (forall i, ver_id v = Some i ->
        (forall u, In u l1 -> eqb (get_id u) i = false) ->
        current_version i (map Dict (l1 ++ v :: l2)) = VOk (Some v)).
Proof.
  intros Hid Hl2 Hv.
  assert (S : select_version version_id (map Dict (l1 ++ v :: l2))
              = id_of v).
  { unfold select_version. rewrite Hid, version_objects_map.
    assert (N : is_nil (map Dict (l1 ++ v :: l2)) = false)
      by (destruct l1; reflexivity).
    rewrite N. cbn [negb andb].
    destruct (l1 ++ v :: l2) as [|v0 vs] eqn:E; [now destruct l1|].
    rewrite <- E. destruct Hv as [Hv|[-> Hnone]].
    - rewrite filter_app. cbn [filter]. rewrite Hv, (filter_none _ _ Hl2).
      destruct (filter is_released l1 ++ [v]) as [|r rs] eqn:F;
        [now destruct (filter is_released l1)|].
      now rewrite (last_of_app _ _ _ _ F).
    - rewrite (filter_none _ _ Hnone).
      now rewrite (last_of_app _ _ _ _ E). }
  split; [exact S|]. split.
  - intros Hn. rewrite S. unfold id_of. now rewrite Hn.
  - intros i Hi Hfirst. apply current_version_first; [assumption|].
    unfold get_id. rewrite Hi. apply value_eqb_refl.
Qed.

Lemma auto_selected_version_witness :
  select_version VNone
    (map Dict
       [ mk_version (Some (VStr "v1")) (VStr "1.0") (VBool true);
         mk_version (Some (VStr "v2")) (VStr "2.0") (VBool true);
         mk_version (Some (VStr "v3")) (VStr "3.0") (VBool false) ])
  = VOk (VStr "v2").
Proof.
  apply (auto_selected_version VNone
           [ mk_version (Some (VStr "v1")) (VStr "1.0") (VBool true) ]
           [ mk_version (Some (VStr "v3")) (VStr "3.0") (VBool false) ]
           (mk_version (Some (VStr "v2")) (VStr "2.0") (VBool true))).
  - reflexivity.
  - reflexivity.
  - left. reflexivity.
Defined.

Lemma current_version_none i vs :
  (forall u, In u vs -> eqb (get_id u) i = false) ->
  current_version i (map Dict vs) = VOk None.
Proof.
  induction vs as [|u vs IH]; intros H; cbn; [reflexivity|].
  rewrite (H u) by now left. apply IH. intros; apply H. now right.
Qed.

(** X20: a version id given on the command line is never replaced and
    never checked: it is kept also when the list of versions is
    malformed, and when no version has this id the run goes on with no
    current version.  Without an id, a version entry that is not an
    object makes the selection raise [AttributeError]. *)
Theorem explicit_version_kept (version_id : value)
    (versions : list (item version)) :
  truthy version_id = true ->
  select_version version_id versions = VOk version_id
  /\ (forall vs, versions = map Dict vs ->
        (forall u, In u vs -> eqb (get_id u) version_id = false) ->
        current_version version_id versions = VOk None)
  /\ (In NonDict versions ->
      select_version VNone versions = VRaise VAttributeError).
Proof.
  intros H. split; [|split].
  - unfold select_version. now rewrite H.
  - intros vs -> Hno. now apply current_version_none.
  - intros Hbad. unfold select_version. cbn [truthy negb andb].
    destruct versions as [|x l]; [contradiction|]. cbn [is_nil negb].
    now rewrite version_objects_raises.
Qed.

Lemma explicit_version_kept_witness :
  select_version (VStr "v9")
    [ Dict (mk_version (Some (VStr "v1")) (VStr "1.0") (VBool true));
      NonDict ]
  = VOk (VStr "v9")
  /\ select_version VNone
       [ Dict (mk_version (Some (VStr "v1")) (VStr "1.0") (VBool true));
         NonDict ]
     = VRaise VAttributeError.
Proof.
  destruct (explicit_version_kept (VStr "v9")
              [ Dict (mk_version (Some (VStr "v1")) (VStr "1.0")
                        (VBool true));
                NonDict ] eq_refl) as (H1 & _ & H3).
  split; [exact H1|]. apply H3. right. left. reflexivity.
Defined.

(** ** Discovery *)

Lemma set_add_NoDup x s : NoDup s -> NoDup (set_add x s).
Proof.
  unfold set_add. destruct (mem x s) eqn:M; [trivial|].
  intros H. apply mem_false in M.
  apply NoDup_app; [assumption | repeat constructor; intros [] |].
  intros a Ha [<-|[]]. contradiction.
Qed.

Lemma types_of_records_spec records s n :
  In n (types_of_records records s)
  <-> In n s
      \/ (n <> EmptyString
          /\ exists r, In (Dict r) records /\ ir_type r = Some n).
Proof.
  unfold types_of_records. revert s.
  induction records as [|[r|] rs IH]; intros s; cbn [fold_left].
  - split; [tauto|]. intros [H|(_ & r & [] & _)]. exact H.
  - rewrite IH. unfold type_or_empty.
    destruct (ir_type r) as [t|] eqn:T.
    + destruct (String.eqb_spec t EmptyString) as [->|N]; cbn [negb].
      * split; (intros [H|(Hn & r' & Hr & E)]; [now left|]); right;
          (split; [assumption|]); exists r'.
        -- split; [now right | assumption].
        -- destruct Hr as [[= <-]|Hr]; [congruence | now split].
      * rewrite set_add_In. split.
        -- intros [[->|H]|(Hn & r' & Hr & E)]; [|now left|].
           ++ right. split; [assumption|]. exists r.
              split; [now left | assumption].
           ++ right. split; [assumption|]. exists r'.
              split; [now right | assumption].
        -- intros [H|(Hn & r' & [[= <-]|Hr] & E)]; [left; now right | |].
           ++ left. left. congruence.
           ++ right. split; [assumption|]. now exists r'.
    + cbn [String.eqb negb].
      split; (intros [H|(Hn & r' & Hr & E)]; [now left|]); right;
        (split; [assumption|]); exists r'.
      * split; [now right | assumption].
      * destruct Hr as [[= <-]|Hr]; [congruence | now split].
  - rewrite IH.
    split; (intros [H|(Hn & r' & Hr & E)]; [now left|]); right;
      (split; [assumption|]); exists r'.
    + split; [now right | assumption].
    + destruct Hr as [Hr|Hr]; [discriminate | now split].
Qed.

Lemma types_of_records_NoDup records s :
  NoDup s -> NoDup (types_of_records records s).
Proof.
  unfold types_of_records. revert s.
  induction records as [|[r|] rs IH]; intros s H; cbn [fold_left];
    [assumption | | now apply IH].
  apply IH. destruct (negb _); [now apply set_add_NoDup | assumption].
Qed.

Lemma sampling_spec q l s n :
  In n (fold_left (sample_item q) l s)
  <-> In n s
      \/ (n <> EmptyString
          /\ exists i records r,
               In (Dict i) l
               /\ truthy (io_id i) = true
               /\ q (io_id i) = Some records
               /\ In (Dict r) records
               /\ ir_type r = Some n).
Proof.
  revert s. induction l as [|[i|] l IH]; intros s; cbn [fold_left].
  - split; [tauto|]. intros [H|(_ & i & ? & ? & [] & _)]. exact H.
  - rewrite IH. cbn [sample_item].
    assert (K : (exists i0 records r,
                   In (Dict i0) (Dict i :: l)
                   /\ truthy (io_id i0) = true
                   /\ q (io_id i0) = Some records
                   /\ In (Dict r) records /\ ir_type r = Some n)
                <-> (truthy (io_id i) = true
                     /\ exists records r,
                          q (io_id i) = Some records
                          /\ In (Dict r) records /\ ir_type r = Some n)
                    \/ (exists i0 records r,
                          In (Dict i0) l
                          /\ truthy (io_id i0) = true
                          /\ q (io_id i0) = Some records
                          /\ In (Dict r) records /\ ir_type r = Some n)).
    { split.
      - intros (i0 & records & r & Hi & H1 & H2 & H3).
        destruct Hi as [Hi|Hi].
        + injection Hi as <-. left. split; [assumption|].
          exists records, r. auto.
        + right. exists i0, records, r. auto.
      - intros [(H1 & records & r & H2)|(i0 & records & r & Hi & H)].
        + exists i, records, r. split; [now left | auto].
        + exists i0, records, r. split; [now right | auto]. }
    rewrite K. clear K.
    destruct (truthy (io_id i)) eqn:T; cbn [negb].
    + destruct (q (io_id i)) as [records|] eqn:Q.
      * rewrite types_of_records_spec. split.
        -- intros [[H|(Hn & r & Hr & E)]|(Hn & H)]; [now left | |].
           ++ right. split; [assumption|]. left. split; [reflexivity|].
              exists records, r. auto.
           ++ right. split; [assumption|]. now right.
        -- intros [H|(Hn & [(_ & recs & r & [= <-] & Hr & E)|H])].
           ++ left. now left.
           ++ left. right. split; [assumption|]. now exists r.
           ++ right. now split.
      * split.
        -- intros [H|(Hn & H)]; [now left|]. right. split; [assumption|].
           now right.
        -- intros [H|(Hn & [(_ & recs & r & [=] & _)|H])]; [now left|].
           right. now split.
    + split.
      * intros [H|(Hn & H)]; [now left|]. right. split; [assumption|].
        now right.
      * intros [H|(Hn & [([=] & _)|H])]; [now left|].
        right. now split.
  - rewrite IH. cbn [sample_item].
    split; (intros [H|(Hn & i & records & r & Hi & H)]; [now left|]);
      right; (split; [assumption|]); exists i, records, r.
    + split; [now right | assumption].
    + destruct Hi as [Hi|Hi]; [discriminate | now split].
Qed.

Lemma sampling_NoDup q l s :
  NoDup s -> NoDup (fold_left (sample_item q) l s).
Proof.
  revert s. induction l as [|[i|] l IH]; intros s H; cbn [fold_left];
    [assumption | | now apply IH].
  apply IH. cbn [sample_item]. destruct (negb _); [assumption|].
  destruct (q (io_id i)); [now apply types_of_records_NoDup | assumption].
Qed.

Lemma discovered_keys listing d :
  NoDup (keys d ++ filter named listing) ->
  keys (fold_left
          (fun (d : od ItemTypeInfo) type_name =>
             if String.eqb type_name "" || String.eqb type_name "Unknown"
             then d
             else set type_name (new_ItemTypeInfo type_name (kql_of type_name))
                      d)
          listing d)
  = keys d ++ filter named listing.
Proof.
  revert d. induction listing as [|x l IH]; intros d H; cbn [fold_left filter].
  - now rewrite app_nil_r.
  - cbn [filter] in H. unfold named at 1. unfold named at 1 in H.
    destruct (String.eqb x "" || String.eqb x "Unknown"); cbn [negb] in *.
    + now apply IH.
    + assert (M : mem x (keys d) = false).
      { apply mem_false. apply NoDup_remove_2 in H.
        rewrite in_app_iff in H. tauto. }
      rewrite IH; rewrite keys_set, M, <- app_assoc; [reflexivity|].
      exact H.
Qed.

(** X21: whatever the order in which the set of discovered types is
    listed, the type map gets one entry for each record type met while
    sampling, other than "Unknown": a type is met when a record of one
    of the first 50 items carries it, the item having an id and an
    answer.  A type that is only carried by later items is not
    discovered. *)
Theorem discovery_sampling
    (get_item_records : value -> option (list (item item_record)))
    (items : list (item item_obj)) (listing : list string) :
  Permutation listing (discovered_types get_item_records items) ->
  keys (item_types (discovered listing))
  = filter (fun n => negb (String.eqb n "Unknown")) listing
  /\ NoDup listing
  /\ (forall n, In n listing
                <-> n <> EmptyString /\ met get_item_records items n)
  /\ (forall n, In n (keys (item_types (discovered listing)))
                <-> n <> EmptyString /\ n <> "Unknown"
                    /\ met get_item_records items n).
Proof.
  intros P.
  assert (ND : NoDup listing).
  { apply (Permutation_NoDup (Permutation_sym P)).
    apply sampling_NoDup. constructor. }
  assert (M : forall n, In n listing
                        <-> n <> EmptyString /\ met get_item_records items n).
  { intros n. split.
    - intros H. apply (Permutation_in _ P) in H.
      apply sampling_spec in H as [[]|H]. exact H.
    - intros H. apply (Permutation_in _ (Permutation_sym P)).
      apply sampling_spec. now right. }
  assert (F : filter named listing
              = filter (fun n => negb (String.eqb n "Unknown")) listing).
  { apply filter_ext_in. intros n Hn. apply M in Hn as [Hn _].
    unfold named. apply String.eqb_neq in Hn. now rewrite Hn. }
  assert (K : keys (item_types (discovered listing))
              = filter (fun n => negb (String.eqb n "Unknown")) listing).
  { rewrite <- F.
    apply (discovered_keys listing []). cbn [keys map app].
    now apply NoDup_filter. }
  split; [exact K|]. split; [exact ND|]. split; [exact M|].
  intros n. rewrite K, filter_In, M, negb_true_iff, String.eqb_neq. tauto.
Qed.

Lemma discovery_sampling_witness :
  keys (item_types (discovered ["Risk"; "Unknown"; "Requirement"]))
  = ["Risk"; "Requirement"].
Proof.
  apply (discovery_sampling
           (fun item_id =>
              if eqb item_id (VStr "item-1")
              then Some [ Dict (mk_item_record (Some "Requirement"));
                          Dict (mk_item_record (Some "Unknown"));
                          NonDict;
                          Dict (mk_item_record (Some "Risk"));
                          Dict (mk_item_record (Some "Requirement")) ]
              else None)
           [ Dict (mk_item_obj (VStr "item-1"));
             Dict (mk_item_obj VNone);
             Dict (mk_item_obj (VStr "item-2")) ]
           ["Risk"; "Unknown"; "Requirement"]).
  exact (Permutation_sym
           (Permutation_rev ["Requirement"; "Unknown"; "Risk"])).
Defined.

(** ** Types are analysed one by one *)

Lemma analyze_types_get l its its' n :
  NoDup (keys l) ->
  analyze_types l its = Ok its' ->
  (forall recs t, get n l = Some recs -> recs <> [] ->
                  get n its = Some t ->
                  exists t', analyze_type t recs = Ok t'
                             /\ get n its' = Some t')
  /\ (get n l = None \/ get n l = Some [] -> get n its' = get n its)
  /\ (get n its = None -> get n its' = None).
Proof.
  revert its. induction l as [|[m r] l IH]; intros its ND H.
  - cbn in H. injection H as <-. split; [discriminate|]. auto.
  - cbn [keys map fst] in ND. apply NoDup_cons_iff in ND as [Hm ND].
    fold (keys l) in Hm.
    assert (Hl : m = n -> get n l = None)
      by (intros <-; now apply get_None_keys).
    cbn [analyze_types] in H. cbn [get].
    destruct (String.eqb_spec m n) as [E|N].
    + specialize (Hl E). subst m.
      destruct r as [|x r]; cbn [is_nil] in H.
      * destruct (IH its ND H) as (_ & I2 & I3).
        split; [intros recs t [= <-] Hn; now contradiction Hn|].
        split; [intros _; apply I2; now left | exact I3].
      * destruct (get n its) as [t|] eqn:G.
        -- destruct (analyze_type t (x :: r)) as [t'|e] eqn:A;
             cbn [bind] in H; [|discriminate].
           destruct (IH _ ND H) as (_ & I2 & _).
           rewrite get_set_same in I2.
           split; [|split].
           ++ intros recs t0 [= <-] _ [= <-]. exists t'.
              split; [assumption | apply I2; now left].
           ++ intros [D|D]; discriminate.
           ++ discriminate.
        -- destruct (IH its ND H) as (_ & I2 & I3).
           split; [discriminate|].
           split; [intros [D|D]; discriminate | intros _; now apply I3].
    + destruct (is_nil r); [now apply IH|].
      destruct (get m its) as [t|] eqn:G; [|now apply IH].
      destruct (analyze_type t r) as [t'|e]; cbn [bind] in H;
        [|discriminate].
      destruct (IH _ ND H) as (I1 & I2 & I3).
      rewrite get_set_other in I1, I2, I3 by assumption.
      auto.
Qed.

(** X22: the types are analysed one by one, each from the records stored
    under its own name: when the analysis of all types returns, the
    entry of a type with records is the result of analysing it on these
    records alone, and every other entry is left as it was.  The names
    of the types, the stored records and the relation types are not
    touched. *)
Theorem types_analysed_independently (st st' : extractor) (n : string) :
  wf (all_records_by_type st) = true ->
  _analyze_all_fields st = Ok st' ->
  keys (item_types st') = keys (item_types st)
  /\ all_records_by_type st' = all_records_by_type st
  /\ relation_types st' = relation_types st
  /\ (forall recs t,
        get n (all_records_by_type st) = Some recs -> recs <> [] ->
        get n (item_types st) = Some t ->
        exists t', analyze_type t recs = Ok t'
                   /\ get n (item_types st') = Some t')
  /\ (get n (all_records_by_type st) = None
      \/ get n (all_records_by_type st) = Some [] ->
      get n (item_types st') = get n (item_types st)).
Proof.
  intros Hwf H. apply wf_NoDup in Hwf. unfold _analyze_all_fields in H.
  destruct (analyze_types (all_records_by_type st) (item_types st))
    as [its'|e] eqn:A; cbn [bind] in H; [|discriminate].
  injection H as <-. cbn [item_types all_records_by_type relation_types].
  destruct (analyze_types_get _ _ _ n Hwf A) as (I1 & I2 & _).
  split; [exact (analyze_types_keys _ _ _ A)|].
  split; [reflexivity|]. split; [reflexivity|].
  split; assumption.
Qed.

Lemma types_analysed_independently_witness :
  get "Risk"
    (item_types
       (match _analyze_all_fields
                (mk_extractor
                   [("Requirement",
                     new_ItemTypeInfo "Requirement" "type:Requirement");
                    ("Risk", new_ItemTypeInfo "Risk" "type:Risk")]
                   []
                   [("Requirement",
                     [requirement "Login" "REQ-1" "Open" []])])
        with
        | Ok st' => st'
        | Raise _ => mk_extractor [] [] []
        end))
  = Some (new_ItemTypeInfo "Risk" "type:Risk").
Proof.
  apply (types_analysed_independently
           (mk_extractor
              [("Requirement",
                new_ItemTypeInfo "Requirement" "type:Requirement");
               ("Risk", new_ItemTypeInfo "Risk" "type:Risk")]
              []
              [("Requirement", [requirement "Login" "REQ-1" "Open" []])])
           _ "Risk").
  - reflexivity.
  - reflexivity.
  - left. reflexivity.
Defined.

(** ** From the fetch to the output *)

(** X23: the whole run, type by type.  Started after discovery, with no
    records and no relation types stored, a run that returns describes
    every type with fetched records by the analysis of this type on its
    own fetched records, completed by the relations met on them. *)
Theorem extracted_type_entry (q : string -> option response)
    (st : extractor) (out : output) (n : string) (t : ItemTypeInfo) :
  wf (item_types st) = true ->
  all_records_by_type st = [] ->
  relation_types st = [] ->
  extract q st = Ok out ->
  get n (item_types st) = Some t ->
  fetched_records q t <> [] ->
  exists t',
    analyze_type (fetched_type q t) (fetched_records q t) = Ok t'
    /\ get n (itemTypes out)
       = Some (JObj (ItemTypeInfo_to_dict
                       (with_outgoing t'
                          (map outgoing_entry
                               (relations_of n
                                  (kept_records q (item_types st))))))).
Proof.
  intros Hwf Hrecs Hrel Hex G Hn. pose proof Hwf as Hnd.
  apply wf_NoDup in Hnd.
  pose proof (with_records_NoDup q _ Hnd) as Hnd'.
  assert (Hnil : is_nil (fetched_records q t) = false)
    by (destruct (fetched_records q t); [contradiction | reflexivity]).
  unfold extract, _analyze_all_fields in Hex.
  rewrite fetch_records_by_type_spec in Hex by assumption.
  cbn [item_types all_records_by_type relation_types] in Hex.
  rewrite Hrecs, Hrel in Hex.
  assert (R : fold_left (fun d e => set (fst e) (snd e) d)
                (kept_records q (item_types st)) []
              = kept_records q (item_types st)).
  { rewrite (fold_set_fresh fst snd).
    - cbn [app]. rewrite map_ext with (g := fun x => x) by (now intros []).
      apply map_id.
    - cbn [keys map app]. rewrite kept_records_with_records, map_map.
      exact Hnd'. }
  assert (GR : get n (kept_records q (item_types st))
               = Some (fetched_records q t)).
  { rewrite <- R, get_kept_records by assumption. now rewrite G, Hnil. }
  assert (GT : get n (kept_types q (item_types st))
               = Some (fetched_type q t)).
  { rewrite get_kept_types by assumption. now rewrite G, Hnil. }
  rewrite R in Hex.
  destruct (analyze_types _ _) as [its'|e] eqn:A; cbn [bind] in Hex;
    [|discriminate].
  injection Hex as <-.
  assert (NDR : NoDup (keys (kept_records q (item_types st))))
    by (rewrite kept_records_with_records, keys_map_snd; exact Hnd').
  destruct (analyze_types_get _ _ _ n NDR A) as (I1 & _ & _).
  destruct (I1 _ _ GR Hn GT) as (t' & At & Gt).
  exists t'. split; [exact At|].
  assert (NDK : NoDup (keys its')).
  { rewrite (analyze_types_keys _ _ _ A), kept_types_with_records,
      keys_map_snd. exact Hnd'. }
  change (mk_extractor its' [] (kept_records q (item_types st)))
    with (analyzed its' (kept_records q (item_types st))).
  set (recs := kept_records q (item_types st)) in *.
  set (st' := _analyze_relations (analyzed its' recs)).
  assert (IT : item_types st'
               = map (fun e : string * ItemTypeInfo =>
                        (fst e,
                         with_outgoing (snd e)
                           (map outgoing_entry (relations_of (fst e) recs))))
                     its').
  { change (item_types st')
      with (map (fun entry : string * ItemTypeInfo =>
                   (fst entry,
                    with_outgoing (snd entry)
                      (outgoing_of (fst entry)
                         (relation_types
                            (_analyze_relations (analyzed its' recs))))))
                its').
    apply map_ext. intros e. now rewrite outgoing_of_catalog. }
  assert (P : Permutation (sorted_types st') (item_types st'))
    by apply sorted_perm.
  assert (NDS : NoDup (map fst (sorted_types st'))).
  { apply (Permutation_NoDup (Permutation_map fst (Permutation_sym P))).
    rewrite IT, map_map. exact NDK. }
  cbn [_build_output itemTypes].
  rewrite (fold_set_nil fst (fun x => JObj (ItemTypeInfo_to_dict (snd x))))
    by exact NDS.
  apply In_get.
  - unfold keys. rewrite map_map. exact NDS.
  - apply in_map_iff.
    exists (n, with_outgoing t' (map outgoing_entry (relations_of n recs))).
    split; [reflexivity|].
    apply (Permutation_in _ (Permutation_sym P)). rewrite IT.
    apply in_map_iff. exists (n, t'). split; [reflexivity|].
    now apply get_In.
Qed.

Lemma extracted_type_entry_witness :
  exists t',
    analyze_type
      (fetched_type sample_query
         (new_ItemTypeInfo "Requirement" "type:Requirement"))
      (fetched_records sample_query
         (new_ItemTypeInfo "Requirement" "type:Requirement"))
    = Ok t'
    /\ get "Requirement"
         (itemTypes
            (match extract sample_query sample_project with
             | Ok out => out
             | Raise _ => mk_output 0 0 0 [] []
             end))
       = Some (JObj (ItemTypeInfo_to_dict
                       (with_outgoing t'
                          (map outgoing_entry
                               (relations_of "Requirement"
                                  (kept_records sample_query
                                     (item_types sample_project))))))).
Proof.
  apply (extracted_type_entry sample_query sample_project _ "Requirement"
           (new_ItemTypeInfo "Requirement" "type:Requirement")).
  - reflexivity.
  - reflexivity.
  - reflexivity.
  - vm_compute. reflexivity.
  - reflexivity.
  - discriminate.
Defined.

(** ** Statuses that are numbers *)

Lemma insert_ext {A} (le1 le2 : A -> A -> bool) x l :
  (forall y, In y l -> le1 x y = le2 x y) ->
  insert le1 x l = insert le2 x l.
Proof.
  induction l as [|y l IH]; intros H; [reflexivity|].
  cbn [insert]. rewrite (H y) by now left.
  destruct (le2 x y); [reflexivity|]. f_equal. apply IH.
  intros; apply H. now right.
Qed.

Lemma sorted_ext {A} (le1 le2 : A -> A -> bool) l :
  (forall a b, In a l -> In b l -> le1 a b = le2 a b) ->
  sorted le1 l = sorted le2 l.
Proof.
  induction l as [|x l IH]; intros H; [reflexivity|].
  cbn [sorted]. rewrite IH by (intros; apply H; now right).
  apply insert_ext. intros y Hy. apply H; [now left|]. right.
  apply (Permutation_in _ (sorted_perm le2 l) Hy).
Qed.

Lemma value_le_num a b :
  is_num a = true -> is_num b = true -> value_le a b = num_le a b.
Proof.
  unfold is_num, num_le, num.
  destruct a, b; cbn; intros; try discriminate; reflexivity.
Qed.

Lemma sorted_values_numbers l :
  forallb is_num l = true -> sorted_values l = Ok (sorted num_le l).
Proof.
  intros H.
  assert (E : sorted value_le l = sorted num_le l).
  { apply sorted_ext. rewrite forallb_forall in H.
    intros a b Ha Hb. apply value_le_num; now apply H. }
  unfold sorted_values. fold is_num. unfold all_num. fold is_num.
  rewrite H, orb_true_r, E.
  destruct l as [|a [|b l]]; reflexivity.
Qed.

Lemma eqb_num a b :
  is_num a = true -> is_num b = true -> eqb a b = (num a =? num b)%Z.
Proof.
  unfold is_num, num.
  destruct a, b; cbn; intros; try discriminate; reflexivity.
Qed.

Lemma in_list_num v sts :
  is_num v = true -> forallb is_num sts = true ->
  in_list v sts = false -> ~ In (num v) (map num sts).
Proof.
  intros Hv Hs Hin H. apply in_map_iff in H as (w & E & Hw).
  rewrite forallb_forall in Hs.
  assert (X : eqb v w = true)
    by (rewrite eqb_num by auto; apply Z.eqb_eq; congruence).
  unfold in_list in Hin.
  assert (Y : existsb (eqb v) sts = true)
    by (apply existsb_exists; eauto).
  congruence.
Qed.

Lemma collected_numbers vals sts :
  (forall v, In v vals -> truthy v = true -> is_str v = false) ->
  forallb is_num sts = true -> NoDup (map num sts) ->
  forallb is_num (fold_left add_status vals sts) = true
  /\ NoDup (map num (fold_left add_status vals sts))
  /\ forall w, In w (fold_left add_status vals sts) ->
               In w sts \/ (truthy w = true /\ In w vals).
Proof.
  revert sts. induction vals as [|v vals IH]; intros sts Hv Hs Hnd;
    cbn [fold_left]; [auto|].
  assert (Hv' : forall v, In v vals -> truthy v = true -> is_str v = false)
    by (intros; apply Hv; [now right | assumption]).
  unfold add_status at 2 4 6.
  destruct (truthy v) eqn:T; cbn [andb].
  - destruct (in_list v sts) eqn:I; cbn [negb].
    + destruct (IH sts Hv' Hs Hnd) as (H1 & H2 & H3).
      split; [assumption|]. split; [assumption|].
      intros w Hw. apply H3 in Hw as [Hw|[Hw1 Hw2]]; [now left|].
      right. split; [assumption | now right].
    + assert (N : is_num v = true).
      { pose proof (Hv v (or_introl eq_refl) T) as S.
        destruct v as [|[]|n|s]; cbn in *; try discriminate; reflexivity. }
      destruct (IH (sts ++ [v]) Hv') as (H1 & H2 & H3).
      * rewrite forallb_app, Hs. cbn. now rewrite N.
      * rewrite map_app. cbn [map].
        apply NoDup_app; [assumption | repeat constructor; intros [] |].
        intros a Ha [<-|[]]. revert Ha. now apply in_list_num.
      * split; [assumption|]. split; [assumption|].
        intros w Hw. apply H3 in Hw as [Hw|[Hw1 Hw2]].
        -- apply in_app_or in Hw as [Hw|[<-|[]]]; [now left|].
           right. split; [assumption | now left].
        -- right. split; [assumption | now right].
  - destruct (IH sts Hv' Hs Hnd) as (H1 & H2 & H3).
    split; [assumption|]. split; [assumption|].
    intros w Hw. apply H3 in Hw as [Hw|[Hw1 Hw2]]; [now left|].
    right. split; [assumption | now right].
Qed.

Lemma sorted_strict {A} (f : A -> Z) l :
  StronglySorted (fun a b => (f a <= f b)%Z) l -> NoDup (map f l) ->
  StronglySorted (fun a b => (f a < f b)%Z) l.
Proof.
  induction 1 as [|a l Hs IH Hf]; intros ND; constructor.
  - apply IH. now inversion ND.
  - cbn [map] in ND. apply NoDup_cons_iff in ND as [Hn _].
    rewrite Forall_forall in *. intros b Hb.
    specialize (Hf b Hb).
    assert (f a <> f b)
      by (intros E; apply Hn; rewrite E; now apply in_map).
    lia.
Qed.

(** X24: when every status value that counts as true is a number (an
    integer, or [True], which is the number 1), the status loop and the
    sort do not raise: they give the statuses in strictly ascending
    numeric order, each a status value of the records, and every such
    value is represented by the status of the same number, so that
    [True] and 1 give one status.  An analysis of the type that returns
    has these statuses. *)
Theorem numeric_statuses_sorted (type_info : ItemTypeInfo)
    (records : list (item record)) :
  statuses type_info = [] ->
  forallb is_dict records = true ->
  (forall v, In v (all_status_values records) -> truthy v = true ->
             is_str v = false) ->
  exists sorted_sts,
    (sts <- extract_statuses records (statuses type_info) ;;
     sorted_values sts)
    = Ok sorted_sts
    /\ StronglySorted (fun a b => (num a < num b)%Z) sorted_sts
    /\ (forall w, In w sorted_sts ->
                  truthy w = true /\ In w (all_status_values records))
    /\ (forall v, In v (all_status_values records) -> truthy v = true ->
                  exists w, In w sorted_sts /\ num w = num v)
    /\ (forall type_info',
          analyze_type type_info records = Ok type_info' ->
          statuses type_info' = sorted_sts).
Proof.
  intros Hs Hd Hv.
  destruct (collected_numbers (all_status_values records) [] Hv eq_refl)
    as (H1 & H2 & H3); [constructor|].
  set (sts := fold_left add_status (all_status_values records) []) in *.
  assert (E : (sts <- extract_statuses records (statuses type_info) ;;
               sorted_values sts)
              = Ok (sorted num_le sts)).
  { rewrite (extract_statuses_objects _ _ Hd), Hs. fold sts. cbn [bind].
    apply (sorted_values_numbers _ H1). }
  exists (sorted num_le sts). split; [exact E|].
  assert (P : Permutation (sorted num_le sts) sts) by apply sorted_perm.
  split; [|split; [|split]].
  - apply sorted_strict.
    + eapply StronglySorted_weaken; [|apply (sorted_sorted num_le)].
      * intros a b H. now apply Z.leb_le in H.
      * intros a b. unfold num_le. rewrite !Z.leb_le. lia.
      * intros a b c. unfold num_le. rewrite !Z.leb_le. lia.
    + apply (Permutation_NoDup (Permutation_map num (Permutation_sym P))).
      exact H2.
  - intros w Hw. apply (Permutation_in _ P) in Hw.
    apply H3 in Hw as [[]|Hw]. exact Hw.
  - intros v Hin Ht.
    pose proof (in_list_collected v _ [] Hin Ht) as I. fold sts in I.
    unfold in_list in I. apply existsb_exists in I as (w & Hw & Ew).
    exists w. split; [apply (Permutation_in _ (Permutation_sym P) Hw)|].
    assert (Nv : is_num v = true).
    { pose proof (Hv v Hin Ht) as S.
      destruct v as [|[]|n|s]; cbn in *; try discriminate; reflexivity. }
    assert (Nw : is_num w = true)
      by (rewrite forallb_forall in H1; now apply H1).
    rewrite eqb_num in Ew by assumption. apply Z.eqb_eq in Ew. congruence.
  - intros type_info' A. apply analyze_type_parts in A as (A & _).
    rewrite E in A. now injection A as <-.
Qed.

Lemma numeric_statuses_sorted_witness :
  exists sorted_sts,
    (sts <- extract_statuses
              [ Dict (mk_record VNone VNone VNone VNone
                        [ entry "Status" (VInt 3) "number";
                          entry "Status" (VBool true) "boolean";
                          entry "Status" (VInt 1) "number" ] []) ]
              [] ;;
     sorted_values sts)
    = Ok sorted_sts
    /\ StronglySorted (fun a b => (num a < num b)%Z) sorted_sts.
Proof.
  destruct (numeric_statuses_sorted (new_ItemTypeInfo "Part" "type:Part")
              [ Dict (mk_record VNone VNone VNone VNone
                        [ entry "Status" (VInt 3) "number";
                          entry "Status" (VBool true) "boolean";
                          entry "Status" (VInt 1) "number" ] []) ]
              eq_refl eq_refl) as (l & H1 & H2 & _).
  - intros v [<-|[<-|[<-|[]]]] _; reflexivity.
  - exists l. split; assumption.
Defined.

(** ** What the output says of a relation *)

(** X25: the description of a catalog entry in the output names every
    type that has the relation once under "fromTypes", gives an empty
    list under "toTypes" and the number of relation entries of that
    name under "count". *)
Theorem relation_entry_json (its : od ItemTypeInfo)
    (recs : od (list (item record))) (r : RelationTypeInfo) :
  In r (values (relation_types (_analyze_relations (analyzed its recs)))) ->
  exists from_types,
    get "fromTypes" (RelationTypeInfo_to_dict r)
    = Some (json_of_strings from_types)
    /\ NoDup from_types
    /\ (forall n, In n from_types
                  <-> exists records,
                        In (n, records) recs
                        /\ In (relationType r)
                              (flat_map record_relation_names records))
    /\ get "toTypes" (RelationTypeInfo_to_dict r) = Some (json_of_strings [])
    /\ get "count" (RelationTypeInfo_to_dict r)
       = Some (JInt (occurrences (relationType r) (relation_scan recs)))
    /\ get "accessPattern" (RelationTypeInfo_to_dict r)
       = Some (JStr (access_pattern_of (relationType r))).
Proof.
  intros H. destruct (catalog_entry its recs r H) as (_ & Hf & Ht & Ha).
  destruct (catalog_spec its recs) as (_ & Hc & _). cbn zeta in Hc.
  exists (dedup_first_seen (fromTypes r)).
  split; [|split; [|split; [|split; [|split]]]].
  - cbn. now rewrite fromkeys_dedup.
  - apply dedup_NoDup.
  - intros n. rewrite dedup_In, Hf. apply sources_of_In.
  - cbn. now rewrite Ht.
  - cbn. now rewrite (Hc r H).
  - cbn. now rewrite Ha.
Qed.

Lemma relation_entry_json_witness :
  get "count"
    (RelationTypeInfo_to_dict
       (mk_RelationTypeInfo "tests" ["Requirement"; "Requirement"] []
          2%Z "relations | where('type', 'tests')"))
  = Some (JInt 2).
Proof.
  destruct (relation_entry_json []
              [("Requirement",
                [ requirement "Login" "REQ-1" "Open" ["tests"; "refines"];
                  requirement "Audit" "REQ-3" "Closed" ["tests"] ])]
              (mk_RelationTypeInfo "tests" ["Requirement"; "Requirement"] []
                 2%Z "relations | where('type', 'tests')"))
    as (l & _ & _ & _ & _ & H & _).
  - left. reflexivity.
  - exact H.
Defined.

(** ** Truncation twice *)

(** X26: truncating to the same bound again changes nothing. *)
Theorem truncate_idempotent (text : string) (max_len : nat) :
  3 <= max_len ->
  _truncate (_truncate text max_len) max_len = _truncate text max_len.
Proof.
  intros H3. pose proof (truncate_length text max_len H3) as L.
  unfold _truncate at 1.
  destruct (Nat.leb_spec (String.length (_truncate text max_len)) max_len);
    [reflexivity | lia].
Qed.

Lemma truncate_idempotent_witness :
  _truncate (_truncate "Replace the pump seal" 10) 10
  = _truncate "Replace the pump seal" 10.
Proof.
  apply (truncate_idempotent "Replace the pump seal" 10). lia.
Defined.

(** ** Names that never reach the output *)

(** X27: whatever the fetch returns and in whatever order the discovered
    names are listed, the output of a run that returns has no type with
    the empty name or the name "Unknown", and every type of the output
    is one of the discovered names. *)
Theorem unknown_type_never_listed (q : string -> option response)
    (listing : list string) (out : output) :
  extract q (discovered listing) = Ok out ->
  ~ In "Unknown" (keys (itemTypes out))
  /\ ~ In EmptyString (keys (itemTypes out))
  /\ (forall n, In n (keys (itemTypes out)) -> In n listing).
Proof.
  intros H.
  assert (K : forall n, In n (keys (itemTypes out)) ->
                        In n listing /\ n <> EmptyString /\ n <> "Unknown").
  { intros n Hn. apply (output_type_names q _ out n H) in Hn.
    rewrite fetch_records_by_type_spec in Hn
      by apply discovered_wf.
    cbn [item_types] in Hn. apply keys_kept_types in Hn.
    apply get_Some_keys_inv in Hn as [t G].
    apply discovered_get in G. tauto. }
  split; [|split].
  - intros Hn. apply K in Hn. tauto.
  - intros Hn. apply K in Hn. tauto.
  - intros n Hn. now apply K.
Qed.

Lemma unknown_type_never_listed_witness :
  let out :=
    match extract
            (fun _ =>
               Some (mk_response
                       (Some [requirement "Login" "REQ-1" "Open" []]) None))
            (discovered ["Unknown"; "Requirement"])
    with
    | Ok out => out
    | Raise _ => mk_output 0 0 0 [] []
    end in
  keys (itemTypes out) = ["Requirement"]
  /\ ~ In "Unknown" (keys (itemTypes out)).
Proof.
  split; [vm_compute; reflexivity|].
  apply (unknown_type_never_listed
           (fun _ =>
              Some (mk_response
                      (Some [requirement "Login" "REQ-1" "Open" []]) None))
           ["Unknown"; "Requirement"]).
  vm_compute. reflexivity.
Defined.
